(** * Klipper status clients: framing, handshake and retry loop

    A shallow embedding of the two socket clients of the repository,

    - [3dstatus/3dstatus.py]      (blocking sockets)        : [Module Blocking]
    - [deuterium/klippertest.py]  (asyncio streams)         : [Module Async]

    and of the two functions with which both find the socket,
    [find_processes_and_config_files] and [parse_config_files]
    ([Module Discovery]).

    Python [bytes] and [str] values are modelled as [string] (a [str] by
    its UTF-8 encoding), parsed JSON documents as [json], and the effects
    of a run (log lines, printed lines, sleeps, socket traffic) as a
    trace of [event]s.  The peer and the operating system are scripts
    that fix what each [connect], [read]/[recv] and [sendall] call does. *)

From Stdlib Require Import String Ascii List ZArith QArith Bool Arith Lia.
From Stdlib Require Import DecimalString.
Import ListNotations.
Local Close Scope Q_scope.
Local Open Scope string_scope.
Local Open Scope list_scope.
Set Warnings "-register-all".

(** ** Exceptions *)

(** The exception classes the two scripts can meet.  [OSError] is
    [socket.error]; [SocketTimeout] ([socket.timeout]) is one of its
    subclasses.  [KeyboardInterrupt], [CancelledError]
    ([asyncio.CancelledError], raised at an [await] when the task is
    cancelled), [SystemExit] and [GeneratorExit] derive from
    [BaseException] only, every other class from [Exception]. *)
Inductive exn : Type :=
| OSError (errno : Z)
| SocketTimeout
| JSONDecodeError
| UnicodeDecodeError
| KeyError
| TypeError
| AttributeError
| IndexError
| ValueError
| OverflowError
| NameError
| KeyboardInterrupt
| CancelledError
| SystemExit
| GeneratorExit.

(** [isinstance(e, Exception)] *)
Definition is_Exception (e : exn) : bool :=
  match e with
  | KeyboardInterrupt | CancelledError | SystemExit | GeneratorExit => false
  | _ => true
  end.

(** [isinstance(e, socket.error)] *)
Definition is_socket_error (e : exn) : bool :=
  match e with OSError _ | SocketTimeout => true | _ => false end.

(** [isinstance(e, socket.timeout)] *)
Definition is_socket_timeout (e : exn) : bool :=
  match e with SocketTimeout => true | _ => false end.

(** [isinstance(e, (json.JSONDecodeError, KeyError))] *)
Definition is_parse_error (e : exn) : bool :=
  match e with JSONDecodeError | KeyError => true | _ => false end.

Definition ECONNREFUSED : Z := 111.

(** ** Parsed JSON documents *)

(** What [json.loads] returns.  A [dict] keeps its insertion order, so a
    JSON object is an association list; [JFloat] carries the 64 bits of
    the binary64 value. *)
Inductive json : Type :=
| JNull
| JBool (b : bool)
| JInt (z : Z)
| JFloat (bits : Z)
| JStr (s : string)
| JArr (items : list json)
| JObj (fields : list (string * json)).

Fixpoint assoc (k : string) (fields : list (string * json)) : option json :=
  match fields with
  | [] => None
  | (k', v) :: rest => if String.eqb k k' then Some v else assoc k rest
  end.

Definition has_key (k : string) (fields : list (string * json)) : bool :=
  match assoc k fields with Some _ => true | None => false end.

(** *** Byte-level helpers for [str] values held as UTF-8 *)

Definition byte_of (c : ascii) : nat := nat_of_ascii c.

Definition in_range (lo hi : nat) (c : ascii) : bool :=
  (lo <=? byte_of c)%nat && (byte_of c <=? hi)%nat.

Definition is_cont (c : ascii) : bool := in_range 128 191 c.

(** Strict UTF-8, as [bytes.decode()] checks it: no overlong forms, no
    surrogates, nothing above U+10FFFF. *)
Fixpoint utf8_valid (s : string) : bool :=
  match s with
  | EmptyString => true
  | String c0 r0 =>
    if in_range 0 127 c0 then utf8_valid r0
    else match r0 with
    | EmptyString => false
    | String c1 r1 =>
      if in_range 194 223 c0 then is_cont c1 && utf8_valid r1
      else match r1 with
      | EmptyString => false
      | String c2 r2 =>
        if in_range 224 239 c0 then
          (if (byte_of c0 =? 224)%nat then in_range 160 191 c1
           else if (byte_of c0 =? 237)%nat then in_range 128 159 c1
           else is_cont c1)
          && is_cont c2 && utf8_valid r2
        else match r2 with
        | EmptyString => false
        | String c3 r3 =>
          if in_range 240 244 c0 then
            (if (byte_of c0 =? 240)%nat then in_range 144 191 c1
             else if (byte_of c0 =? 244)%nat then in_range 128 143 c1
             else is_cont c1)
            && is_cont c2 && is_cont c3 && utf8_valid r3
          else false
        end
      end
    end
  end.

(** The characters of a [str]: each lead byte with the continuation
    bytes that follow it. *)
Fixpoint take_conts (s : string) : string * string :=
  match s with
  | EmptyString => (EmptyString, EmptyString)
  | String c r =>
    if is_cont c then let '(cs, rest) := take_conts r in (String c cs, rest)
    else (EmptyString, s)
  end.

Fixpoint utf8_chars_fuel (fuel : nat) (s : string) : list string :=
  match fuel with
  | O => []
  | S fuel' =>
    match s with
    | EmptyString => []
    | String c r =>
      let '(cs, rest) := take_conts r in
      String c cs :: utf8_chars_fuel fuel' rest
    end
  end.

Definition utf8_chars (s : string) : list string :=
  utf8_chars_fuel (String.length s) s.

(** *** The Python operators the scripts apply to parsed documents *)

(** [k in data] for a [str] key [k]. *)
Definition py_in (k : string) (data : json) : exn + bool :=
  match data with
  | JObj fields => inr (has_key k fields)
  | JArr items =>
    inr (existsb (fun v => match v with JStr s => String.eqb s k | _ => false end) items)
  | JStr s => inr (match String.index 0 k s with Some _ => true | None => false end)
  | _ => inl TypeError
  end.

(** [data[k]] for a [str] key [k]. *)
Definition py_getitem (data : json) (k : string) : exn + json :=
  match data with
  | JObj fields =>
    match assoc k fields with Some v => inr v | None => inl KeyError end
  | _ => inl TypeError
  end.

(** [data[i]] for a literal index [i] (0, 1 or 2 in the scripts). *)
Definition py_index (data : json) (i : nat) : exn + json :=
  match data with
  | JArr items =>
    match nth_error items i with Some v => inr v | None => inl IndexError end
  | JStr s =>
    match nth_error (utf8_chars s) i with
    | Some c => inr (JStr c)
    | None => inl IndexError
    end
  | JObj _ => inl KeyError
  | _ => inl TypeError
  end.

(** [data.get(k, default)] *)
Definition py_get (data : json) (k : string) (default : json) : exn + json :=
  match data with
  | JObj fields =>
    match assoc k fields with Some v => inr v | None => inr default end
  | _ => inl AttributeError
  end.

(** [for obj in data] *)
Definition py_iter (data : json) : exn + list json :=
  match data with
  | JArr items => inr items
  | JObj fields => inr (map (fun kv => JStr (fst kv)) fields)
  | JStr s => inr (map JStr (utf8_chars s))
  | _ => inl TypeError
  end.

(** ** The library the scripts call

    [json.dumps], [json.loads] and float formatting belong to the Python
    runtime, not to the repository: they are the operations of a
    [PyLib].  [json_loads] answers [None] where [json.loads] raises
    [JSONDecodeError]. *)
Class PyLib : Type := {
  json_dumps : json -> string;
  json_loads : string -> option json;
  (** [f'{x:.2f}'] for a [float] given by its bits *)
  format_float_2f : Z -> string;
  (** [f'{n:.2f}'] for an [int] that [float(n)] may round or reject *)
  format_bigint_2f : Z -> exn + string
}.

Definition string_of_Z (z : Z) : string := NilZero.string_of_int (Z.to_int z).

(** [f'{v:.2f}']: an [int] up to 2^53 in size converts to [float]
    exactly and prints with two zero decimals; [bool] is an [int]. *)
Definition format_2f {lib : PyLib} (v : json) : exn + string :=
  match v with
  | JInt z =>
    if (Z.abs z <=? 2 ^ 53)%Z then inr (string_of_Z z ++ ".00")%string
    else format_bigint_2f z
  | JBool b => inr (if b then "1.00" else "0.00")
  | JFloat bits => inr (format_float_2f bits)
  | JStr _ => inl ValueError
  | _ => inl TypeError
  end.

(** ** Observable effects *)

Inductive level : Type := LvlDebug | LvlWarning | LvlError.

(** A discovered process, as [find_processes_and_config_files] lists it. *)
Record process : Type := { p_name : string; p_pid : Z; p_cmdline : string }.

(** The text handed to [logging] or [print]: a literal of the source, or
    a literal followed by the value an f-string interpolates. *)
Inductive msg : Type :=
| Text (s : string)
| TextStr (prefix s : string)
| TextJson (prefix : string) (v : json)
| TextExn (prefix : string) (e : exn)
| AttemptMsg (uds : string) (attempt max_attempts : nat)
| ProcessMsg (p : process)
| ProcessPidMsg (p : process)
| PositionMsg (x y z : json)
| TimeTakenMsg.

Inductive event : Type :=
| ELog (lvl : level) (m : msg)
| EPrint (m : msg)
| ESleep (seconds : Q)
| EFindProcesses
| EParseConfigFiles
| ECheckSystemd (service_name : string)
| EConnect (path : string)
| ESend (data : string)
| EClose.

Definition trace : Type := list event.

(** ** The environment *)

(** What one [read]/[recv] call meets: a chunk of bytes (the empty
    chunk is end of stream), an exception, or a peer that keeps the
    connection open and sends nothing.  On the last a [recv] under
    [settimeout] raises [socket.timeout] when the time is up, and a
    read without a timeout does not return. *)
Inductive read_event : Type :=
| Data (chunk : string)
| ReadRaises (e : exn)
| Stalls.

(** One connection: whether [connect] raises, what the successive
    [sendall]/[drain] calls raise, and what the successive reads return.
    A script that has run out answers as a closed peer does: writes
    succeed into the buffer and reads return the empty chunk. *)
Record conn : Type := {
  connect_error : option exn;
  sends : list (option exn);
  reads : list read_event
}.

(** What endpoint resolution found, and one connection per attempt. *)
Record world : Type := {
  processes : list process;
  config_files : list string;
  klipper_uds : option string;
  klipper_api_key : option string;
  conns : list conn
}.

(** The sockets as a run sees them: the script of the connection in use
    and the scripts of the connections still to be opened. *)
Record net : Type := {
  sends_left : list (option exn);
  reads_left : list read_event;
  pending : list conn
}.

(** An open connection on which [rd] is still to be read. *)
Definition on_stream (rd : list read_event) : net :=
  {| sends_left := []; reads_left := rd; pending := [] |}.

Definition initial_net (w : world) : net :=
  {| sends_left := []; reads_left := []; pending := conns w |}.

(** ** A monad for the body of an attempt

    A computation runs against the socket scripts and appends to the
    trace.  It ends normally or by raising; or it does not end, because
    it exhausts the fuel of an unbounded loop or because it waits on a
    read that never returns. *)
Inductive outcome (A : Type) : Type :=
| Normal (a : A)
| Raised (e : exn)
| OutOfFuel
| Hangs.
Arguments Normal {A} a.
Arguments Raised {A} e.
Arguments OutOfFuel {A}.
Arguments Hangs {A}.

Definition Py (A : Type) : Type := net -> trace * net * outcome A.

Definition ret {A : Type} (a : A) : Py A := fun c => ([], c, Normal a).

Definition bind {A B : Type} (m : Py A) (k : A -> Py B) : Py B := fun c =>
  match m c with
  | (t, c', Normal a) => let '(t', c'', r) := k a c' in (t ++ t', c'', r)
  | (t, c', Raised e) => (t, c', Raised e)
  | (t, c', OutOfFuel) => (t, c', OutOfFuel)
  | (t, c', Hangs) => (t, c', Hangs)
  end.

Declare Scope py_scope.
Delimit Scope py_scope with py.
Notation "x <- m ;; k" := (bind m (fun x => k))
  (at level 100, m at next level, right associativity) : py_scope.
Notation "m ;; k" := (bind m (fun _ => k))
  (at level 100, right associativity) : py_scope.
Local Open Scope py_scope.

Definition emit (ev : event) : Py unit := fun c => ([ev], c, Normal tt).

Definition raise {A : Type} (e : exn) : Py A := fun c => ([], c, Raised e).

Definition out_of_fuel {A : Type} : Py A := fun c => ([], c, OutOfFuel).

Definition lift {A : Type} (r : exn + A) : Py A :=
  match r with inl e => raise e | inr a => ret a end.

(** [try: m  except ...: handler]; the handler table answers [None] for
    an exception no clause matches. *)
Definition try_except {A : Type} (m : Py A) (handler : exn -> option (Py A)) : Py A :=
  fun c =>
  match m c with
  | (t, c', Raised e) =>
    match handler e with
    | Some h => let '(t', c'', r) := h c' in (t ++ t', c'', r)
    | None => (t, c', Raised e)
    end
  | r => r
  end.

Definition logging_debug (m : msg) : Py unit := emit (ELog LvlDebug m).
Definition logging_warning (m : msg) : Py unit := emit (ELog LvlWarning m).
Definition logging_error (m : msg) : Py unit := emit (ELog LvlError m).
Definition print (m : msg) : Py unit := emit (EPrint m).
Definition sleep (seconds : Q) : Py unit := emit (ESleep seconds).

(** [for x in xs: body x] *)
Fixpoint for_each {A : Type} (xs : list A) (body : A -> Py unit) : Py unit :=
  match xs with
  | [] => ret tt
  | x :: rest => body x ;; for_each rest body
  end.

(** ** Socket operations *)

(** Connecting takes the next connection script; with none left nothing
    listens on the path and the call is refused. *)
Definition connect (path : string) : Py unit := fun n =>
  match pending n with
  | [] => ([EConnect path], n, Raised (OSError ECONNREFUSED))
  | c :: rest =>
    match connect_error c with
    | Some e =>
      ([EConnect path],
       {| sends_left := []; reads_left := []; pending := rest |}, Raised e)
    | None =>
      ([EConnect path],
       {| sends_left := sends c; reads_left := reads c; pending := rest |},
       Normal tt)
    end
  end.

(** One write: the bytes go on the trace, then the script says whether
    the call raises. *)
Definition write_all (data : string) : Py unit := fun n =>
  match sends_left n with
  | [] => ([ESend data], n, Normal tt)
  | r :: rest =>
    let n' := {| sends_left := rest; reads_left := reads_left n;
                 pending := pending n |} in
    match r with
    | None => ([ESend data], n', Normal tt)
    | Some e => ([ESend data], n', Raised e)
    end
  end.

Definition set_reads (rd : list read_event) (n : net) : net :=
  {| sends_left := sends_left n; reads_left := rd; pending := pending n |}.

(** ** Framing *)

(** The terminator byte, 0x03. *)
Definition ETX : ascii := "003"%char.

(** [b'\x03' in data] *)
Fixpoint contains_etx (data : string) : bool :=
  match data with
  | EmptyString => false
  | String c r => if Ascii.eqb c ETX then true else contains_etx r
  end.

(** [data.split(b'\x03')[0]] *)
Fixpoint before_etx (data : string) : string :=
  match data with
  | EmptyString => EmptyString
  | String c r => if Ascii.eqb c ETX then EmptyString else String c (before_etx r)
  end.

(** [s.lstrip('\x03')] *)
Fixpoint lstrip_etx (s : string) : string :=
  match s with
  | EmptyString => EmptyString
  | String c r => if Ascii.eqb c ETX then lstrip_etx r else s
  end.

(** [s.rstrip('\x03')] *)
Fixpoint rstrip_etx (s : string) : string :=
  match s with
  | EmptyString => EmptyString
  | String c r =>
    match rstrip_etx r with
    | EmptyString => if Ascii.eqb c ETX then EmptyString else String c EmptyString
    | r' => String c r'
    end
  end.

(** [s.strip('\x03')] *)
Definition strip_etx (s : string) : string := rstrip_etx (lstrip_etx s).

(** [data.decode()]: UTF-8, strict. *)
Definition decode (data : string) : exn + string :=
  if utf8_valid data then inr data else inl UnicodeDecodeError.

(** [json.dumps(payload) + "\x03"], encoded: a frame on the wire. *)
Definition frame {lib : PyLib} (payload : json) : string :=
  (json_dumps payload ++ String ETX EmptyString)%string.

(** [if s:] for a [str] *)
Definition nonempty (s : string) : bool :=
  match s with EmptyString => false | _ => true end.

(** [with ...: m]: the socket is closed when the block is left,
    normally or by an exception. *)
Definition closing {A : Type} (m : Py A) : Py A := fun n =>
  let '(t, n', r) := m n in
  match r with
  | Normal _ | Raised _ => (t ++ [EClose], n', r)
  | OutOfFuel | Hangs => (t, n', r)
  end.

(** [json.loads(text)] *)
Definition loads {lib : PyLib} (text : string) : Py json :=
  match json_loads text with
  | Some data => ret data
  | None => raise JSONDecodeError
  end.

Definition newline : string := String "010"%char EmptyString.

(** Where a run of [get_printer_status] left the function. *)
Inductive exit_point : Type :=
| ReturnNoSocket      (* the early [return]: no socket path was found *)
| ReturnStatus        (* the [return] after the status was printed *)
| ReturnExhausted.    (* the end of the body, after the attempt loop *)

(** The lines both scripts log before the attempt loop. *)
Definition log_found (w : world) (line : process -> msg) : Py unit :=
  logging_debug (Text "Found processes:") ;;
  for_each (processes w) (fun p => logging_debug (line p)) ;;
  logging_debug (Text (newline ++ "Found config files:")%string) ;;
  for_each (config_files w) (fun f => logging_debug (TextStr "- " f)).

(** * The asyncio client, [deuterium/klippertest.py] *)
Module Async.

(** The [while True] loop of [receive_response]: the accumulated
    [response_data] when the loop is left.  The buffer is a local of the
    call, so what follows the terminator in it goes no further.  The
    stream has no timeout: [await reader.read] on a peer that stalls
    never returns. *)
Fixpoint read_loop (rd : list read_event) (response_data : string)
  : trace * list read_event * outcome string :=
  match rd with
  | [] => ([], [], Normal response_data)
  | Data chunk :: rd' =>
    if nonempty chunk then
      let response_data := (response_data ++ chunk)%string in
      if contains_etx response_data then ([], rd', Normal response_data)
      else read_loop rd' response_data
    else ([], rd', Normal response_data)
  | ReadRaises e :: rd' =>
    if is_Exception e then
      ([ELog LvlError (TextExn "Error while receiving response: " e)], rd',
       Normal response_data)
    else ([], rd', Raised e)
  | Stalls :: _ => ([], rd, Hangs)
  end.

Definition receive_response : Py string := fun n =>
  let '(t, rd, r) := read_loop (reads_left n) EmptyString in
  match r with
  | Normal response_data =>
    match decode (before_etx response_data) with
    | inr response_string => (t, set_reads rd n, Normal response_string)
    | inl e => (t, set_reads rd n, Raised e)
    end
  | Raised e => (t, set_reads rd n, Raised e)
  | OutOfFuel => (t, set_reads rd n, OutOfFuel)
  | Hangs => (t, set_reads rd n, Hangs)
  end.

Definition send_request (request : string) : Py unit := write_all request.

(** What both call sites do with a frame: read it, then [json.loads]. *)
Definition next_document {lib : PyLib} : Py json :=
  text <- receive_response ;;
  loads text.

Definition two_documents {lib : PyLib} : Py (json * json) :=
  first <- next_document ;;
  second <- next_document ;;
  ret (first, second).

Definition default_position : json := JArr [JInt 0; JInt 0; JInt 0].

(** One [{toolhead.get('position', [0, 0, 0])[i]:.2f}] field. *)
Definition position_field {lib : PyLib} (toolhead : json) (i : nat) : Py string :=
  position <- lift (py_get toolhead "position" default_position) ;;
  coordinate <- lift (py_index position i) ;;
  lift (format_2f coordinate).

Definition print_printer_status {lib : PyLib} (status : json) : Py unit :=
  toolhead <- lift (py_get status "toolhead" (JObj [])) ;;
  x <- position_field toolhead 0 ;;
  y <- position_field toolhead 1 ;;
  z <- position_field toolhead 2 ;;
  print (Text ("Toolhead Position: X=" ++ x ++ ", Y=" ++ y ++ ", Z=" ++ z)%string).

Definition max_attempts : nat := 3.
Definition delay : Q := 2.

Definition list_request : json :=
  JObj [("jsonrpc", JStr "2.0"); ("method", JStr "objects/list"); ("id", JInt 123)].

Definition subscribe_request : json :=
  JObj [("jsonrpc", JStr "2.0");
        ("method", JStr "objects/subscribe");
        ("params", JObj [("objects", JObj [("toolhead", JArr [JStr "position"])])]);
        ("id", JInt 456)].

(** One pass of the update loop's [try] body. *)
Definition receive_update {lib : PyLib} : Py unit :=
  update <- receive_response ;;
  if nonempty update then
    update_data <- loads update ;;
    has_params <- lift (py_in "params" update_data) ;;
    if has_params then
      params <- lift (py_getitem update_data "params") ;;
      status <- lift (py_getitem params "status") ;;
      print_printer_status status
    else ret tt
  else sleep 1.

(** The [while True] loop that follows the subscribe request.  Both
    [except] clauses end in [break]; what neither of them catches
    leaves the loop as it was raised. *)
Fixpoint listen {lib : PyLib} (fuel : nat) : Py unit :=
  match fuel with
  | O => out_of_fuel
  | S fuel' =>
    again <- try_except (receive_update ;; ret true)
      (fun e =>
         match e with
         | KeyboardInterrupt =>
           Some (print (Text (newline ++ "Stopped listening for updates.")%string) ;;
                 ret false)
         | _ =>
           if is_Exception e then
             Some (logging_error (TextExn "Error while receiving updates: " e) ;;
                   ret false)
           else None
         end) ;;
    if again then listen fuel' else ret tt
  end.

(** The [try] body of one attempt, from the first request on. *)
Definition converse {lib : PyLib} (fuel : nat) : Py unit :=
  logging_debug (Text "Connected to Unix Domain Socket") ;;
  send_request (frame list_request) ;;
  response <- receive_response ;;
  logging_debug (TextStr "Received response: " response) ;;
  if nonempty response then
    data <- loads response ;;
    logging_debug (TextJson "Parsed response: " data) ;;
    has_result <- lift (py_in "result" data) ;;
    if has_result then
      logging_debug (Text "API request succeeded") ;;
      result <- lift (py_getitem data "result") ;;
      objects <- lift (py_getitem result "objects") ;;
      print (Text "Available objects:") ;;
      objs <- lift (py_iter objects) ;;
      for_each objs (fun obj => print (TextJson "  - " obj)) ;;
      print TimeTakenMsg ;;
      send_request (frame subscribe_request) ;;
      logging_debug (Text "Sent JSON-RPC request to subscribe to printer objects") ;;
      listen fuel
    else
      err <- lift (py_get data "error" (JStr "Unknown error")) ;;
      logging_error (TextJson "Error in objects/list: " err)
  else logging_error (Text "No response received").

(** The [try] body of one attempt. *)
Definition handshake {lib : PyLib} (fuel : nat) (uds : string)
  (attempt max_attempts : nat) : Py unit :=
  logging_debug (AttemptMsg uds (attempt + 1) max_attempts) ;;
  connect uds ;;
  converse fuel.

(** One pass of the [for] loop: the [try] statement, then the sleep. *)
Definition attempt_once {lib : PyLib} (fuel : nat) (uds : string)
  (max_attempts : nat) (delay : Q) (attempt : nat) : Py unit :=
  try_except (handshake fuel uds attempt max_attempts)
    (fun e =>
       if is_parse_error e then
         Some (logging_error (TextExn "Error: Unable to parse response: " e))
       else if is_Exception e then Some (logging_error (TextExn "Error: " e))
       else None) ;;
  sleep delay.

Definition terminal_failure : event :=
  ELog LvlError
    (Text "Failed to establish communication with Klipper after multiple attempts.").

Definition resolve (w : world) : Py unit :=
  emit EFindProcesses ;;
  log_found w ProcessPidMsg ;;
  emit EParseConfigFiles.

(** [get_printer_status] with the two locals of the source as
    parameters. *)
Definition get_printer_status_with {lib : PyLib} (max_attempts : nat) (delay : Q)
  (fuel : nat) (w : world) : Py exit_point :=
  resolve w ;;
  match klipper_uds w with
  | None =>
    logging_error (Text "Error: Could not find Unix Domain Socket path.") ;;
    ret ReturnNoSocket
  | Some uds =>
    for_each (seq 0 max_attempts) (attempt_once fuel uds max_attempts delay) ;;
    emit terminal_failure ;;
    ret ReturnExhausted
  end.

Definition get_printer_status {lib : PyLib} (fuel : nat) (w : world) : Py exit_point :=
  get_printer_status_with max_attempts delay fuel w.

(** A whole run: the trace and how the coroutine ended. *)
Definition run {lib : PyLib} (fuel : nat) (w : world) : trace * outcome exit_point :=
  let '(t, _, r) := get_printer_status fuel w (initial_net w) in (t, r).

Definition run_with {lib : PyLib} (max_attempts : nat) (delay : Q) (fuel : nat)
  (w : world) : trace * outcome exit_point :=
  let '(t, _, r) := get_printer_status_with max_attempts delay fuel w (initial_net w)
  in (t, r).

End Async.

(** * The blocking client, [3dstatus/3dstatus.py] *)
Module Blocking.

(** The names the module binds at top level: its imports and its
    functions. *)
Definition module_globals : list string :=
  ["json"; "socket"; "psutil"; "os"; "re"; "logging"; "time"; "jsonschema";
   "find_processes_and_config_files"; "parse_config_files";
   "check_systemd_service"; "receive_response"; "get_printer_status"].

(** Evaluating a global name. *)
Definition lookup_global (name : string) : Py unit :=
  if existsb (String.eqb name) module_globals then ret tt else raise NameError.

(** [e.errno == code] *)
Definition errno_is (e : exn) (code : Z) : bool :=
  match e with OSError n => Z.eqb n code | _ => false end.

(** The [while True] loop of [receive_response]: it is left at end of
    stream or on a [socket.error].  The socket is under
    [settimeout(10)] by then, so on a peer that stalls [recv] raises
    [socket.timeout], which is a [socket.error]. *)
Fixpoint recv_loop (rd : list read_event) (response_data : string)
  : trace * list read_event * outcome string :=
  match rd with
  | [] => ([], [], Normal response_data)
  | Data chunk :: rd' =>
    if nonempty chunk then recv_loop rd' (response_data ++ chunk)%string
    else ([], rd', Normal response_data)
  | ReadRaises e :: rd' =>
    if is_socket_error e then ([], rd', Normal response_data)
    else ([], rd', Raised e)
  | Stalls :: rd' => ([], rd', Normal response_data)
  end.

Definition receive_response : Py string := fun n =>
  let '(t, rd, r) := recv_loop (reads_left n) EmptyString in
  match r with
  | Normal response_data =>
    match decode response_data with
    | inr text => (t, set_reads rd n, Normal (strip_etx text))
    | inl e => (t, set_reads rd n, Raised e)
    end
  | Raised e => (t, set_reads rd n, Raised e)
  | OutOfFuel => (t, set_reads rd n, OutOfFuel)
  | Hangs => (t, set_reads rd n, Hangs)
  end.

Definition max_attempts : nat := 3.
Definition delay : Q := 2.

Definition list_request : json :=
  JObj [("jsonrpc", JStr "2.0"); ("method", JStr "objects/list"); ("id", JInt 123)].

Definition query_params : json :=
  JObj [("objects", JObj [("toolhead", JArr [JStr "position"]);
                          ("print_stats", JArr [JStr "state"])])].

(** [if klipper_api_key:] is false for [None] and for the empty string. *)
Definition api_key_present (klipper_api_key : option string) : bool :=
  match klipper_api_key with Some key => nonempty key | None => false end.

(** The dictionary handed to [json.dumps] for the status query. *)
Definition query_request (klipper_api_key : option string) : json :=
  match klipper_api_key with
  | Some key =>
    if nonempty key then
      JObj [("jsonrpc", JStr "2.0"); ("method", JStr "printer.objects.query");
            ("params", query_params); ("id", JInt 1); ("api_key", JStr key)]
    else
      JObj [("jsonrpc", JStr "2.0"); ("method", JStr "printer.objects.query");
            ("params", query_params); ("id", JInt 1)]
  | None =>
    JObj [("jsonrpc", JStr "2.0"); ("method", JStr "printer.objects.query");
          ("params", query_params); ("id", JInt 1)]
  end.

(** How one pass of the [for] body ends. *)
Inductive flow : Type := Next | Continue | Return.

(** [sock.connect] under its own [try]. *)
Definition connect_or_continue (uds : string) : Py flow :=
  try_except (connect uds ;; ret Next)
    (fun e =>
       if is_socket_error e then
         Some (lookup_global "errno" ;;
               if errno_is e ECONNREFUSED then sleep (1 # 10) ;; ret Continue
               else raise e)
       else None).

(** The inner [try] body: both requests and their replies. *)
Definition exchange {lib : PyLib} (klipper_api_key : option string) : Py flow :=
  response <- receive_response ;;
  logging_debug (TextStr "Received response: " response) ;;
  data <- loads response ;;
  has_result <- lift (py_in "result" data) ;;
  if has_result then
    logging_debug (Text "API request succeeded") ;;
    result <- lift (py_getitem data "result") ;;
    objects <- lift (py_getitem result "objects") ;;
    print (TextJson "Available objects: " objects) ;;
    write_all (frame (query_request klipper_api_key)) ;;
    logging_debug (Text "Sent JSON-RPC request for toolhead and print_stats") ;;
    response <- receive_response ;;
    logging_debug (TextStr "Received response: " response) ;;
    data <- loads response ;;
    has_result <- lift (py_in "result" data) ;;
    if has_result then
      result <- lift (py_getitem data "result") ;;
      status <- lift (py_getitem result "status") ;;
      toolhead <- lift (py_getitem status "toolhead") ;;
      toolhead_position <- lift (py_getitem toolhead "position") ;;
      result <- lift (py_getitem data "result") ;;
      status <- lift (py_getitem result "status") ;;
      print_stats <- lift (py_getitem status "print_stats") ;;
      print_state <- lift (py_getitem print_stats "state") ;;
      x <- lift (py_index toolhead_position 0) ;;
      y <- lift (py_index toolhead_position 1) ;;
      z <- lift (py_index toolhead_position 2) ;;
      print (PositionMsg x y z) ;;
      print (TextJson "Print State: " print_state) ;;
      ret Return
    else
      logging_error (Text "Error: Failed to retrieve printer status.") ;;
      ret Next
  else
    logging_warning (Text "API request failed. Retrying...") ;;
    ret Next.

(** The outer [try] body once the connection is up: the first request,
    then the inner [try] statement. *)
Definition dialogue {lib : PyLib} (klipper_api_key : option string) : Py flow :=
  logging_debug (Text "Connected to Unix Domain Socket") ;;
  write_all (frame list_request) ;;
  logging_debug (Text "Sent JSON-RPC request for objects/list") ;;
  try_except (exchange klipper_api_key)
    (fun e =>
       if is_parse_error e then
         Some (logging_error (TextExn "Error: Unable to parse response: " e) ;;
               ret Next)
       else None).

(** The outer [try] body. *)
Definition session {lib : PyLib} (uds : string) (klipper_api_key : option string)
  (attempt max_attempts : nat) : Py flow :=
  logging_debug (AttemptMsg uds (attempt + 1) max_attempts) ;;
  connected <- connect_or_continue uds ;;
  match connected with
  | Next => dialogue klipper_api_key
  | other => ret other
  end.

(** One pass of the [for] loop: the [with] block, then the sleep unless
    the block ended in [continue] or [return]. *)
Definition attempt_once {lib : PyLib} (uds : string) (klipper_api_key : option string)
  (max_attempts : nat) (delay : Q) (attempt : nat) : Py flow :=
  how <- closing
    (try_except (session uds klipper_api_key attempt max_attempts)
       (fun e =>
          if is_socket_timeout e then
            Some (logging_warning
                    (Text "Timed out while waiting for response. Retrying...") ;;
                  ret Next)
          else if is_Exception e then
            Some (logging_error (TextExn "Error: " e) ;; ret Next)
          else None)) ;;
  match how with
  | Next => sleep delay ;; ret Next
  | other => ret other
  end.

(** [for attempt in range: body attempt], left early by [return]; the
    answer tells whether it was. *)
Fixpoint for_attempts (range : list nat) (body : nat -> Py flow) : Py bool :=
  match range with
  | [] => ret false
  | attempt :: rest =>
    how <- body attempt ;;
    match how with
    | Return => ret true
    | _ => for_attempts rest body
    end
  end.

Definition terminal_failure : event :=
  ELog LvlError
    (Text "Failed to establish communication with Klipper after multiple attempts.").

Definition resolve (w : world) : Py unit :=
  emit EFindProcesses ;;
  log_found w ProcessMsg ;;
  emit EParseConfigFiles.

Definition get_printer_status_with {lib : PyLib} (max_attempts : nat) (delay : Q)
  (w : world) : Py exit_point :=
  resolve w ;;
  match klipper_uds w with
  | None =>
    logging_error (Text "Error: Could not find Unix Domain Socket path.") ;;
    ret ReturnNoSocket
  | Some uds =>
    logging_debug (Text (newline ++ "Checking systemd service configurations:")%string) ;;
    for_each (processes w) (fun p => emit (ECheckSystemd (p_name p))) ;;
    returned <- for_attempts (seq 0 max_attempts)
                  (attempt_once uds (klipper_api_key w) max_attempts delay) ;;
    if (returned : bool) then ret ReturnStatus
    else emit terminal_failure ;; ret ReturnExhausted
  end.

Definition get_printer_status {lib : PyLib} (w : world) : Py exit_point :=
  get_printer_status_with max_attempts delay w.

Definition run {lib : PyLib} (w : world) : trace * outcome exit_point :=
  let '(t, _, r) := get_printer_status w (initial_net w) in (t, r).

Definition run_with {lib : PyLib} (max_attempts : nat) (delay : Q) (w : world)
  : trace * outcome exit_point :=
  let '(t, _, r) := get_printer_status_with max_attempts delay w (initial_net w)
  in (t, r).

End Blocking.

(** * Endpoint discovery

    [find_processes_and_config_files] and [parse_config_files] read the
    process table and the config files of the machine.  The two scripts
    hold the same text of both, up to the [pid] that [klippertest.py]
    adds to each listed process. *)
Module Discovery.

(** The three patterns [parse_config_files] hands to [re.findall]:
    [key = value], [key: value] and [key: value] with the value in
    double quotes. *)
Inductive pattern : Type :=
| KeyEquals
| KeyColon
| KeyColonQuoted.

(** The functions of the runtime the two functions call: [str.strip],
    [os.path.dirname], [os.path.join], and [re.findall] with one of the
    three patterns (the pairs of its two groups, in order of
    occurrence). *)
Class PyOs : Type := {
  str_strip : string -> string;
  os_path_dirname : string -> string;
  os_path_join : string -> string -> string;
  re_findall : pattern -> string -> list (string * string)
}.

(** A process as [psutil.process_iter] yields it.  [info['cmdline']] is
    [None] when psutil could not read the command line. *)
Record proc : Type := { pid : Z; cmdline : option (list string) }.

(** The machine: its process table, [os.path.exists], and what opening
    and reading a file as text gives. *)
Record system : Type := {
  process_iter : list proc;
  os_path_exists : string -> bool;
  read_text : string -> exn + string
}.

(** [needle in s] *)
Definition str_in (needle s : string) : bool :=
  match String.index 0 needle s with Some _ => true | None => false end.

(** [s.endswith(suffix)] *)
Definition endswith (s suffix : string) : bool :=
  (String.length suffix <=? String.length s)%nat &&
  String.eqb
    (String.substring (String.length s - String.length suffix) (String.length suffix) s)
    suffix.

(** [s.startswith(prefix)] *)
Definition startswith (s prefix : string) : bool := String.prefix prefix s.

(** [s[2:]] *)
Definition from_2 (s : string) : string :=
  String.substring 2 (String.length s - 2) s.

(** A [dict] with [str] keys, in insertion order. *)
Definition dict (V : Type) : Type := list (string * V).

(** [d.get(k)] *)
Fixpoint lookup {V : Type} (k : string) (d : dict V) : option V :=
  match d with
  | [] => None
  | (k', v) :: rest => if String.eqb k k' then Some v else lookup k rest
  end.

(** [d[k] = v]: a key that is there keeps its place. *)
Fixpoint store {V : Type} (k : string) (v : V) (d : dict V) : dict V :=
  match d with
  | [] => [(k, v)]
  | (k', v') :: rest =>
    if String.eqb k k' then (k, v) :: rest else (k', v') :: store k v rest
  end.

(** What the second loop of [parse_config_files] has found so far, the
    lines it has logged, and the caller's [config_files] list, which it
    appends to in place. *)
Record found : Type := {
  klipper_uds : option string;
  moonraker_port : option string;
  klipper_api_key : option string;
  moonraker_api_key : option string;
  logged : trace;
  config_files : list string
}.

Definition set_klipper_uds (v : string) (st : found) : found :=
  {| klipper_uds := Some v; moonraker_port := moonraker_port st;
     klipper_api_key := klipper_api_key st; moonraker_api_key := moonraker_api_key st;
     logged := logged st; config_files := config_files st |}.

Definition set_moonraker_port (v : string) (st : found) : found :=
  {| klipper_uds := klipper_uds st; moonraker_port := Some v;
     klipper_api_key := klipper_api_key st; moonraker_api_key := moonraker_api_key st;
     logged := logged st; config_files := config_files st |}.

Definition set_klipper_api_key (v : string) (st : found) : found :=
  {| klipper_uds := klipper_uds st; moonraker_port := moonraker_port st;
     klipper_api_key := Some v; moonraker_api_key := moonraker_api_key st;
     logged := logged st; config_files := config_files st |}.

Definition set_moonraker_api_key (v : string) (st : found) : found :=
  {| klipper_uds := klipper_uds st; moonraker_port := moonraker_port st;
     klipper_api_key := klipper_api_key st; moonraker_api_key := Some v;
     logged := logged st; config_files := config_files st |}.

(** [logging.debug(line)] *)
Definition debug (line : string) (st : found) : found :=
  {| klipper_uds := klipper_uds st; moonraker_port := moonraker_port st;
     klipper_api_key := klipper_api_key st; moonraker_api_key := moonraker_api_key st;
     logged := logged st ++ [ELog LvlDebug (Text line)];
     config_files := config_files st |}.

(** [config_files.append(value)] *)
Definition append_config_file (value : string) (st : found) : found :=
  {| klipper_uds := klipper_uds st; moonraker_port := moonraker_port st;
     klipper_api_key := klipper_api_key st; moonraker_api_key := moonraker_api_key st;
     logged := logged st; config_files := config_files st ++ [value] |}.

Definition nothing_found (config_files : list string) : found :=
  {| klipper_uds := None; moonraker_port := None;
     klipper_api_key := None; moonraker_api_key := None;
     logged := []; config_files := config_files |}.

Section Machine.
Context {os : PyOs} (sys : system).

(** *** [find_processes_and_config_files] *)

(** The klipper branch, for one argument. *)
Definition klipper_arg (arg : string) : list string :=
  if endswith arg ".cfg" then
    let config_dir := os_path_dirname arg in
    let moonraker_conf := os_path_join config_dir "moonraker.conf" in
    let mainsail_conf := os_path_join config_dir "mainsail.conf" in
    [arg]
    ++ (if os_path_exists sys moonraker_conf then [moonraker_conf] else [])
    ++ (if os_path_exists sys mainsail_conf then [mainsail_conf] else [])
  else [].

(** The moonraker branch, for one argument. *)
Definition moonraker_arg (arg : string) : list string :=
  if startswith arg "-d" then
    let config_dir := str_strip (from_2 arg) in
    let moonraker_conf := os_path_join config_dir "moonraker.conf" in
    if os_path_exists sys moonraker_conf then [moonraker_conf] else []
  else [].

(** The crowsnest branch, for one argument. *)
Definition crowsnest_arg (arg : string) : list string :=
  if endswith arg ".conf" then [arg] else [].

(** The [if]/[elif] chain on one command line: the name the process is
    listed under and the config files it adds, or [None] when no branch
    is taken. *)
Definition inspect (args : list string) : option (string * list string) :=
  let cmdline := String.concat " " args in
  if str_in "klippy.py" cmdline then Some ("klipper", flat_map klipper_arg args)
  else if str_in "moonraker" cmdline then Some ("moonraker", flat_map moonraker_arg args)
  else if str_in "fluidd" cmdline then Some ("fluidd", [])
  else if str_in "mainsail" cmdline then Some ("mainsail", [])
  else if str_in "crowsnest" cmdline then Some ("crowsnest", flat_map crowsnest_arg args)
  else if str_in "timelapse" cmdline then Some ("timelapse", [])
  else None.

(** The [for proc] loop; joining a command line that is [None] raises
    [TypeError]. *)
Fixpoint find_loop (procs : list proc) (processes : list (string * proc))
  (config_files : list string) : exn + (list (string * proc) * list string) :=
  match procs with
  | [] => inr (processes, config_files)
  | p :: rest =>
    match cmdline p with
    | None => inl TypeError
    | Some args =>
      match inspect args with
      | Some (name, files) =>
        find_loop rest (processes ++ [(name, p)]) (config_files ++ files)
      | None => find_loop rest processes config_files
      end
    end
  end.

Definition find_processes_and_config_files
  : exn + (list (string * proc) * list string) :=
  find_loop (process_iter sys) [] [].

(** *** [parse_config_files] *)

(** [for key, value in pairs: data[key] = value.strip()], or without
    the [strip] for the quoted pattern. *)
Definition read_pairs (strip : bool) (pairs : list (string * string))
  (data : dict string) : dict string :=
  fold_left
    (fun data kv => store (fst kv) (if strip then str_strip (snd kv) else snd kv) data)
    pairs data.

(** The dictionary of one file: the three patterns in turn, each
    writing over what is there. *)
Definition read_config (content : string) : dict string :=
  let data := read_pairs true (re_findall KeyEquals content) [] in
  let data := read_pairs true (re_findall KeyColon content) data in
  read_pairs false (re_findall KeyColonQuoted content) data.

(** The first loop: every file is opened and read; a file that cannot
    be ends the call with its exception. *)
Fixpoint load (config_files : list string) (config_data : dict (dict string))
  : exn + dict (dict string) :=
  match config_files with
  | [] => inr config_data
  | config_file :: rest =>
    match read_text sys config_file with
    | inl e => inl e
    | inr content => load rest (store config_file (read_config content) config_data)
    end
  end.

(** The socket keys of one file. *)
Definition scan_socket (config_file : string) (data : dict string) (st : found)
  : found :=
  let st :=
    match lookup "klippy_uds_address" data with
    | Some v =>
      debug ("Found Klipper Unix Domain Socket address in " ++ config_file ++ ": " ++ v)
        (set_klipper_uds v st)
    | None => st
    end in
  match lookup "unix_socket_path" data with
  | Some v =>
    debug ("Found Unix Domain Socket path in " ++ config_file ++ ": " ++ v)
      (set_klipper_uds v st)
  | None =>
    match lookup "socket_path" data with
    | Some v =>
      debug ("Found Unix Domain Socket path in " ++ config_file ++ ": " ++ v)
        (set_klipper_uds v st)
    | None => st
    end
  end.

(** The [api_key] of one file goes to the variable its file name
    selects, or nowhere. *)
Definition scan_api_key (config_file : string) (data : dict string) (st : found)
  : found :=
  match lookup "api_key" data with
  | Some v =>
    if endswith config_file "printer.cfg" then
      debug ("Found Klipper API key in " ++ config_file) (set_klipper_api_key v st)
    else if endswith config_file "moonraker.conf" then
      debug ("Found Moonraker API key in " ++ config_file) (set_moonraker_api_key v st)
    else st
  | None => st
  end.

Definition scan_port (config_file : string) (data : dict string) (st : found)
  : found :=
  match lookup "port" data with
  | Some v =>
    debug ("Found Moonraker port in " ++ config_file ++ ": " ++ v)
      (set_moonraker_port v st)
  | None =>
    match lookup "moonraker_port" data with
    | Some v =>
      debug ("Found Moonraker port in " ++ config_file ++ ": " ++ v)
        (set_moonraker_port v st)
    | None => st
    end
  end.

(** The inner [for key, value in data.items()] loop. *)
Definition scan_additional (config_file : string) (data : dict string) (st : found)
  : found :=
  fold_left
    (fun st kv =>
       let '(key, value) := kv in
       if endswith key "_config" && endswith value ".conf" then
         if os_path_exists sys value then
           debug ("Found additional config file in " ++ config_file ++ ": " ++ value)
             (append_config_file value st)
         else st
       else st)
    data st.

(** One pass of the second loop. *)
Definition scan_file (config_file : string) (data : dict string) (st : found)
  : found :=
  scan_additional config_file data
    (scan_port config_file data
       (scan_api_key config_file data
          (scan_socket config_file data st))).

(** The second loop, over [config_data.items()]. *)
Definition scan (config_data : dict (dict string)) (st : found) : found :=
  fold_left (fun st entry => scan_file (fst entry) (snd entry) st) config_data st.

Definition parse_config_files (config_files : list string) : exn + found :=
  match load config_files [] with
  | inl e => inl e
  | inr config_data => inr (scan config_data (nothing_found config_files))
  end.

End Machine.

End Discovery.

(** * A small JSON codec for worked examples

    The theorems below hold for every [PyLib].  Worked examples need
    one that computes: [MiniJson] writes and reads documents made of
    [null], booleans, integers, strings without escapes, arrays and
    objects, in the layout of [json.dumps] (separators [", "] and
    [": "]). *)
Module MiniJson.

Definition quote : string := String (ascii_of_nat 34) EmptyString.

Fixpoint join (sep : string) (parts : list string) : string :=
  match parts with
  | [] => EmptyString
  | [p] => p
  | p :: rest => (p ++ sep ++ join sep rest)%string
  end.

Fixpoint dumps (v : json) : string :=
  match v with
  | JNull => "null"
  | JBool b => if b then "true" else "false"
  | JInt z => string_of_Z z
  | JFloat _ => "NaN"
  | JStr s => (quote ++ s ++ quote)%string
  | JArr items => ("[" ++ join ", " (map dumps items) ++ "]")%string
  | JObj fields =>
    ("{" ++ join ", "
       (map (fun kv => let '(k, x) := kv in
                       (quote ++ k ++ quote ++ ": " ++ dumps x)%string) fields)
     ++ "}")%string
  end.

Definition is_ws (c : ascii) : bool :=
  match byte_of c with 32 | 9 | 10 | 13 => true | _ => false end.

Fixpoint skip_ws (s : string) : string :=
  match s with
  | String c r => if is_ws c then skip_ws r else s
  | EmptyString => EmptyString
  end.

Definition is_digit (c : ascii) : bool := in_range 48 57 c.

Fixpoint take_digits (s : string) (acc : Z) : Z * string :=
  match s with
  | String c r =>
    if is_digit c then take_digits r (10 * acc + Z.of_nat (byte_of c - 48))%Z
    else (acc, s)
  | EmptyString => (acc, EmptyString)
  end.

(** The text up to the closing quote; escapes are not read. *)
Fixpoint take_string (s : string) : option (string * string) :=
  match s with
  | EmptyString => None
  | String c r =>
    if (byte_of c =? 34)%nat then Some (EmptyString, r)
    else if (byte_of c =? 92)%nat then None
    else if (byte_of c <? 32)%nat then None
    else match take_string r with
         | Some (body, rest) => Some (String c body, rest)
         | None => None
         end
  end.

Definition starts_fraction (s : string) : bool :=
  match s with
  | String c _ =>
    match byte_of c with 46 | 69 | 101 => true | _ => false end
  | EmptyString => false
  end.

Definition parse_number (negative : bool) (s : string) : option (json * string) :=
  match s with
  | String c _ =>
    if is_digit c then
      let '(z, rest) := take_digits s 0%Z in
      if starts_fraction rest then None
      else Some (JInt (if negative then (- z)%Z else z), rest)
    else None
  | EmptyString => None
  end.

Definition literal (word : string) (v : json) (s : string) : option (json * string) :=
  if String.prefix word s
  then Some (v, String.substring (String.length word)
                  (String.length s - String.length word) s)
  else None.

(** A [dict] keeps one entry per key: the position of the first, the
    value of the last. *)
Fixpoint set_field (k : string) (v : json) (fields : list (string * json))
  : list (string * json) :=
  match fields with
  | [] => [(k, v)]
  | (k', v') :: rest =>
    if String.eqb k k' then (k, v) :: rest else (k', v') :: set_field k v rest
  end.

Section Containers.
Variable parse_value : string -> option (json * string).

Fixpoint parse_elements (fuel : nat) (s : string) (acc : list json)
  : option (json * string) :=
  match fuel with
  | O => None
  | S fuel' =>
    match parse_value s with
    | Some (v, r) =>
      match skip_ws r with
      | String c r' =>
        if (byte_of c =? 44)%nat then parse_elements fuel' (skip_ws r') (v :: acc)
        else if (byte_of c =? 93)%nat then Some (JArr (rev (v :: acc)), r')
        else None
      | EmptyString => None
      end
    | None => None
    end
  end.

Fixpoint parse_members (fuel : nat) (s : string) (acc : list (string * json))
  : option (json * string) :=
  match fuel with
  | O => None
  | S fuel' =>
    match s with
    | String q r =>
      if (byte_of q =? 34)%nat then
        match take_string r with
        | Some (k, r1) =>
          match skip_ws r1 with
          | String colon r2 =>
            if (byte_of colon =? 58)%nat then
              match parse_value (skip_ws r2) with
              | Some (v, r3) =>
                match skip_ws r3 with
                | String c r4 =>
                  if (byte_of c =? 44)%nat
                  then parse_members fuel' (skip_ws r4) (set_field k v acc)
                  else if (byte_of c =? 125)%nat
                  then Some (JObj (set_field k v acc), r4)
                  else None
                | EmptyString => None
                end
              | None => None
              end
            else None
          | EmptyString => None
          end
        | None => None
        end
      else None
    | EmptyString => None
    end
  end.
End Containers.

Fixpoint parse_value (fuel : nat) (s : string) : option (json * string) :=
  match fuel with
  | O => None
  | S fuel' =>
    match s with
    | EmptyString => None
    | String c r =>
      match byte_of c with
      | 123 =>
        match skip_ws r with
        | String c' r' =>
          if (byte_of c' =? 125)%nat then Some (JObj [], r')
          else parse_members (parse_value fuel') (String.length s) (skip_ws r) []
        | EmptyString => None
        end
      | 91 =>
        match skip_ws r with
        | String c' r' =>
          if (byte_of c' =? 93)%nat then Some (JArr [], r')
          else parse_elements (parse_value fuel') (String.length s) (skip_ws r) []
        | EmptyString => None
        end
      | 34 =>
        match take_string r with
        | Some (body, rest) => Some (JStr body, rest)
        | None => None
        end
      | 45 => parse_number true r
      | 110 => literal "null" JNull s
      | 116 => literal "true" (JBool true) s
      | 102 => literal "false" (JBool false) s
      | _ => parse_number false s
      end
    end
  end.

Definition loads (text : string) : option json :=
  match parse_value (S (String.length text)) (skip_ws text) with
  | Some (v, rest) =>
    match skip_ws rest with
    | EmptyString => Some v
    | _ => None
    end
  | None => None
  end.

#[export] Instance lib : PyLib := {|
  json_dumps := dumps;
  json_loads := loads;
  format_float_2f := fun _ => "nan";
  format_bigint_2f := fun _ => inl OverflowError
|}.

End MiniJson.

(** * A small runtime and machine for worked examples

    [MiniOs] has the POSIX [dirname] and [join], [strip] for ASCII white
    space, and answers [re.findall] on the two config files of the
    example machine. *)
Module MiniOs.

Definition is_space (c : ascii) : bool :=
  match byte_of c with 32 | 9 | 10 | 11 | 12 | 13 => true | _ => false end.

Fixpoint lstrip (s : string) : string :=
  match s with
  | String c r => if is_space c then lstrip r else s
  | EmptyString => EmptyString
  end.

Fixpoint rstrip (s : string) : string :=
  match s with
  | EmptyString => EmptyString
  | String c r =>
    match rstrip r with
    | EmptyString => if is_space c then EmptyString else String c EmptyString
    | r' => String c r'
    end
  end.

(** [s.strip()] for ASCII white space. *)
Definition strip (s : string) : string := rstrip (lstrip s).

Definition is_slash (c : ascii) : bool := (byte_of c =? 47)%nat.

(** [p[:p.rfind('/') + 1]] *)
Fixpoint head_of (p : string) : string :=
  match p with
  | EmptyString => EmptyString
  | String c r =>
    match head_of r with
    | EmptyString => if is_slash c then String c EmptyString else EmptyString
    | h => String c h
    end
  end.

Fixpoint all_slashes (s : string) : bool :=
  match s with
  | EmptyString => true
  | String c r => is_slash c && all_slashes r
  end.

Fixpoint rstrip_slashes (s : string) : string :=
  match s with
  | EmptyString => EmptyString
  | String c r =>
    match rstrip_slashes r with
    | EmptyString => if is_slash c then EmptyString else String c EmptyString
    | r' => String c r'
    end
  end.

(** [posixpath.dirname] *)
Definition dirname (p : string) : string :=
  let head := head_of p in
  if all_slashes head then head else rstrip_slashes head.

(** [posixpath.join] of two parts *)
Definition join (a b : string) : string :=
  if Discovery.startswith b "/" then b
  else if negb (nonempty a) || Discovery.endswith a "/" then (a ++ b)%string
  else (a ++ "/" ++ b)%string.

(** The two config files of the example machine. *)
Definition printer_cfg : string := "/home/pi/printer_data/config/printer.cfg".
Definition moonraker_conf : string := "/home/pi/printer_data/config/moonraker.conf".

Definition printer_cfg_text : string :=
  "kinematics: cartesian" ++ newline ++ "api_key: k3y" ++ newline.
Definition moonraker_conf_text : string :=
  "klippy_uds_address: /tmp/klippy_uds" ++ newline ++ "port: 7125" ++ newline.

(** What [re.findall] answers on the two texts: neither has a [=] or a
    quoted value, so only the [key: value] pattern finds pairs. *)
Definition findall (p : Discovery.pattern) (content : string)
  : list (string * string) :=
  match p with
  | Discovery.KeyColon =>
    if String.eqb content printer_cfg_text
    then [("kinematics", "cartesian"); ("api_key", "k3y")]
    else if String.eqb content moonraker_conf_text
    then [("klippy_uds_address", "/tmp/klippy_uds"); ("port", "7125")]
    else []
  | _ => []
  end.

#[export] Instance os : Discovery.PyOs := {|
  Discovery.str_strip := strip;
  Discovery.os_path_dirname := dirname;
  Discovery.os_path_join := join;
  Discovery.re_findall := findall
|}.

Definition init : Discovery.proc :=
  {| Discovery.pid := 1; Discovery.cmdline := Some ["/sbin/init"] |}.

Definition klippy : Discovery.proc :=
  {| Discovery.pid := 812;
     Discovery.cmdline :=
       Some ["python"; "/home/pi/klipper/klippy/klippy.py"; printer_cfg] |}.

Definition moonraker : Discovery.proc :=
  {| Discovery.pid := 830;
     Discovery.cmdline :=
       Some ["python"; "/home/pi/moonraker/moonraker/moonraker.py";
             "-d"; "/home/pi/printer_data"] |}.

(** A process whose command line psutil could not read. *)
Definition defunct : Discovery.proc :=
  {| Discovery.pid := 77; Discovery.cmdline := None |}.

Definition files (path : string) : exn + string :=
  if String.eqb path printer_cfg then inr printer_cfg_text
  else if String.eqb path moonraker_conf then inr moonraker_conf_text
  else inl (OSError 2).

Definition machine (table : list Discovery.proc) : Discovery.system :=
  {| Discovery.process_iter := table;
     Discovery.os_path_exists := fun path =>
       String.eqb path printer_cfg || String.eqb path moonraker_conf;
     Discovery.read_text := files |}.

(** A printer host, and a machine on which nothing of Klipper runs. *)
Definition printer_host : Discovery.system := machine [init; klippy; moonraker].
Definition bare_host : Discovery.system := machine [init].

End MiniOs.

(** * Vocabulary of the statements and worked scenarios *)

Definition etx : string := String ETX EmptyString.

(** The bytes a list of chunks delivers. *)
Definition bytes_of (chunks : list string) : string :=
  fold_right String.append EmptyString chunks.

(** A stream whose successive reads return [chunks]. *)
Definition arriving (chunks : list string) : list read_event := map Data chunks.

(** [chunks] cuts the frame of [text], and nothing else, into non-empty
    reads. *)
Definition cuts (chunks : list string) (text : string) : Prop :=
  Forall (fun c => nonempty c = true) chunks /\
  bytes_of chunks = (text ++ etx)%string.

Module TwoFrames.
Definition v0 : json := JObj [("id", JInt 1)].
Definition w0 : json := JObj [("id", JInt 2)].
(** Both frames arrive in one read. *)
Definition one_read : list string :=
  [(@frame MiniJson.lib v0 ++ @frame MiniJson.lib w0)%string].
(** The same bytes, cut at the frame boundary and inside the frames. *)
Definition cut_first : list string :=
  ["{"; MiniJson.quote; "id"; (MiniJson.quote ++ ": 1}" ++ etx)%string].
Definition cut_second : list string :=
  [("{" ++ MiniJson.quote ++ "id")%string; (MiniJson.quote ++ ": 2}" ++ etx)%string].
End TwoFrames.

(** Two calls on a stream that delivers [chunks] yield the documents
    [v] and [w], in this order. *)
Definition delivers_both {lib : PyLib} (chunks : list string) (v w : json) : Prop :=
  exists t n',
    Async.two_documents (on_stream (arriving chunks)) = (t, n', Normal (v, w)).

(** The frames written to the socket, in order. *)
Fixpoint sent (t : trace) : list string :=
  match t with
  | [] => []
  | ESend data :: rest => data :: sent rest
  | _ :: rest => sent rest
  end.

(** How many times a connection was attempted. *)
Fixpoint connects (t : trace) : nat :=
  match t with
  | [] => 0
  | EConnect _ :: rest => S (connects rest)
  | _ :: rest => connects rest
  end.

(** The sleeps, in order. *)
Fixpoint sleeps (t : trace) : list Q :=
  match t with
  | [] => []
  | ESleep d :: rest => d :: sleeps rest
  | _ :: rest => sleeps rest
  end.

(** The events of endpoint resolution. *)
Definition is_resolution (ev : event) : bool :=
  match ev with
  | EFindProcesses | EParseConfigFiles | ECheckSystemd _ => true
  | _ => false
  end.

(** How many times the endpoint was resolved from the configuration. *)
Fixpoint resolutions (t : trace) : nat :=
  match t with
  | [] => 0
  | EParseConfigFiles :: rest => S (resolutions rest)
  | _ :: rest => resolutions rest
  end.

Definition trace_of {A : Type} (x : trace * net * outcome A) : trace := fst (fst x).
Definition net_of {A : Type} (x : trace * net * outcome A) : net := snd (fst x).
Definition outcome_of {A : Type} (x : trace * net * outcome A) : outcome A := snd x.

(** Every event a computation emits satisfies [P], from any state. *)
Definition emits_only {A : Type} (P : event -> Prop) (m : Py A) : Prop :=
  forall n, Forall P (trace_of (m n)).

(** [m2] does what [m1] does, except where [m1] ran out of fuel. *)
Definition extends {A : Type} (m1 m2 : Py A) : Prop :=
  forall n, m1 n = m2 n \/ outcome_of (m1 n) = OutOfFuel.

(** A pass of the attempt loop that is followed by the next one (or by
    the terminal failure): pass [i] announces itself as attempt [i + 1],
    connects to [uds], does nothing that [quiet] excludes, and ends by
    sleeping [delay].  In the asyncio client every pass that finishes
    has this shape, a pass that printed updates included. *)
Definition failed_attempt (quiet : event -> Prop) (uds : string)
  (max_attempts : nat) (delay : Q) (i : nat) (t : trace) : Prop :=
  exists body,
    t = ELog LvlDebug (AttemptMsg uds (i + 1) max_attempts) :: EConnect uds
        :: body ++ [ESleep delay]
    /\ Forall quiet body.

(** The pass of the blocking client that ends in [return]: it closes
    the socket and does not sleep. *)
Definition successful_attempt (quiet : event -> Prop) (uds : string)
  (max_attempts : nat) (i : nat) (t : trace) : Prop :=
  exists body,
    t = ELog LvlDebug (AttemptMsg uds (i + 1) max_attempts) :: EConnect uds
        :: body ++ [EClose]
    /\ Forall quiet body.

(** A pass that began and did not finish: pass [i] announced itself
    and connected to [uds], and the trace ends with what it emitted
    then. *)
Definition unfinished_attempt (quiet : event -> Prop) (uds : string)
  (max_attempts : nat) (i : nat) (t : trace) : Prop :=
  exists body,
    t = ELog LvlDebug (AttemptMsg uds (i + 1) max_attempts) :: EConnect uds :: body
    /\ Forall quiet body.

Definition not_resolution (ev : event) : Prop := is_resolution ev = false.

Definition found_lines (w : world) (line : process -> msg) : trace :=
  ELog LvlDebug (Text "Found processes:")
  :: map (fun p => ELog LvlDebug (line p)) (processes w)
  ++ ELog LvlDebug (Text (newline ++ "Found config files:")%string)
  :: map (fun f => ELog LvlDebug (TextStr "- " f)) (config_files w).

(** What [resolve] emits in either client. *)
Definition resolution_trace (w : world) (line : process -> msg) : trace :=
  EFindProcesses :: found_lines w line ++ [EParseConfigFiles].

(** * Worked scenarios *)
Module Scenario.

Definition uds0 : string := "/tmp/klippy_uds".

Definition wire (v : json) : string := @frame MiniJson.lib v.

Definition list_reply : json :=
  JObj [("id", JInt 123);
        ("result", JObj [("objects", JArr [JStr "toolhead"; JStr "print_stats"])])].

Definition notification : json :=
  JObj [("method", JStr "notify_status_update");
        ("params",
         JObj [("status",
                JObj [("toolhead", JObj [("position", JArr [JInt 1; JInt 2; JInt 3])])])])].

Definition error_reply : json :=
  JObj [("id", JInt 1); ("error", JObj [("message", JStr "x")])].

Definition status_reply : json :=
  JObj [("id", JInt 1);
        ("result",
         JObj [("status",
                JObj [("toolhead", JObj [("position", JArr [JInt 10; JInt 20; JInt 5])]);
                      ("print_stats", JObj [("state", JStr "printing")])])])].

Definition world_of (cs : list conn) : world :=
  {| processes := [{| p_name := "klipper"; p_pid := 812;
                      p_cmdline := "python klippy.py printer.cfg" |}];
     config_files := ["printer.cfg"];
     klipper_uds := Some uds0;
     klipper_api_key := None;
     conns := cs |}.

Definition speaking (rd : list read_event) : conn :=
  {| connect_error := None; sends := []; reads := rd |}.

Definition refusing : conn :=
  {| connect_error := Some (OSError ECONNREFUSED); sends := []; reads := [] |}.

(** Nothing listens on the socket path. *)
Definition world_refusing : world := world_of [refusing; refusing; refusing].

(** The first connection answers the listing, pushes one update and
    then a frame that is not JSON; nothing listens afterwards. *)
Definition world_one_update : world :=
  world_of [speaking [Data (wire list_reply); Data (wire notification);
                      Data ("oops" ++ etx)%string]].

(** After the listing the peer pushes three updates and closes. *)
Definition three_updates : list read_event :=
  [Data (wire notification); Data (wire notification); Data (wire notification)].

(** A notification arrives before the reply to the listing. *)
Definition world_notification_first : world :=
  world_of [speaking [Data (wire notification); Data (wire list_reply)]].

(** The blocking client reads until the peer falls silent: the listing
    is answered, then the status query is answered with an error. *)
Definition world_query_error : world :=
  world_of [speaking [Data (wire list_reply); ReadRaises SocketTimeout;
                      Data (wire error_reply); ReadRaises SocketTimeout]].

(** The listing and the status query are both answered. *)
Definition world_answering : world :=
  world_of [speaking [Data (wire list_reply); ReadRaises SocketTimeout;
                      Data (wire status_reply); ReadRaises SocketTimeout]].

(** The listing itself is answered with an error. *)
Definition world_listing_error : world :=
  world_of [speaking [Data (wire (JObj [("id", JInt 123);
                                        ("error", JObj [("message", JStr "x")])]))]].

(** A reply to the listing that carries another request's id. *)
Definition foreign_reply : json :=
  JObj [("id", JInt 999);
        ("result", JObj [("objects", JArr [JStr "toolhead"])])].

(** A reply to the status query that carries an [error] member
    beside its [result]. *)
Definition error_with_result : json :=
  JObj [("id", JInt 1);
        ("error", JObj [("message", JStr "x")]);
        ("result",
         JObj [("status",
                JObj [("toolhead", JObj [("position", JArr [JInt 10; JInt 20; JInt 5])]);
                      ("print_stats", JObj [("state", JStr "printing")])])])].

(** The listing is answered, the peer falls silent until the read
    times out, and the status query is answered with a reply that has
    both [error] and [result]. *)
Definition world_error_with_result : world :=
  world_of [speaking [Data (wire list_reply); Stalls;
                      Data (wire error_with_result); Stalls]].

(** A reply to the listing with both members. *)
Definition listing_error_with_result : json :=
  JObj [("id", JInt 123);
        ("error", JObj [("message", JStr "x")]);
        ("result", JObj [("objects", JArr [JStr "toolhead"])])].

(** A peer that accepts every connection and sends nothing. *)
Definition world_stalling : world :=
  world_of [speaking [Stalls]; speaking [Stalls]; speaking [Stalls]].

(** The first pass of each client in a world. *)
Definition async_first_pass (fuel : nat) (w : world) : trace * net * outcome unit :=
  @Async.attempt_once MiniJson.lib fuel uds0 3 2 0 (initial_net w).

Definition blocking_first_pass (w : world) : trace * net * outcome Blocking.flow :=
  @Blocking.attempt_once MiniJson.lib uds0 None 3 2 0 (initial_net w).

End Scenario.

(** The computation has ended: it returned or raised. *)
Definition ended {A : Type} (r : outcome A) : Prop :=
  match r with Normal _ | Raised _ => True | OutOfFuel | Hangs => False end.

Definition terminates {A : Type} (m : Py A) : Prop :=
  forall n, ended (outcome_of (m n)).

Definition returns_only {A : Type} (good : A -> Prop) (m : Py A) : Prop :=
  forall n a, outcome_of (m n) = Normal a -> good a.

Definition not_continue (how : Blocking.flow) : Prop := how <> Blocking.Continue.

(** What the blocking client emits before its attempt loop. *)
Definition blocking_prelude (w : world) : trace :=
  resolution_trace w ProcessMsg
  ++ ELog LvlDebug (Text (newline ++ "Checking systemd service configurations:")%string)
  :: map (fun p => ECheckSystemd (p_name p)) (processes w).

(** [connect] on this connection raises [ConnectionRefusedError]. *)
Definition refuses (c : conn) : Prop :=
  connect_error c = Some (OSError ECONNREFUSED).

(** One pass of the asyncio client against a refusing endpoint. *)
Definition async_refused_pass (uds : string) (max_attempts : nat) (delay : Q)
  (attempt : nat) : trace :=
  [ELog LvlDebug (AttemptMsg uds (attempt + 1) max_attempts);
   EConnect uds;
   ELog LvlError (TextExn "Error: " (OSError ECONNREFUSED));
   ESleep delay].

(** One pass of the blocking client against a refusing endpoint: the
    handler of the failed [connect] trips over the unbound name [errno],
    and the [NameError] is what the outer handler logs. *)
Definition blocking_refused_pass (uds : string) (max_attempts : nat) (delay : Q)
  (attempt : nat) : trace :=
  [ELog LvlDebug (AttemptMsg uds (attempt + 1) max_attempts);
   EConnect uds;
   ELog LvlError (TextExn "Error: " NameError);
   EClose;
   ESleep delay].

(** The state of the sockets once [connect] has taken script [c]. *)
Definition connected (c : conn) (rest : list conn) : net :=
  {| sends_left := sends c; reads_left := reads c; pending := rest |}.

(** The text logged when the listing's reply has no [result]. *)
Definition listing_error_line (data : json) : msg :=
  match py_get data "error" (JStr "Unknown error") with
  | inr err => TextJson "Error in objects/list: " err
  | inl e => TextExn "Error: " e
  end.

(** The line the handlers of a pass log for an exception they catch. *)
Definition failure_line (e : exn) : msg :=
  if is_parse_error e then TextExn "Error: Unable to parse response: " e
  else TextExn "Error: " e.

(** Where the blocking [receive_response] stops reading: at the end of
    the stream, at a [socket.error] of [recv], or when the peer sends
    nothing until the timeout.  [later] is what is left to read. *)
Definition ends_reply (stop later : list read_event) : Prop :=
  (stop = [] /\ later = [])
  \/ stop = Data EmptyString :: later
  \/ stop = Stalls :: later
  \/ exists e, is_socket_error e = true /\ stop = ReadRaises e :: later.

(** The reply a pass works with is the one it logs as parsed. *)
Definition uses_reply (t : trace) (data : json) : Prop :=
  In (ELog LvlDebug (TextJson "Parsed response: " data)) t.

(** The frame [text] is an update that prints [line]: it parses to an
    object whose [params] hold a [status] that [print_printer_status]
    prints as [line]. *)
Definition prints_status {lib : PyLib} (text line : string) : Prop :=
  nonempty text = true /\
  exists data params status,
    json_loads text = Some data /\
    py_in "params" data = inr true /\
    py_getitem data "params" = inr params /\
    py_getitem params "status" = inr status /\
    forall n, Async.print_printer_status status n = ([EPrint (Text line)], n, Normal tt).

(** An update as it arrives: its reads, its text and the line it
    prints. *)
Record update : Type := { u_chunks : list string; u_text : string; u_line : string }.

Definition well_framed {lib : PyLib} (u : update) : Prop :=
  cuts (u_chunks u) (u_text u) /\
  contains_etx (u_text u) = false /\
  utf8_valid (u_text u) = true /\
  prints_status (u_text u) (u_line u).

(** The reads of a peer that pushes [updates] and then closes. *)
Definition pushed (updates : list update) : list read_event :=
  flat_map (fun u => arriving (u_chunks u)) updates.

(** The notification of the specification's scenario, in a read of its
    own. *)
Definition pushed_notification : update :=
  {| u_chunks := [Scenario.wire Scenario.notification];
     u_text := MiniJson.dumps Scenario.notification;
     u_line := "Toolhead Position: X=1.00, Y=2.00, Z=3.00" |}.

(** * Vocabulary of the further properties *)

(** ** Endpoint discovery *)

(** The words [find_processes_and_config_files] looks for in a command
    line, in the order of its [if]/[elif] chain, each with the name the
    process is listed under. *)
Definition words : list (string * string) :=
  [("klippy.py", "klipper"); ("moonraker", "moonraker"); ("fluidd", "fluidd");
   ("mainsail", "mainsail"); ("crowsnest", "crowsnest"); ("timelapse", "timelapse")].

(** The name of the first word that occurs in [cmdline]. *)
Definition name_of (cmdline : string) : option string :=
  option_map snd (find (fun word => Discovery.str_in (fst word) cmdline) words).

(** The process has a command line in which one of the words occurs. *)
Definition listed (p : Discovery.proc) : bool :=
  match Discovery.cmdline p with
  | Some args =>
    match name_of (String.concat " " args) with Some _ => true | None => false end
  | None => false
  end.

(** What one process adds to the list of processes. *)
Definition entry_of {os : Discovery.PyOs} (sys : Discovery.system)
  (p : Discovery.proc) : list (string * Discovery.proc) :=
  match Discovery.cmdline p with
  | Some args =>
    match Discovery.inspect sys args with
    | Some (name, _) => [(name, p)]
    | None => []
    end
  | None => []
  end.

(** What one process adds to the list of config files. *)
Definition files_of {os : Discovery.PyOs} (sys : Discovery.system)
  (p : Discovery.proc) : list string :=
  match Discovery.cmdline p with
  | Some args =>
    match Discovery.inspect sys args with
    | Some (_, files) => files
    | None => []
    end
  | None => []
  end.

(** The last value paired with [k], if any. *)
Definition last_of (k : string) (pairs : list (string * string)) : option string :=
  fold_left (fun acc kv => if String.eqb k (fst kv) then Some (snd kv) else acc)
    pairs None.

(** The last element of [xs] on which [f] answers, if any. *)
Definition last_some {A B : Type} (f : A -> option B) (xs : list A) : option B :=
  fold_left (fun acc x => match f x with Some v => Some v | None => acc end) xs None.

(** The socket path one file's dictionary gives: [unix_socket_path]
    before [socket_path] before [klippy_uds_address]. *)
Definition socket_of (data : Discovery.dict string) : option string :=
  match Discovery.lookup "unix_socket_path" data with
  | Some v => Some v
  | None =>
    match Discovery.lookup "socket_path" data with
    | Some v => Some v
    | None => Discovery.lookup "klippy_uds_address" data
    end
  end.

(** The Klipper API key one file gives: its [api_key], when the name of
    the file ends in [printer.cfg]. *)
Definition klipper_key_of (config_file : string) (data : Discovery.dict string)
  : option string :=
  if Discovery.endswith config_file "printer.cfg"
  then Discovery.lookup "api_key" data
  else None.

(** The Moonraker API key one file gives: its [api_key], when the name
    of the file ends in [moonraker.conf] and not in [printer.cfg]. *)
Definition moonraker_key_of (config_file : string) (data : Discovery.dict string)
  : option string :=
  if Discovery.endswith config_file "printer.cfg" then None
  else if Discovery.endswith config_file "moonraker.conf"
       then Discovery.lookup "api_key" data
       else None.

(** The text of a file that can be read. *)
Definition content_of (sys : Discovery.system) (path : string) : string :=
  match Discovery.read_text sys path with
  | inr content => content
  | inl _ => EmptyString
  end.

Definition readable (sys : Discovery.system) (path : string) : Prop :=
  exists content, Discovery.read_text sys path = inr content.

(** The four values [parse_config_files] returns. *)
Definition settings_of (st : Discovery.found)
  : option string * option string * option string * option string :=
  (Discovery.klipper_uds st, Discovery.moonraker_port st,
   Discovery.klipper_api_key st, Discovery.moonraker_api_key st).

Definition keys {V : Type} (d : Discovery.dict V) : list string := map fst d.

(** The dictionary the first loop of [parse_config_files] builds from
    files that can all be read. *)
Definition loaded {os : Discovery.PyOs} (sys : Discovery.system)
  (config_files : list string) (config_data : Discovery.dict (Discovery.dict string))
  : Discovery.dict (Discovery.dict string) :=
  fold_left
    (fun config_data config_file =>
       Discovery.store config_file (Discovery.read_config (content_of sys config_file))
         config_data)
    config_files config_data.

(** Every entry holds the dictionary of the file it is named after. *)
Definition faithful {os : Discovery.PyOs} (sys : Discovery.system)
  (config_data : Discovery.dict (Discovery.dict string)) : Prop :=
  Forall (fun entry => snd entry = Discovery.read_config (content_of sys (fst entry)))
    config_data.

(** The process as [get_printer_status] logs it. *)
Definition as_process (entry : string * Discovery.proc) : process :=
  {| p_name := fst entry;
     p_pid := Discovery.pid (snd entry);
     p_cmdline :=
       match Discovery.cmdline (snd entry) with
       | Some args => String.concat " " args
       | None => EmptyString
       end |}.

(** What the first lines of [get_printer_status] find on a machine: the
    [world] its attempt loop then runs in, with [cs] the connections
    the peer will offer. *)
Definition discovered {os : Discovery.PyOs} (sys : Discovery.system)
  (cs : list conn) : exn + world :=
  match Discovery.find_processes_and_config_files sys with
  | inl e => inl e
  | inr (found_processes, found_files) =>
    match Discovery.parse_config_files sys found_files with
    | inl e => inl e
    | inr st =>
      inr {| processes := map as_process found_processes;
             config_files := found_files;
             klipper_uds := Discovery.klipper_uds st;
             klipper_api_key := Discovery.klipper_api_key st;
             conns := cs |}
    end
  end.

Definition no_socket_error : event :=
  ELog LvlError (Text "Error: Could not find Unix Domain Socket path.").

(** ** Traces of the two clients *)

(** After the events [pre], whatever the state of the sockets, [m]
    leaves a trace and an outcome that satisfy [Q]. *)
Definition ensures {A : Type} (m : Py A) (pre : trace)
  (Q : trace -> outcome A -> Prop) : Prop :=
  forall n, Q (pre ++ trace_of (m n)) (outcome_of (m n)).

(** How many sockets were closed. *)
Fixpoint closes (t : trace) : nat :=
  match t with
  | [] => 0
  | EClose :: rest => S (closes rest)
  | _ :: rest => closes rest
  end.

(** The two lines the blocking client prints for a status. *)
Definition is_status_line (ev : event) : bool :=
  match ev with
  | EPrint (PositionMsg _ _ _) => true
  | EPrint (TextJson prefix _) => String.eqb prefix "Print State: "
  | _ => false
  end.

Definition no_status_line (ev : event) : Prop := is_status_line ev = false.

Definition is_send (ev : event) : bool :=
  match ev with ESend _ => true | _ => false end.

Definition no_send (ev : event) : Prop := is_send ev = false.

(** [t] is [whole] or a beginning of it. *)
Definition begins {A : Type} (whole t : list A) : Prop :=
  exists k, t = firstn k whole.

(** What a pass of the blocking client emits when both requests are
    answered with a result. *)
Definition blocking_status_pass {lib : PyLib} (uds : string)
  (klipper_api_key : option string) (max_attempts attempt : nat)
  (response1 response2 : string) (objects x y z state : json) : trace :=
  [ELog LvlDebug (AttemptMsg uds (attempt + 1) max_attempts);
   EConnect uds;
   ELog LvlDebug (Text "Connected to Unix Domain Socket");
   ESend (frame Blocking.list_request);
   ELog LvlDebug (Text "Sent JSON-RPC request for objects/list");
   ELog LvlDebug (TextStr "Received response: " response1);
   ELog LvlDebug (Text "API request succeeded");
   EPrint (TextJson "Available objects: " objects);
   ESend (frame (Blocking.query_request klipper_api_key));
   ELog LvlDebug (Text "Sent JSON-RPC request for toolhead and print_stats");
   ELog LvlDebug (TextStr "Received response: " response2);
   EPrint (PositionMsg x y z);
   EPrint (TextJson "Print State: " state);
   EClose].

(** What a pass emits against a peer that accepts the connection and
    closes it without a word: the asyncio client sees no response, the
    blocking client fails to parse the empty text. *)
Definition async_silent_pass {lib : PyLib} (uds : string) (max_attempts : nat)
  (delay : Q) (attempt : nat) : trace :=
  [ELog LvlDebug (AttemptMsg uds (attempt + 1) max_attempts);
   EConnect uds;
   ELog LvlDebug (Text "Connected to Unix Domain Socket");
   ESend (frame Async.list_request);
   ELog LvlDebug (TextStr "Received response: " EmptyString);
   ELog LvlError (Text "No response received");
   ESleep delay].

Definition blocking_silent_pass {lib : PyLib} (uds : string) (max_attempts : nat)
  (delay : Q) (attempt : nat) : trace :=
  [ELog LvlDebug (AttemptMsg uds (attempt + 1) max_attempts);
   EConnect uds;
   ELog LvlDebug (Text "Connected to Unix Domain Socket");
   ESend (frame Blocking.list_request);
   ELog LvlDebug (Text "Sent JSON-RPC request for objects/list");
   ELog LvlDebug (TextStr "Received response: " EmptyString);
   ELog LvlError (TextExn "Error: Unable to parse response: " JSONDecodeError);
   EClose;
   ESleep delay].

(** * Supporting lemmas *)

(** ** Framing *)

Lemma append_assoc (a b c : string) :
  ((a ++ b) ++ c = a ++ (b ++ c))%string.
Proof. induction a as [|x a IH]; simpl; [reflexivity | now rewrite IH]. Qed.

Lemma append_empty_r (a : string) : (a ++ "")%string = a.
Proof. induction a as [|x a IH]; simpl; [reflexivity | now rewrite IH]. Qed.

Lemma contains_etx_app (a b : string) :
  contains_etx (a ++ b) = contains_etx a || contains_etx b.
Proof.
  induction a as [|x a IH]; simpl; [reflexivity|].
  destruct (Ascii.eqb x ETX); [reflexivity | exact IH].
Qed.

Lemma before_etx_frame (s r : string) :
  contains_etx s = false -> before_etx (s ++ String ETX r) = s.
Proof.
  induction s as [|x s IH]; simpl.
  - reflexivity.
  - destruct (Ascii.eqb x ETX); [discriminate|].
    intros H. now rewrite IH.
Qed.

Lemma before_etx_plain (s : string) :
  contains_etx s = false -> before_etx s = s.
Proof.
  induction s as [|x s IH]; simpl; [reflexivity|].
  destruct (Ascii.eqb x ETX); [discriminate|].
  intros H. now rewrite IH.
Qed.

(** A chunk that starts the frame of [s] either ends it or is a proper
    piece of [s]. *)
Lemma chunk_of_frame (c rest s : string) :
  (c ++ rest = s ++ etx)%string ->
  contains_etx s = false ->
  if contains_etx c
  then c = (s ++ etx)%string /\ rest = EmptyString
  else exists s', s = (c ++ s')%string /\ rest = (s' ++ etx)%string.
Proof.
  revert s. induction c as [|x c IH]; intros s E Hs; simpl in *.
  - exists s. split; [reflexivity | exact E].
  - destruct s as [|y s]; simpl in *.
    + unfold etx in E. injection E as Ex Ec. subst x.
      rewrite Ascii.eqb_refl.
      destruct c; simpl in Ec; [|discriminate]. subst rest. now split.
    + injection E as Ex Ec. subst y.
      destruct (Ascii.eqb x ETX) eqn:Hx; [discriminate|].
      specialize (IH s Ec Hs).
      destruct (contains_etx c).
      * destruct IH as [-> ->]. now split.
      * destruct IH as [s' [-> ->]]. now exists s'.
Qed.

Lemma bytes_of_nonempty (chunks : list string) :
  Forall (fun c => nonempty c = true) chunks ->
  bytes_of chunks = EmptyString -> chunks = [].
Proof.
  destruct chunks as [|c cs]; [reflexivity|].
  intros H E. inversion H as [|? ? Hc _]; subst.
  destruct c; [discriminate Hc | discriminate E].
Qed.

Lemma lstrip_no_etx (s : string) :
  contains_etx s = false -> lstrip_etx s = s.
Proof.
  destruct s as [|x s]; simpl; [reflexivity|].
  now destruct (Ascii.eqb x ETX).
Qed.

Lemma rstrip_frame (s : string) :
  contains_etx s = false -> rstrip_etx (s ++ etx) = s.
Proof.
  induction s as [|x s IH]; simpl.
  - reflexivity.
  - destruct (Ascii.eqb x ETX) eqn:Hx; [discriminate|].
    intros H. rewrite (IH H). now destruct s.
Qed.

Lemma strip_frame (s : string) :
  contains_etx s = false -> strip_etx (s ++ etx) = s.
Proof.
  intros H. unfold strip_etx. destruct s as [|x s]; [reflexivity|].
  assert (Hl : lstrip_etx (String x s ++ etx) = (String x s ++ etx)%string).
  { simpl in *. now destruct (Ascii.eqb x ETX). }
  rewrite Hl. now apply rstrip_frame.
Qed.

Lemma read_loop_frame (chunks : list string) :
  forall (acc s : string) (later : list read_event),
  cuts chunks s ->
  contains_etx acc = false ->
  contains_etx s = false ->
  Async.read_loop (arriving chunks ++ later) acc
  = ([], later, Normal (acc ++ s ++ etx)%string).
Proof.
  induction chunks as [|c cs IH]; intros acc s later [Hne Hb] Hacc Hs.
  - simpl in Hb. destruct s; discriminate Hb.
  - inversion Hne as [|? ? Hc Hcs]; subst.
    simpl in Hb. simpl. rewrite Hc.
    pose proof (chunk_of_frame c (bytes_of cs) s Hb Hs) as Hsplit.
    rewrite contains_etx_app, Hacc. simpl.
    destruct (contains_etx c).
    + destruct Hsplit as [-> Hrest].
      rewrite (bytes_of_nonempty cs Hcs Hrest). reflexivity.
    + destruct Hsplit as [s' [-> Hrest]].
      rewrite contains_etx_app in Hs.
      apply Bool.orb_false_iff in Hs. destruct Hs as [Hc' Hs'].
      rewrite (IH (acc ++ c)%string s' later).
      * now rewrite !append_assoc.
      * split; assumption.
      * now rewrite contains_etx_app, Hacc, Hc'.
      * exact Hs'.
Qed.

(** One call returns the text of a frame whose reads stop at its
    terminator, and leaves the later reads untouched. *)
Lemma receive_frame (n : net) (chunks : list string) (s : string)
  (later : list read_event) :
  reads_left n = arriving chunks ++ later ->
  cuts chunks s ->
  contains_etx s = false ->
  utf8_valid s = true ->
  Async.receive_response n = ([], set_reads later n, Normal s).
Proof.
  intros Hrd Hcuts Hs Hutf. unfold Async.receive_response.
  rewrite Hrd, (read_loop_frame chunks EmptyString s later Hcuts eq_refl Hs).
  simpl. unfold etx. rewrite (before_etx_frame s EmptyString Hs).
  unfold decode. now rewrite Hutf.
Qed.

(** What follows the terminator in the read that completes a frame is
    dropped with the local buffer. *)
Lemma receive_drops_rest (n : net) (s extra : string) (later : list read_event) :
  reads_left n = Data (s ++ etx ++ extra) :: later ->
  contains_etx s = false ->
  utf8_valid s = true ->
  Async.receive_response n = ([], set_reads later n, Normal s).
Proof.
  intros Hrd Hs Hutf. unfold Async.receive_response. rewrite Hrd.
  cbn [Async.read_loop String.append].
  assert (Hne : nonempty (s ++ etx ++ extra) = true) by (destruct s; reflexivity).
  assert (Hc : contains_etx (s ++ etx ++ extra) = true).
  { rewrite contains_etx_app. apply Bool.orb_true_r. }
  rewrite Hne, Hc.
  assert (Hb : before_etx (s ++ etx ++ extra) = s) by exact (before_etx_frame s extra Hs).
  rewrite Hb. unfold decode. now rewrite Hutf.
Qed.

Lemma set_reads_twice (a b : list read_event) (n : net) :
  set_reads a (set_reads b n) = set_reads a n.
Proof. reflexivity. Qed.

Lemma reads_left_set (a : list read_event) (n : net) :
  reads_left (set_reads a n) = a.
Proof. reflexivity. Qed.

(** ** Reading traces *)

Lemma sent_app (a b : trace) : sent (a ++ b) = sent a ++ sent b.
Proof.
  induction a as [|ev a IH]; simpl; [reflexivity|].
  destruct ev; simpl; rewrite ?IH; reflexivity.
Qed.

Lemma connects_app (a b : trace) : connects (a ++ b) = connects a + connects b.
Proof.
  induction a as [|ev a IH]; simpl; [reflexivity|].
  destruct ev; simpl; rewrite ?IH; reflexivity.
Qed.

Lemma sleeps_app (a b : trace) : sleeps (a ++ b) = sleeps a ++ sleeps b.
Proof.
  induction a as [|ev a IH]; simpl; [reflexivity|].
  destruct ev; simpl; rewrite ?IH; reflexivity.
Qed.

Lemma resolutions_app (a b : trace) :
  resolutions (a ++ b) = resolutions a + resolutions b.
Proof.
  induction a as [|ev a IH]; simpl; [reflexivity|].
  destruct ev; simpl; rewrite ?IH; reflexivity.
Qed.

Lemma resolutions_quiet (t : trace) :
  Forall not_resolution t -> resolutions t = 0.
Proof.
  induction 1 as [|ev t Hev _ IH]; simpl; [reflexivity|].
  destruct ev; try exact IH. discriminate Hev.
Qed.

Section Emits.
Context {P : event -> Prop}.

Lemma emits_ret {A : Type} (a : A) : emits_only P (ret a).
Proof. intros n. constructor. Qed.

Lemma emits_raise {A : Type} (e : exn) : emits_only P (@raise A e).
Proof. intros n. constructor. Qed.

Lemma emits_out_of_fuel {A : Type} : emits_only P (@out_of_fuel A).
Proof. intros n. constructor. Qed.

Lemma emits_lift {A : Type} (r : exn + A) : emits_only P (lift r).
Proof. destruct r; [apply emits_raise | apply emits_ret]. Qed.

Lemma emits_emit (ev : event) : P ev -> emits_only P (emit ev).
Proof. intros H n. repeat constructor. exact H. Qed.

Lemma emits_bind {A B : Type} (m : Py A) (k : A -> Py B) :
  emits_only P m -> (forall a, emits_only P (k a)) -> emits_only P (bind m k).
Proof.
  intros Hm Hk n. specialize (Hm n). unfold bind, trace_of in *.
  destruct (m n) as [[t n'] [a|e| |]]; simpl in *; try exact Hm.
  specialize (Hk a n'). destruct (k a n') as [[t' n''] r]; simpl in *.
  apply Forall_app. split; assumption.
Qed.

Lemma emits_try {A : Type} (m : Py A) (handler : exn -> option (Py A)) :
  emits_only P m ->
  (forall e h, handler e = Some h -> emits_only P h) ->
  emits_only P (try_except m handler).
Proof.
  intros Hm Hh n. specialize (Hm n). unfold try_except, trace_of in *.
  destruct (m n) as [[t n'] [a|e| |]]; simpl in *; try exact Hm.
  destruct (handler e) as [h|] eqn:He; simpl; [|exact Hm].
  specialize (Hh e h He n'). destruct (h n') as [[t' n''] r]; simpl in *.
  apply Forall_app. split; assumption.
Qed.

Lemma emits_for_each {A : Type} (xs : list A) (body : A -> Py unit) :
  (forall x, emits_only P (body x)) -> emits_only P (for_each xs body).
Proof.
  intros Hb. induction xs as [|x xs IH]; simpl.
  - apply emits_ret.
  - apply emits_bind; [apply Hb | intros _; exact IH].
Qed.

Lemma emits_closing {A : Type} (m : Py A) :
  P EClose -> emits_only P m -> emits_only P (closing m).
Proof.
  intros Hc Hm n. specialize (Hm n). unfold closing, trace_of in *.
  destruct (m n) as [[t n'] [a|e| |]]; simpl in *; try exact Hm;
    (apply Forall_app; split; [exact Hm | repeat constructor; exact Hc]).
Qed.

Lemma emits_connect (path : string) :
  P (EConnect path) -> emits_only P (connect path).
Proof.
  intros H n. unfold connect, trace_of.
  destruct (pending n) as [|c rest]; [repeat constructor; exact H|].
  destruct (connect_error c); repeat constructor; exact H.
Qed.

Lemma emits_write_all (data : string) :
  P (ESend data) -> emits_only P (write_all data).
Proof.
  intros H n. unfold write_all, trace_of.
  destruct (sends_left n) as [|[e|] rest]; repeat constructor; exact H.
Qed.

Lemma emits_loads {lib : PyLib} (text : string) : emits_only P (loads text).
Proof.
  unfold loads. destruct (json_loads text); [apply emits_ret | apply emits_raise].
Qed.

End Emits.

Ltac unfold_io :=
  unfold logging_debug, logging_warning, logging_error, print, sleep,
    Async.send_request in *.

(** Splits the hypothesis that a handler table answered [Some h]. *)
Ltac handler_cases H :=
  cbv beta in H;
  repeat match type of H with
         | (if ?b then _ else _) = Some _ => destruct b
         | match ?e with _ => _ end = Some _ => destruct e
         end;
  try discriminate H;
  injection H as <-.

Create HintDb quiet.
Create HintDb fuel.

Ltac emits :=
  unfold_io;
  repeat first
    [ assumption
    | solve [auto with quiet nocore]
    | match goal with
      | |- emits_only _ (ret _) => apply emits_ret
      | |- emits_only _ (raise _) => apply emits_raise
      | |- emits_only _ out_of_fuel => apply emits_out_of_fuel
      | |- emits_only _ (lift _) => apply emits_lift
      | |- emits_only _ (loads _) => apply emits_loads
      | |- emits_only _ (emit _) => apply emits_emit; reflexivity
      | |- emits_only _ (connect _) => apply emits_connect; reflexivity
      | |- emits_only _ (write_all _) => apply emits_write_all; reflexivity
      | |- emits_only _ (closing _) => apply emits_closing; [reflexivity|]
      | |- emits_only _ (bind _ _) => apply emits_bind; [|intros ?]
      | |- emits_only _ (for_each _ _) => apply emits_for_each; intros ?
      | |- emits_only _ (try_except _ _) =>
        apply emits_try;
        [| let e := fresh "e" in let h := fresh "h" in let H := fresh "H" in
           intros e h H; handler_cases H ]
      | |- emits_only _ (if ?b then _ else _) => destruct b
      | |- emits_only _ (match ?x with _ => _ end) => destruct x
      end ].

Lemma extends_refl {A : Type} (m : Py A) : extends m m.
Proof. intros n. now left. Qed.

Lemma extends_bind {A B : Type} (m1 m2 : Py A) (k1 k2 : A -> Py B) :
  extends m1 m2 -> (forall a, extends (k1 a) (k2 a)) ->
  extends (bind m1 k1) (bind m2 k2).
Proof.
  intros Hm Hk n. unfold bind, outcome_of in *.
  destruct (Hm n) as [E|E].
  - rewrite <- E. destruct (m1 n) as [[t n'] [a|e| |]]; try now left.
    destruct (Hk a n') as [E'|E'].
    + rewrite <- E'. now left.
    + right. destruct (k1 a n') as [[t' n''] r]; simpl in *. exact E'.
  - right. destruct (m1 n) as [[t n'] r]; simpl in E. subst r. reflexivity.
Qed.

Lemma extends_try {A : Type} (m1 m2 : Py A) (handler : exn -> option (Py A)) :
  extends m1 m2 -> extends (try_except m1 handler) (try_except m2 handler).
Proof.
  intros Hm n. unfold try_except, outcome_of in *.
  destruct (Hm n) as [E|E].
  - rewrite <- E. now left.
  - right. destruct (m1 n) as [[t n'] r]; simpl in E. subst r. reflexivity.
Qed.

Lemma extends_for_each {A : Type} (xs : list A) (body1 body2 : A -> Py unit) :
  (forall x, extends (body1 x) (body2 x)) ->
  extends (for_each xs body1) (for_each xs body2).
Proof.
  intros Hb. induction xs as [|x xs IH]; simpl.
  - apply extends_refl.
  - apply extends_bind; [apply Hb | intros _; exact IH].
Qed.

Ltac extends :=
  repeat first
    [ assumption
    | solve [auto with fuel nocore]
    | match goal with
      | |- extends ?m ?m => apply extends_refl
      | |- extends (for_each _ _) (for_each _ _) => apply extends_for_each; intros ?
      | |- extends (try_except _ _) (try_except _ _) => apply extends_try
      | |- extends (bind _ _) (bind _ _) => apply extends_bind; [|intros ?]
      | |- extends (if ?b then _ else _) (if ?b then _ else _) => destruct b
      | |- extends (match ?x with _ => _ end) (match ?x with _ => _ end) => destruct x
      end ].

Lemma for_each_normal {A : Type} (body : A -> Py unit) (xs : list A) :
  forall n t n',
  for_each xs body n = (t, n', Normal tt) ->
  exists ts,
    t = concat ts /\
    Forall2 (fun x tx => exists n1 n2, body x n1 = (tx, n2, Normal tt)) xs ts.
Proof.
  induction xs as [|x xs IH]; intros n t n' H.
  - injection H as <- _. exists []. split; [reflexivity | constructor].
  - simpl in H. unfold bind in H.
    destruct (body x n) as [[t1 n1] [[]|e| |]] eqn:Hx; try discriminate H.
    destruct (for_each xs body n1) as [[t2 n2] r] eqn:Hxs.
    injection H as <- <- ->.
    destruct (IH n1 t2 n2 Hxs) as [ts [-> Hall]].
    exists (t1 :: ts). split; [reflexivity|].
    constructor; [now exists n, n1 | exact Hall].
Qed.

Lemma for_each_outcome {A : Type} (body : A -> Py unit) (xs : list A)
  (ok : outcome unit -> Prop) :
  ok (Normal tt) ->
  (forall x n, ok (outcome_of (body x n))) ->
  forall n, ok (outcome_of (for_each xs body n)).
Proof.
  intros Hret Hb. induction xs as [|x xs IH]; intros n; simpl.
  - exact Hret.
  - unfold bind, outcome_of in *. specialize (Hb x n).
    destruct (body x n) as [[t1 n1] [[]|e| |]]; simpl in *; try exact Hb.
    specialize (IH n1). destruct (for_each xs body n1) as [[t2 n2] r]. exact IH.
Qed.

(** ** The asyncio client, pass by pass *)

Lemma async_read_loop_quiet (rd : list read_event) :
  forall acc, Forall not_resolution (fst (fst (Async.read_loop rd acc))).
Proof.
  induction rd as [|[chunk|e|] rd IH]; intros acc; simpl.
  - constructor.
  - destruct (nonempty chunk); [|constructor].
    destruct (contains_etx (acc ++ chunk)); [constructor | apply IH].
  - destruct (is_Exception e); repeat constructor.
  - constructor.
Qed.

Lemma async_receive_quiet : emits_only not_resolution Async.receive_response.
Proof.
  intros n. unfold Async.receive_response, trace_of.
  pose proof (async_read_loop_quiet (reads_left n) EmptyString) as H.
  destruct (Async.read_loop (reads_left n) EmptyString) as [[t rd] [data|e| |]];
    simpl in *; try exact H.
  destruct (decode (before_etx data)); exact H.
Qed.
#[local] Hint Resolve async_receive_quiet : quiet.

Lemma async_print_status_quiet {lib : PyLib} (status : json) :
  emits_only not_resolution (Async.print_printer_status status).
Proof. unfold Async.print_printer_status, Async.position_field. emits. Qed.
#[local] Hint Resolve async_print_status_quiet : quiet.

Lemma async_receive_update_quiet {lib : PyLib} :
  emits_only not_resolution Async.receive_update.
Proof.
  unfold Async.receive_update. emits.
Qed.
#[local] Hint Resolve async_receive_update_quiet : quiet.

Lemma async_listen_quiet {lib : PyLib} (fuel : nat) :
  emits_only not_resolution (Async.listen fuel).
Proof.
  induction fuel as [|fuel IH]; simpl.
  - apply emits_out_of_fuel.
  - emits.
Qed.
#[local] Hint Resolve async_listen_quiet : quiet.

Lemma async_converse_quiet {lib : PyLib} (fuel : nat) :
  emits_only not_resolution (Async.converse fuel).
Proof.
  unfold Async.converse. emits.
Qed.
#[local] Hint Resolve async_converse_quiet : quiet.

Lemma async_listen_extends {lib : PyLib} (fuel more : nat) :
  extends (Async.listen fuel) (Async.listen (fuel + more)).
Proof.
  induction fuel as [|fuel IH]; simpl.
  - intros n. now right.
  - extends.
Qed.
#[local] Hint Resolve async_listen_extends : fuel.

Lemma async_converse_extends {lib : PyLib} (fuel more : nat) :
  extends (Async.converse fuel) (Async.converse (fuel + more)).
Proof.
  unfold Async.converse. extends.
Qed.
#[local] Hint Resolve async_converse_extends : fuel.

Lemma async_attempt_extends {lib : PyLib} (fuel more : nat) (uds : string)
  (max_attempts : nat) (delay : Q) (attempt : nat) :
  extends (Async.attempt_once fuel uds max_attempts delay attempt)
          (Async.attempt_once (fuel + more) uds max_attempts delay attempt).
Proof.
  unfold Async.attempt_once, Async.handshake. extends.
Qed.
#[local] Hint Resolve async_attempt_extends : fuel.

Lemma async_run_extends {lib : PyLib} (fuel more : nat) (max_attempts : nat)
  (delay : Q) (w : world) :
  extends (Async.get_printer_status_with max_attempts delay fuel w)
          (Async.get_printer_status_with max_attempts delay (fuel + more) w).
Proof.
  unfold Async.get_printer_status_with. extends.
Qed.

(** The [try] statement of one pass announces the attempt, connects,
    emits nothing of endpoint resolution and lets no [Exception]
    through. *)
Lemma async_try_spec {lib : PyLib} (fuel : nat) (uds : string)
  (max_attempts attempt : nat) (handler : exn -> option (Py unit)) (n : net) :
  handler = (fun e =>
       if is_parse_error e then
         Some (logging_error (TextExn "Error: Unable to parse response: " e))
       else if is_Exception e then Some (logging_error (TextExn "Error: " e))
       else None) ->
  exists body,
    trace_of (try_except (Async.handshake fuel uds attempt max_attempts) handler n)
    = ELog LvlDebug (AttemptMsg uds (attempt + 1) max_attempts) :: EConnect uds :: body
    /\ Forall not_resolution body
    /\ (forall e,
        outcome_of (try_except (Async.handshake fuel uds attempt max_attempts) handler n)
        = Raised e -> is_Exception e = false).
Proof.
  intros ->.
  pose proof (async_converse_quiet fuel) as Hq.
  unfold Async.handshake, try_except, bind, logging_debug,
    logging_error, emit, connect, trace_of, outcome_of.
  destruct (pending n) as [|c rest]; simpl.
  - eexists. split; [reflexivity|]. split; [repeat constructor | discriminate].
  - destruct (connect_error c) as [e|]; simpl.
    + destruct (is_parse_error e) eqn:Hp; simpl;
        [|destruct (is_Exception e) eqn:He; simpl];
        (eexists; split; [reflexivity|]; split; [repeat constructor|]);
        try discriminate.
      intros e' [= <-]. exact He.
    + match goal with |- context [Async.converse fuel ?n1] =>
        specialize (Hq n1); unfold trace_of in Hq;
        destruct (Async.converse fuel n1) as [[t2 n2] [[]|e| |]] end; simpl in *.
      * eexists. split; [reflexivity|]. split; [exact Hq | discriminate].
      * destruct (is_parse_error e) eqn:Hp; simpl;
          [|destruct (is_Exception e) eqn:He; simpl];
          (eexists; split; [reflexivity|]; split;
           [try (apply Forall_app; split; [exact Hq | repeat constructor])|]);
          try discriminate.
        -- exact Hq.
        -- intros e' [= <-]. exact He.
      * eexists. split; [reflexivity|]. split; [exact Hq | discriminate].
      * eexists. split; [reflexivity|]. split; [exact Hq | discriminate].
Qed.

(** A computation followed by a sleep. *)
Lemma then_sleep (m : Py unit) (d : Q) (n : net) :
  match outcome_of (m n) with
  | Normal _ =>
    trace_of (bind m (fun _ => sleep d) n) = trace_of (m n) ++ [ESleep d] /\
    outcome_of (bind m (fun _ => sleep d) n) = Normal tt
  | other =>
    trace_of (bind m (fun _ => sleep d) n) = trace_of (m n) /\
    outcome_of (bind m (fun _ => sleep d) n) = other
  end.
Proof.
  unfold bind, sleep, emit, trace_of, outcome_of.
  destruct (m n) as [[t n'] [[]|e| |]]; simpl; split; reflexivity.
Qed.

(** One pass of the attempt loop that ends normally is a failed
    attempt in the sense above; no pass lets an [Exception] through. *)
Lemma async_attempt_spec {lib : PyLib} (fuel : nat) (uds : string)
  (max_attempts : nat) (delay : Q) (attempt : nat) (n : net) :
  (outcome_of (Async.attempt_once fuel uds max_attempts delay attempt n) = Normal tt ->
   failed_attempt not_resolution uds max_attempts delay attempt
     (trace_of (Async.attempt_once fuel uds max_attempts delay attempt n)))
  /\ (forall e,
      outcome_of (Async.attempt_once fuel uds max_attempts delay attempt n) = Raised e ->
      is_Exception e = false).
Proof.
  unfold Async.attempt_once.
  match goal with |- context [try_except _ ?h] =>
    destruct (async_try_spec fuel uds max_attempts attempt h n eq_refl)
      as [body [Ht [Hq Hr]]];
    pose proof (then_sleep
      (try_except (Async.handshake fuel uds attempt max_attempts) h) delay n) as Hs
  end.
  match type of Hs with match ?o with _ => _ end => destruct o as [[]|e| |] eqn:Ho end;
    destruct Hs as [Hs1 Hs2]; rewrite Hs1, Hs2; split; try discriminate.
  - intros _. exists body. rewrite Ht. split; [reflexivity | exact Hq].
  - intros e' [= <-]. now apply Hr.
Qed.

(** ** The lines before the attempt loop *)

Lemma for_each_emit {A : Type} (f : A -> event) (xs : list A) (n : net) :
  for_each xs (fun x => emit (f x)) n = (map f xs, n, Normal tt).
Proof.
  induction xs as [|x xs IH]; simpl; [reflexivity|].
  unfold bind, emit in *. now rewrite IH.
Qed.

Lemma log_found_run (w : world) (line : process -> msg) (n : net) :
  log_found w line n = (found_lines w line, n, Normal tt).
Proof.
  unfold log_found, logging_debug, bind at 1 2 3.
  unfold emit at 1. cbv beta iota.
  rewrite (for_each_emit (fun p => ELog LvlDebug (line p))).
  unfold emit at 1. cbv beta iota.
  rewrite (for_each_emit (fun f => ELog LvlDebug (TextStr "- " f))).
  unfold found_lines. simpl. reflexivity.
Qed.

Lemma async_resolve_run (w : world) (n : net) :
  Async.resolve w n = (resolution_trace w ProcessPidMsg, n, Normal tt).
Proof.
  unfold Async.resolve, bind, emit. rewrite log_found_run. reflexivity.
Qed.

Lemma logs_only (f : trace) :
  Forall (fun ev => exists lvl m, ev = ELog lvl m) f ->
  connects f = 0 /\ sleeps f = [] /\ resolutions f = 0 /\ sent f = [].
Proof.
  induction 1 as [|ev f [lvl [m ->]] _ IH]; simpl; [repeat split | exact IH].
Qed.

Lemma found_lines_logs (w : world) (line : process -> msg) :
  Forall (fun ev => exists lvl m, ev = ELog lvl m) (found_lines w line).
Proof.
  unfold found_lines. constructor; [now eexists; eexists|].
  apply Forall_app. split.
  - apply Forall_forall. intros ev Hin. apply in_map_iff in Hin.
    destruct Hin as [p [<- _]]. now eexists; eexists.
  - constructor; [now eexists; eexists|].
    apply Forall_forall. intros ev Hin. apply in_map_iff in Hin.
    destruct Hin as [p [<- _]]. now eexists; eexists.
Qed.

(** Resolution happens once in the lines before the loop; nothing is
    connected, sent or slept there. *)
Lemma resolution_trace_counts (w : world) (line : process -> msg) :
  connects (resolution_trace w line) = 0 /\
  sleeps (resolution_trace w line) = [] /\
  resolutions (resolution_trace w line) = 1 /\
  sent (resolution_trace w line) = [].
Proof.
  destruct (logs_only _ (found_lines_logs w line)) as [Hc [Hs [Hr Hx]]].
  unfold resolution_trace. cbn [connects sleeps resolutions sent].
  rewrite connects_app, sleeps_app, resolutions_app, sent_app, Hc, Hs, Hr, Hx.
  repeat split.
Qed.

Lemma Forall2_seq {B : Type} (R : nat -> B -> Prop) (len : nat) :
  forall (start : nat) (ts : list B),
  Forall2 R (seq start len) ts ->
  length ts = len /\
  forall i ti, nth_error ts i = Some ti -> R (start + i) ti.
Proof.
  induction len as [|len IH]; intros start ts H; simpl in H.
  - inversion H; subst. split; [reflexivity|]. intros [|i] ti; discriminate.
  - inversion H as [|x t xs ts' Hx Hrest]; subst.
    destruct (IH (S start) ts' Hrest) as [Hlen Hnth].
    split; [simpl; now rewrite Hlen|].
    intros [|i] ti Hi; simpl in Hi.
    + injection Hi as <-. now rewrite Nat.add_0_r.
    + rewrite Nat.add_succ_r. exact (Hnth i ti Hi).
Qed.

Lemma async_run_shape {lib : PyLib} (max_attempts : nat) (delay : Q) (fuel : nat)
  (w : world) (uds : string) (n n' : net) (t : trace) (x : exit_point) :
  klipper_uds w = Some uds ->
  Async.get_printer_status_with max_attempts delay fuel w n = (t, n', Normal x) ->
  x = ReturnExhausted /\
  exists ts,
    length ts = max_attempts /\
    t = resolution_trace w ProcessPidMsg ++ concat ts ++ [Async.terminal_failure] /\
    forall i ti, nth_error ts i = Some ti ->
                 failed_attempt not_resolution uds max_attempts delay i ti.
Proof.
  intros Huds H. unfold Async.get_printer_status_with in H.
  unfold bind at 1 in H. rewrite async_resolve_run, Huds in H.
  unfold bind at 1 in H.
  destruct (for_each (seq 0 max_attempts)
              (Async.attempt_once fuel uds max_attempts delay) n)
    as [[t1 n1] [[]|e| |]] eqn:Hloop; try discriminate H.
  unfold bind, emit, ret in H. injection H as <- _ <-.
  split; [reflexivity|].
  destruct (for_each_normal _ _ _ _ _ Hloop) as [ts [-> Hall]].
  apply Forall2_seq in Hall. destruct Hall as [Hlen Hnth].
  exists ts. split; [exact Hlen|]. split; [reflexivity|].
  intros i ti Hi. destruct (Hnth i ti Hi) as [n1' [n2' Hrun]].
  pose proof (proj1 (async_attempt_spec fuel uds max_attempts delay (0 + i) n1')) as Hspec.
  rewrite Hrun in Hspec. exact (Hspec eq_refl).
Qed.

(** ** Computations that end, and what they return *)

Lemma terminates_ret {A : Type} (a : A) : terminates (ret a).
Proof. intros n. exact I. Qed.

Lemma terminates_raise {A : Type} (e : exn) : terminates (@raise A e).
Proof. intros n. exact I. Qed.

Lemma terminates_lift {A : Type} (r : exn + A) : terminates (lift r).
Proof. destruct r; [apply terminates_raise | apply terminates_ret]. Qed.

Lemma terminates_emit (ev : event) : terminates (emit ev).
Proof. intros n. exact I. Qed.

Lemma terminates_loads {lib : PyLib} (text : string) : terminates (loads text).
Proof.
  unfold loads. destruct (json_loads text);
    [apply terminates_ret | apply terminates_raise].
Qed.

Lemma terminates_connect (path : string) : terminates (connect path).
Proof.
  intros n. unfold connect, outcome_of.
  destruct (pending n) as [|c rest]; [exact I|].
  destruct (connect_error c); exact I.
Qed.

Lemma terminates_write_all (data : string) : terminates (write_all data).
Proof.
  intros n. unfold write_all, outcome_of.
  destruct (sends_left n) as [|[e|] rest]; exact I.
Qed.

Lemma terminates_bind {A B : Type} (m : Py A) (k : A -> Py B) :
  terminates m -> (forall a, terminates (k a)) -> terminates (bind m k).
Proof.
  intros Hm Hk n. specialize (Hm n). unfold bind, outcome_of in *.
  destruct (m n) as [[t n'] [a|e| |]]; simpl in *; try exact Hm.
  specialize (Hk a n'). destruct (k a n') as [[t' n''] r]. exact Hk.
Qed.

Lemma terminates_try {A : Type} (m : Py A) (handler : exn -> option (Py A)) :
  terminates m ->
  (forall e h, handler e = Some h -> terminates h) ->
  terminates (try_except m handler).
Proof.
  intros Hm Hh n. specialize (Hm n). unfold try_except, outcome_of in *.
  destruct (m n) as [[t n'] [a|e| |]]; simpl in *; try exact Hm.
  destruct (handler e) as [h|] eqn:He; [|exact I].
  specialize (Hh e h He n'). destruct (h n') as [[t' n''] r]. exact Hh.
Qed.

Lemma terminates_closing {A : Type} (m : Py A) :
  terminates m -> terminates (closing m).
Proof.
  intros Hm n. specialize (Hm n). unfold closing, outcome_of in *.
  destruct (m n) as [[t n'] [a|e| |]]; exact Hm.
Qed.

Lemma terminates_for_each {A : Type} (xs : list A) (body : A -> Py unit) :
  (forall x, terminates (body x)) -> terminates (for_each xs body).
Proof.
  intros Hb. induction xs as [|x xs IH]; simpl.
  - apply terminates_ret.
  - apply terminates_bind; [apply Hb | intros _; exact IH].
Qed.

Lemma returns_ret {A : Type} (good : A -> Prop) (a : A) :
  good a -> returns_only good (ret a).
Proof. intros H n a' [= <-]. exact H. Qed.

Lemma returns_raise {A : Type} (good : A -> Prop) (e : exn) :
  returns_only good (raise e).
Proof. intros n a H. discriminate H. Qed.

Lemma returns_bind {A B : Type} (good : B -> Prop) (m : Py A) (k : A -> Py B) :
  (forall a, returns_only good (k a)) -> returns_only good (bind m k).
Proof.
  intros Hk n b. unfold bind, outcome_of.
  destruct (m n) as [[t n'] [a|e| |]]; simpl; try discriminate.
  specialize (Hk a n' b). unfold outcome_of in Hk.
  destruct (k a n') as [[t' n''] r]. exact Hk.
Qed.

Lemma returns_try {A : Type} (good : A -> Prop) (m : Py A)
  (handler : exn -> option (Py A)) :
  returns_only good m ->
  (forall e h, handler e = Some h -> returns_only good h) ->
  returns_only good (try_except m handler).
Proof.
  intros Hm Hh n a. specialize (Hm n a). unfold try_except, outcome_of in *.
  destruct (m n) as [[t n'] [a'|e| |]]; simpl in *; try discriminate; [exact Hm|].
  destruct (handler e) as [h|] eqn:He; [|discriminate].
  specialize (Hh e h He n' a). unfold outcome_of in Hh.
  destruct (h n') as [[t' n''] r]. exact Hh.
Qed.

Create HintDb halts.

Ltac settles :=
  unfold_io;
  repeat first
    [ assumption
    | solve [auto with halts nocore]
    | match goal with
      | |- terminates (ret _) => apply terminates_ret
      | |- terminates (raise _) => apply terminates_raise
      | |- terminates (lift _) => apply terminates_lift
      | |- terminates (loads _) => apply terminates_loads
      | |- terminates (emit _) => apply terminates_emit
      | |- terminates (connect _) => apply terminates_connect
      | |- terminates (write_all _) => apply terminates_write_all
      | |- terminates (closing _) => apply terminates_closing
      | |- terminates (bind _ _) => apply terminates_bind; [|intros ?]
      | |- terminates (for_each _ _) => apply terminates_for_each; intros ?
      | |- terminates (try_except _ _) =>
        apply terminates_try;
        [| let e := fresh "e" in let h := fresh "h" in let H := fresh "H" in
           intros e h H; handler_cases H ]
      | |- returns_only _ (ret _) => apply returns_ret; try discriminate
      | |- returns_only _ (raise _) => apply returns_raise
      | |- returns_only _ (bind _ _) => apply returns_bind; intros ?
      | |- returns_only _ (try_except _ _) =>
        apply returns_try;
        [| let e := fresh "e" in let h := fresh "h" in let H := fresh "H" in
           intros e h H; handler_cases H ]
      | |- _ (if ?b then _ else _) => destruct b
      | |- _ (match ?x with _ => _ end) => destruct x
      end ].

(** ** The blocking client, pass by pass *)

Lemma blocking_recv_loop_silent (rd : list read_event) :
  forall acc, fst (fst (Blocking.recv_loop rd acc)) = [].
Proof.
  induction rd as [|[chunk|e|] rd IH]; intros acc; simpl.
  - reflexivity.
  - destruct (nonempty chunk); [apply IH | reflexivity].
  - destruct (is_socket_error e); reflexivity.
  - reflexivity.
Qed.

Lemma blocking_receive_silent (n : net) :
  trace_of (Blocking.receive_response n) = [].
Proof.
  unfold Blocking.receive_response, trace_of.
  pose proof (blocking_recv_loop_silent (reads_left n) EmptyString) as H.
  destruct (Blocking.recv_loop (reads_left n) EmptyString) as [[t rd] [data|e| |]];
    simpl in *; try exact H.
  destruct (decode data); exact H.
Qed.

Lemma blocking_receive_quiet : emits_only not_resolution Blocking.receive_response.
Proof. intros n. rewrite blocking_receive_silent. constructor. Qed.
#[local] Hint Resolve blocking_receive_quiet : quiet.

Lemma blocking_exchange_quiet {lib : PyLib} (klipper_api_key : option string) :
  emits_only not_resolution (Blocking.exchange klipper_api_key).
Proof. unfold Blocking.exchange. emits. Qed.
#[local] Hint Resolve blocking_exchange_quiet : quiet.

(** The name [errno] is not bound in the module, so the handler of a
    failed [connect] raises [NameError] before it compares anything:
    neither the short sleep nor [continue] is ever reached. *)
Lemma connect_or_continue_run (uds : string) (n : net) :
  Blocking.connect_or_continue uds n
  = match connect uds n with
    | (t, n', Normal _) => (t, n', Normal Blocking.Next)
    | (t, n', Raised e) =>
      if is_socket_error e then (t, n', Raised NameError) else (t, n', Raised e)
    | (t, n', OutOfFuel) => (t, n', OutOfFuel)
    | (t, n', Hangs) => (t, n', Hangs)
    end.
Proof.
  unfold Blocking.connect_or_continue, try_except, bind, connect.
  destruct (pending n) as [|c rest]; simpl; [reflexivity|].
  destruct (connect_error c) as [e|]; simpl; [|reflexivity].
  destruct (is_socket_error e); reflexivity.
Qed.

Lemma blocking_dialogue_quiet {lib : PyLib} (klipper_api_key : option string) :
  emits_only not_resolution (Blocking.dialogue klipper_api_key).
Proof. unfold Blocking.dialogue. emits. Qed.

Lemma blocking_receive_terminates : terminates Blocking.receive_response.
Proof.
  intros n. unfold Blocking.receive_response, outcome_of.
  assert (H : forall rd acc, ended (snd (Blocking.recv_loop rd acc))).
  { induction rd as [|[chunk|e|] rd IH]; intros acc; simpl; try exact I.
    - destruct (nonempty chunk); [apply IH | exact I].
    - destruct (is_socket_error e); exact I. }
  specialize (H (reads_left n) EmptyString).
  destruct (Blocking.recv_loop (reads_left n) EmptyString) as [[t rd] [data|e| |]];
    simpl in *; try exact H.
  destruct (decode data); exact I.
Qed.
#[local] Hint Resolve blocking_receive_terminates : halts.

Lemma blocking_exchange_terminates {lib : PyLib} (klipper_api_key : option string) :
  terminates (Blocking.exchange klipper_api_key).
Proof. unfold Blocking.exchange. settles. Qed.

Lemma blocking_exchange_flow {lib : PyLib} (klipper_api_key : option string) :
  returns_only not_continue (Blocking.exchange klipper_api_key).
Proof. unfold Blocking.exchange, not_continue. settles. Qed.

Lemma blocking_dialogue_terminates {lib : PyLib} (klipper_api_key : option string) :
  terminates (Blocking.dialogue klipper_api_key).
Proof.
  unfold Blocking.dialogue. pose proof (blocking_exchange_terminates klipper_api_key).
  settles.
Qed.

Lemma blocking_dialogue_flow {lib : PyLib} (klipper_api_key : option string) :
  returns_only not_continue (Blocking.dialogue klipper_api_key).
Proof.
  unfold Blocking.dialogue. pose proof (blocking_exchange_flow klipper_api_key).
  unfold not_continue in *. settles.
Qed.

(** The [with] block of one pass: it announces the attempt, connects,
    emits nothing of endpoint resolution, closes the socket, lets no
    [Exception] through and never ends in [continue]. *)
Lemma blocking_with_spec {lib : PyLib} (uds : string) (klipper_api_key : option string)
  (max_attempts attempt : nat) (handler : exn -> option (Py Blocking.flow))
  (n n' : net) (t : trace) (r : outcome Blocking.flow) :
  handler = (fun e =>
          if is_socket_timeout e then
            Some (logging_warning
                    (Text "Timed out while waiting for response. Retrying...") ;;
                  ret Blocking.Next)
          else if is_Exception e then
            Some (logging_error (TextExn "Error: " e) ;; ret Blocking.Next)
          else None) ->
  closing (try_except (Blocking.session uds klipper_api_key attempt max_attempts)
             handler) n = (t, n', r) ->
  exists body,
    t = ELog LvlDebug (AttemptMsg uds (attempt + 1) max_attempts) :: EConnect uds
        :: body ++ [EClose]
    /\ Forall not_resolution body
    /\ match r with
       | Normal how => how <> Blocking.Continue
       | Raised e => is_Exception e = false
       | OutOfFuel | Hangs => False
       end.
Proof.
  intros -> H.
  pose proof (blocking_dialogue_quiet klipper_api_key) as Hq.
  pose proof (blocking_dialogue_terminates klipper_api_key) as Ht.
  pose proof (blocking_dialogue_flow klipper_api_key) as Hf.
  unfold closing, Blocking.session, try_except, bind, logging_debug, emit in H.
  rewrite connect_or_continue_run in H. unfold connect in H.
  destruct (pending n) as [|c rest]; simpl in H.
  - injection H as <- <- <-.
    exists [ELog LvlError (TextExn "Error: " NameError)].
    split; [reflexivity|]. split; [repeat constructor | discriminate].
  - destruct (connect_error c) as [e|]; simpl in H.
    + destruct (is_socket_error e) eqn:Hs; simpl in H.
      * injection H as <- <- <-.
        exists [ELog LvlError (TextExn "Error: " NameError)].
        split; [reflexivity|]. split; [repeat constructor | discriminate].
      * assert (Hto : is_socket_timeout e = false)
          by (destruct e; try reflexivity; discriminate Hs).
        rewrite Hto in H. destruct (is_Exception e) eqn:He; simpl in H;
          injection H as <- <- <-.
        -- exists [ELog LvlError (TextExn "Error: " e)].
           split; [reflexivity|]. split; [repeat constructor | discriminate].
        -- exists []. split; [reflexivity|]. split; [constructor | exact He].
    + match type of H with context [Blocking.dialogue klipper_api_key ?n1] =>
        specialize (Hq n1); specialize (Ht n1); specialize (Hf n1);
        unfold trace_of, outcome_of, not_continue in Hq, Ht, Hf;
        destruct (Blocking.dialogue klipper_api_key n1) as [[t2 n2] [how|e| |]]
      end; simpl in *.
      * injection H as <- <- <-.
        exists t2. split; [reflexivity|]. split; [exact Hq | exact (Hf how eq_refl)].
      * destruct (is_socket_timeout e) eqn:Hto; simpl in H;
          [|destruct (is_Exception e) eqn:He; simpl in H];
          injection H as <- <- <-.
        -- eexists. split; [reflexivity|].
           split; [apply Forall_app; split; [exact Hq | repeat constructor]
                  | discriminate].
        -- eexists. split; [reflexivity|].
           split; [apply Forall_app; split; [exact Hq | repeat constructor]
                  | discriminate].
        -- exists t2. split; [reflexivity|]. split; [exact Hq | exact He].
      * contradiction Ht.
      * contradiction Ht.
Qed.

(** One pass of the attempt loop of the blocking client. *)
Lemma blocking_attempt_spec {lib : PyLib} (uds : string)
  (klipper_api_key : option string) (max_attempts : nat) (delay : Q)
  (attempt : nat) (n : net) :
  match outcome_of
          (Blocking.attempt_once uds klipper_api_key max_attempts delay attempt n) with
  | Normal Blocking.Next =>
    failed_attempt not_resolution uds max_attempts delay attempt
      (trace_of (Blocking.attempt_once uds klipper_api_key max_attempts delay attempt n))
  | Normal Blocking.Return =>
    successful_attempt not_resolution uds max_attempts attempt
      (trace_of (Blocking.attempt_once uds klipper_api_key max_attempts delay attempt n))
  | Normal Blocking.Continue => False
  | Raised e => is_Exception e = false
  | OutOfFuel | Hangs => False
  end.
Proof.
  unfold Blocking.attempt_once.
  unfold bind, trace_of, outcome_of.
  match goal with |- context [closing (try_except ?s ?h) n] =>
    destruct (closing (try_except s h) n) as [[t1 n1] r1] eqn:Hw;
    destruct (blocking_with_spec uds klipper_api_key max_attempts attempt h
                n n1 t1 r1 eq_refl Hw) as [body [Ht [Hq Hr]]]
  end.
  simpl in *. subst t1.
  destruct r1 as [[| |]|e| |]; simpl; try exact Hr.
  - exists (body ++ [EClose]). split.
    + unfold sleep, emit, ret. simpl. now rewrite <- !app_assoc.
    + apply Forall_app. split; [exact Hq | repeat constructor].
  - now apply Hr.
  - exists body. split; [|exact Hq]. simpl. now rewrite app_nil_r.
Qed.

(** The attempt loop, pass by pass. *)
Lemma for_attempts_spec (body : nat -> Py Blocking.flow)
  (failed succeeded : nat -> trace -> Prop) :
  (forall x n,
     match outcome_of (body x n) with
     | Normal Blocking.Next => failed x (trace_of (body x n))
     | Normal Blocking.Return => succeeded x (trace_of (body x n))
     | Normal Blocking.Continue => False
     | Raised e => is_Exception e = false
     | OutOfFuel | Hangs => False
     end) ->
  forall xs n,
    match outcome_of (Blocking.for_attempts xs body n) with
    | Normal false =>
      exists ts, trace_of (Blocking.for_attempts xs body n) = concat ts /\
                 Forall2 failed xs ts
    | Normal true =>
      exists xs1 x xs2 ts last,
        xs = xs1 ++ x :: xs2 /\
        trace_of (Blocking.for_attempts xs body n) = concat ts ++ last /\
        Forall2 failed xs1 ts /\
        succeeded x last
    | Raised e => is_Exception e = false
    | OutOfFuel | Hangs => False
    end.
Proof.
  intros Hb. induction xs as [|x xs IH]; intros n; simpl.
  - exists []. split; [reflexivity | constructor].
  - specialize (Hb x n). unfold bind, trace_of, outcome_of in *.
    destruct (body x n) as [[t1 n1] [[| |]|e| |]]; simpl in *;
      try exact Hb; try contradiction.
    + specialize (IH n1).
      destruct (Blocking.for_attempts xs body n1) as [[t2 n2] [[|]|e| |]];
        simpl in *; try exact IH.
      * destruct IH as [xs1 [y [xs2 [ts [last [-> [-> [Hall Hlast]]]]]]]].
        exists (x :: xs1), y, xs2, (t1 :: ts), last.
        split; [reflexivity|]. split; [simpl; now rewrite app_assoc|].
        split; [now constructor | exact Hlast].
      * destruct IH as [ts [-> Hall]].
        exists (t1 :: ts). split; [reflexivity | now constructor].
    + exists [], x, xs, [], t1.
      split; [reflexivity|]. split; [simpl; now rewrite app_nil_r|].
      split; [constructor | exact Hb].
Qed.

Lemma blocking_resolve_run (w : world) (n : net) :
  Blocking.resolve w n = (resolution_trace w ProcessMsg, n, Normal tt).
Proof.
  unfold Blocking.resolve, bind, emit. rewrite log_found_run. reflexivity.
Qed.

Lemma app_same_length {A : Type} (a c : list A) :
  forall b d, a ++ b = c ++ d -> length a = length c -> a = c /\ b = d.
Proof.
  revert c. induction a as [|x a IH]; intros [|y c] b d H Hl; try discriminate Hl.
  - now split.
  - simpl in H. injection H as -> H. injection Hl as Hl.
    destruct (IH c b d H Hl) as [-> ->]. now split.
Qed.

Lemma blocking_run_shape {lib : PyLib} (max_attempts : nat) (delay : Q)
  (w : world) (uds : string) (n n' : net) (t : trace) (r : outcome exit_point) :
  klipper_uds w = Some uds ->
  Blocking.get_printer_status_with max_attempts delay w n = (t, n', r) ->
  match r with
  | Normal ReturnExhausted =>
    exists ts,
      length ts = max_attempts /\
      t = blocking_prelude w ++ concat ts ++ [Blocking.terminal_failure] /\
      forall i ti, nth_error ts i = Some ti ->
                   failed_attempt not_resolution uds max_attempts delay i ti
  | Normal ReturnStatus =>
    exists ts last,
      length ts < max_attempts /\
      t = blocking_prelude w ++ concat ts ++ last /\
      (forall i ti, nth_error ts i = Some ti ->
                    failed_attempt not_resolution uds max_attempts delay i ti) /\
      successful_attempt not_resolution uds max_attempts (length ts) last
  | Normal ReturnNoSocket => False
  | Raised e => is_Exception e = false
  | OutOfFuel | Hangs => False
  end.
Proof.
  intros Huds H. unfold Blocking.get_printer_status_with in H.
  unfold bind at 1 in H. rewrite blocking_resolve_run, Huds in H.
  unfold bind at 1, logging_debug at 1, emit at 1 in H.
  unfold bind at 1 in H.
  rewrite (for_each_emit (fun p => ECheckSystemd (p_name p))) in H.
  pose proof (for_attempts_spec
    (Blocking.attempt_once uds (klipper_api_key w) max_attempts delay)
    (failed_attempt not_resolution uds max_attempts delay)
    (successful_attempt not_resolution uds max_attempts)
    (blocking_attempt_spec uds (klipper_api_key w) max_attempts delay)
    (seq 0 max_attempts) n) as Hloop.
  unfold bind, trace_of, outcome_of in *.
  destruct (Blocking.for_attempts (seq 0 max_attempts)
              (Blocking.attempt_once uds (klipper_api_key w) max_attempts delay) n)
    as [[t1 n1] [[|]|e| |]]; simpl in *; injection H as <- <- <-;
    try exact Hloop.
  - destruct Hloop as [xs1 [x [xs2 [ts [last [Hxs [-> [Hall Hlast]]]]]]]].
    pose proof (Forall2_length Hall) as Hlen.
    assert (Hx : x = length ts /\ length ts < max_attempts /\ xs1 = seq 0 (length ts)).
    { assert (Hl : length (seq 0 max_attempts) = length xs1 + S (length xs2))
        by (rewrite Hxs, length_app; reflexivity).
      rewrite length_seq in Hl.
      assert (Hsplit : seq 0 max_attempts
                       = seq 0 (length xs1) ++ seq (0 + length xs1) (S (length xs2))).
      { rewrite <- seq_app. now rewrite Hl. }
      rewrite Hxs in Hsplit. apply app_same_length in Hsplit;
        [|now rewrite length_seq].
      destruct Hsplit as [H1 H2]. simpl in H2. injection H2 as Hx _.
      unfold trace in *.
      split; [now rewrite <- Hlen|]. split; [rewrite <- Hlen; lia|].
      now rewrite <- Hlen. }
    destruct Hx as [-> [Hlt Hxs1]]. rewrite Hxs1 in Hall.
    apply Forall2_seq in Hall. destruct Hall as [_ Hnth].
    exists ts, last. split; [exact Hlt|]. split.
    + unfold blocking_prelude. rewrite ?app_nil_r.
      repeat (rewrite <- app_assoc; simpl). reflexivity.
    + split; [|exact Hlast]. intros i ti Hi. exact (Hnth i ti Hi).
  - destruct Hloop as [ts [-> Hall]].
    apply Forall2_seq in Hall. destruct Hall as [Hlen Hnth].
    exists ts. split; [exact Hlen|]. split.
    + unfold blocking_prelude. now rewrite <- !app_assoc.
    + intros i ti Hi. exact (Hnth i ti Hi).
Qed.

(** ** Resolution happens once *)

Lemma failed_attempt_resolutions (uds : string) (max_attempts : nat) (delay : Q)
  (i : nat) (t : trace) :
  failed_attempt not_resolution uds max_attempts delay i t -> resolutions t = 0.
Proof.
  intros [body [-> Hq]]. cbn [resolutions].
  rewrite resolutions_app, (resolutions_quiet body Hq). reflexivity.
Qed.

Lemma successful_attempt_resolutions (uds : string) (max_attempts : nat)
  (i : nat) (t : trace) :
  successful_attempt not_resolution uds max_attempts i t -> resolutions t = 0.
Proof.
  intros [body [-> Hq]]. cbn [resolutions].
  rewrite resolutions_app, (resolutions_quiet body Hq). reflexivity.
Qed.

Lemma failed_attempts_resolutions (uds : string) (max_attempts : nat) (delay : Q)
  (ts : list trace) :
  (forall i ti, nth_error ts i = Some ti ->
                failed_attempt not_resolution uds max_attempts delay i ti) ->
  resolutions (concat ts) = 0.
Proof.
  induction ts as [|t ts IH] using rev_ind; intros H; [reflexivity|].
  rewrite concat_app, resolutions_app. simpl. rewrite app_nil_r.
  rewrite IH.
  - apply (failed_attempt_resolutions uds max_attempts delay (length ts)).
    apply H. rewrite nth_error_app2, Nat.sub_diag; [reflexivity | apply Nat.le_refl].
  - intros i ti Hi. apply H. rewrite nth_error_app1; [exact Hi|].
    apply nth_error_Some. congruence.
Qed.

Lemma blocking_prelude_resolutions (w : world) : resolutions (blocking_prelude w) = 1.
Proof.
  unfold blocking_prelude. rewrite resolutions_app.
  destruct (resolution_trace_counts w ProcessMsg) as [_ [_ [-> _]]].
  cbn [resolutions]. induction (processes w) as [|p ps IH]; [reflexivity | exact IH].
Qed.

(** ** An endpoint that refuses every connection *)

Lemma async_refused_attempt {lib : PyLib} (fuel : nat) (uds : string)
  (max_attempts : nat) (delay : Q) (attempt : nat) (n : net) :
  Forall refuses (pending n) ->
  exists n',
    Async.attempt_once fuel uds max_attempts delay attempt n
    = (async_refused_pass uds max_attempts delay attempt, n', Normal tt)
    /\ Forall refuses (pending n').
Proof.
  intros Hn. unfold Async.attempt_once, Async.handshake, try_except, bind,
    logging_debug, logging_error, sleep, emit, connect.
  destruct (pending n) as [|c rest] eqn:Hp; simpl.
  - exists n. split; [reflexivity | now rewrite Hp].
  - inversion Hn as [|? ? Hc Hrest]; subst. unfold refuses in Hc. rewrite Hc. simpl.
    eexists. split; [reflexivity | exact Hrest].
Qed.

Lemma blocking_refused_attempt {lib : PyLib} (uds : string)
  (klipper_api_key : option string) (max_attempts : nat) (delay : Q)
  (attempt : nat) (n : net) :
  Forall refuses (pending n) ->
  exists n',
    Blocking.attempt_once uds klipper_api_key max_attempts delay attempt n
    = (blocking_refused_pass uds max_attempts delay attempt, n', Normal Blocking.Next)
    /\ Forall refuses (pending n').
Proof.
  intros Hn. unfold Blocking.attempt_once, closing, Blocking.session, try_except,
    bind, logging_debug, logging_error, sleep, emit.
  rewrite connect_or_continue_run. unfold connect.
  destruct (pending n) as [|c rest] eqn:Hp; simpl.
  - exists n. split; [reflexivity | now rewrite Hp].
  - inversion Hn as [|? ? Hc Hrest]; subst. unfold refuses in Hc. rewrite Hc. simpl.
    eexists. split; [reflexivity | exact Hrest].
Qed.

Lemma async_refused_loop {lib : PyLib} (fuel : nat) (uds : string)
  (max_attempts : nat) (delay : Q) (len : nat) :
  forall (start : nat) (n : net),
  Forall refuses (pending n) ->
  exists n',
    for_each (seq start len) (Async.attempt_once fuel uds max_attempts delay) n
    = (flat_map (async_refused_pass uds max_attempts delay) (seq start len), n',
       Normal tt).
Proof.
  induction len as [|len IH]; intros start n Hn; simpl.
  - now exists n.
  - destruct (async_refused_attempt fuel uds max_attempts delay start n Hn)
      as [n1 [H1 Hn1]].
    destruct (IH (S start) n1 Hn1) as [n2 H2].
    exists n2. unfold bind. now rewrite H1, H2.
Qed.

Lemma blocking_refused_loop {lib : PyLib} (uds : string)
  (klipper_api_key : option string) (max_attempts : nat) (delay : Q) (len : nat) :
  forall (start : nat) (n : net),
  Forall refuses (pending n) ->
  exists n',
    Blocking.for_attempts (seq start len)
      (Blocking.attempt_once uds klipper_api_key max_attempts delay) n
    = (flat_map (blocking_refused_pass uds max_attempts delay) (seq start len), n',
       Normal false).
Proof.
  induction len as [|len IH]; intros start n Hn; simpl.
  - now exists n.
  - destruct (blocking_refused_attempt uds klipper_api_key max_attempts delay start n Hn)
      as [n1 [H1 Hn1]].
    destruct (IH (S start) n1 Hn1) as [n2 H2].
    exists n2. unfold bind. now rewrite H1, H2.
Qed.

Lemma refused_passes_counts (pass : nat -> trace) (d : Q) (xs : list nat) :
  (forall i, connects (pass i) = 1 /\ sleeps (pass i) = [d]) ->
  connects (flat_map pass xs) = length xs /\
  sleeps (flat_map pass xs) = repeat d (length xs).
Proof.
  intros Hp. induction xs as [|x xs [IHc IHs]]; simpl; [now split|].
  destruct (Hp x) as [Hc Hs].
  rewrite connects_app, sleeps_app, Hc, Hs, IHc, IHs. now split.
Qed.

(** ** The first request and its reply *)

Lemma bind_emit {B : Type} (ev : event) (k : unit -> Py B) (n : net) :
  bind (emit ev) k n = let '(t, n', r) := k tt n in (ev :: t, n', r).
Proof. reflexivity. Qed.

Lemma sent_bind_write {B : Type} (data : string) (k : unit -> Py B) (n : net) :
  exists rest, sent (trace_of (bind (write_all data) k n)) = data :: rest.
Proof.
  unfold bind, write_all, trace_of.
  destruct (sends_left n) as [|[e|] ss]; simpl.
  - destruct (k tt n) as [[t n'] r]. now eexists.
  - now eexists.
  - match goal with |- context [k tt ?n1] => destruct (k tt n1) as [[t n'] r] end.
    now eexists.
Qed.

Lemma async_converse_first_send {lib : PyLib} (fuel : nat) (n : net) :
  exists rest,
    sent (trace_of (Async.converse fuel n)) = frame Async.list_request :: rest.
Proof.
  unfold Async.converse, Async.send_request, logging_debug.
  rewrite bind_emit.
  match goal with |- context [bind (write_all ?d) ?k n] =>
    destruct (sent_bind_write d k n) as [rest Hs];
    unfold trace_of in *;
    destruct (bind (write_all d) k n) as [[t n'] r]
  end.
  simpl in *. now exists rest.
Qed.

Lemma blocking_dialogue_first_send {lib : PyLib} (klipper_api_key : option string)
  (n : net) :
  exists rest,
    sent (trace_of (Blocking.dialogue klipper_api_key n))
    = frame Blocking.list_request :: rest.
Proof.
  unfold Blocking.dialogue, logging_debug.
  rewrite bind_emit.
  match goal with |- context [bind (write_all ?d) ?k n] =>
    destruct (sent_bind_write d k n) as [rest Hs];
    unfold trace_of in *;
    destruct (bind (write_all d) k n) as [[t n'] r]
  end.
  simpl in *. now exists rest.
Qed.

(** In a pass of the asyncio client nothing is sent before the listing
    request. *)
Lemma async_first_send {lib : PyLib} (fuel : nat) (uds : string)
  (max_attempts : nat) (delay : Q) (attempt : nat) (n : net) :
  match sent (trace_of (Async.attempt_once fuel uds max_attempts delay attempt n)) with
  | [] => True
  | first :: _ => first = frame Async.list_request
  end.
Proof.
  unfold Async.attempt_once, Async.handshake, try_except, bind,
    logging_debug, logging_error, sleep, emit, connect, trace_of.
  destruct (pending n) as [|c rest]; simpl; [exact I|].
  destruct (connect_error c) as [e|]; simpl.
  - destruct (is_parse_error e); simpl; [exact I|].
    destruct (is_Exception e); simpl; exact I.
  - match goal with |- context [Async.converse fuel ?n1] =>
      destruct (async_converse_first_send fuel n1) as [more Hs];
      unfold trace_of in Hs;
      destruct (Async.converse fuel n1) as [[t2 n2] [[]|e| |]]
    end; simpl in *.
    + rewrite sent_app, Hs. reflexivity.
    + destruct (is_parse_error e); simpl;
        [|destruct (is_Exception e); simpl];
        rewrite ?sent_app, Hs; reflexivity.
    + rewrite Hs. reflexivity.
    + rewrite Hs. reflexivity.
Qed.

(** Nor in a pass of the blocking client. *)
Lemma blocking_first_send {lib : PyLib} (uds : string)
  (klipper_api_key : option string) (max_attempts : nat) (delay : Q)
  (attempt : nat) (n : net) :
  match sent (trace_of
                (Blocking.attempt_once uds klipper_api_key max_attempts delay attempt n))
  with
  | [] => True
  | first :: _ => first = frame Blocking.list_request
  end.
Proof.
  unfold Blocking.attempt_once, closing, Blocking.session, try_except.
  unfold bind at 1 2 3, logging_debug at 1, emit at 1.
  rewrite connect_or_continue_run. unfold connect, trace_of.
  destruct (pending n) as [|c rest]; simpl; [exact I|].
  destruct (connect_error c) as [e|]; simpl.
  - destruct (is_socket_error e); simpl; [exact I|].
    destruct (is_socket_timeout e); simpl; [exact I|].
    destruct (is_Exception e); simpl; exact I.
  - match goal with |- context [Blocking.dialogue klipper_api_key ?n1] =>
      destruct (blocking_dialogue_first_send klipper_api_key n1) as [more Hs];
      unfold trace_of in Hs;
      destruct (Blocking.dialogue klipper_api_key n1) as [[t2 n2] [[| |]|e| |]]
    end; simpl in *;
      try (destruct (is_socket_timeout e); simpl;
           [|destruct (is_Exception e); simpl]);
      rewrite ?sent_app, Hs; reflexivity.
Qed.

Lemma bind_run {A B : Type} (m : Py A) (k : A -> Py B) (n n' : net) (t : trace) (a : A) :
  m n = (t, n', Normal a) ->
  bind m k n = let '(t', n'', r) := k a n' in (t ++ t', n'', r).
Proof. intros H. unfold bind. now rewrite H. Qed.

Lemma bind_raised {A B : Type} (m : Py A) (k : A -> Py B) (n n' : net) (t : trace)
  (e : exn) :
  m n = (t, n', Raised e) -> bind m k n = (t, n', Raised e).
Proof. intros H. unfold bind. now rewrite H. Qed.

Lemma bind_ret {A B : Type} (a : A) (k : A -> Py B) (n : net) :
  bind (ret a) k n = k a n.
Proof. unfold bind, ret. now destruct (k a n) as [[t n'] r]. Qed.

Lemma bind_raise {A B : Type} (e : exn) (k : A -> Py B) (n : net) :
  bind (raise e) k n = raise e n.
Proof. reflexivity. Qed.

Lemma connect_run (uds : string) (n : net) (c : conn) (rest : list conn) :
  pending n = c :: rest ->
  connect_error c = None ->
  connect uds n = ([EConnect uds], connected c rest, Normal tt).
Proof. intros Hp Hc. unfold connect. now rewrite Hp, Hc. Qed.

(** The asyncio client's conversation when the listing's reply has no
    [result]: nothing more is sent. *)
Lemma async_converse_without_result {lib : PyLib} (fuel : nat) (n0 n1 n2 : net)
  (tr : trace) (response : string) (data : json) :
  write_all (frame Async.list_request) n0
  = ([ESend (frame Async.list_request)], n1, Normal tt) ->
  Async.receive_response n1 = (tr, n2, Normal response) ->
  nonempty response = true ->
  json_loads response = Some data ->
  py_in "result" data = inr false ->
  Async.converse fuel n0
  = match py_get data "error" (JStr "Unknown error") with
    | inr err =>
      (ELog LvlDebug (Text "Connected to Unix Domain Socket")
       :: ESend (frame Async.list_request)
       :: tr ++ [ELog LvlDebug (TextStr "Received response: " response);
                 ELog LvlDebug (TextJson "Parsed response: " data);
                 ELog LvlError (TextJson "Error in objects/list: " err)],
       n2, Normal tt)
    | inl e =>
      (ELog LvlDebug (Text "Connected to Unix Domain Socket")
       :: ESend (frame Async.list_request)
       :: tr ++ [ELog LvlDebug (TextStr "Received response: " response);
                 ELog LvlDebug (TextJson "Parsed response: " data)],
       n2, Raised e)
    end.
Proof.
  intros Hw Hr Hne Hj Hin.
  unfold Async.converse, Async.send_request, logging_debug, logging_error.
  rewrite bind_emit, (bind_run _ _ _ _ _ _ Hw), (bind_run _ _ _ _ _ _ Hr), bind_emit.
  rewrite Hne. unfold loads. rewrite Hj, bind_ret, bind_emit, Hin.
  cbn [lift]. rewrite bind_ret.
  destruct (py_get data "error" (JStr "Unknown error")) as [e|err]; cbn [lift].
  - rewrite bind_raise. reflexivity.
  - rewrite bind_ret. reflexivity.
Qed.

Lemma async_attempt_without_result {lib : PyLib} (fuel : nat) (uds : string)
  (max_attempts : nat) (delay : Q) (attempt : nat) (n n1 n2 : net) (c : conn)
  (rest : list conn) (tr : trace) (response : string) (data : json) :
  pending n = c :: rest ->
  connect_error c = None ->
  write_all (frame Async.list_request) (connected c rest)
  = ([ESend (frame Async.list_request)], n1, Normal tt) ->
  Async.receive_response n1 = (tr, n2, Normal response) ->
  nonempty response = true ->
  json_loads response = Some data ->
  py_in "result" data = inr false ->
  Async.attempt_once fuel uds max_attempts delay attempt n
  = (ELog LvlDebug (AttemptMsg uds (attempt + 1) max_attempts)
     :: EConnect uds
     :: ELog LvlDebug (Text "Connected to Unix Domain Socket")
     :: ESend (frame Async.list_request)
     :: tr ++ [ELog LvlDebug (TextStr "Received response: " response);
               ELog LvlDebug (TextJson "Parsed response: " data);
               ELog LvlError (listing_error_line data);
               ESleep delay],
     n2, Normal tt).
Proof.
  intros Hp Hc Hw Hr Hne Hj Hin.
  pose proof (async_converse_without_result fuel _ _ _ _ _ _ Hw Hr Hne Hj Hin) as Hconv.
  unfold Async.attempt_once, Async.handshake, logging_debug, listing_error_line.
  unfold bind at 1. unfold try_except.
  rewrite bind_emit, (bind_run _ _ _ _ _ _ (connect_run uds n c rest Hp Hc)), Hconv.
  assert (Hattr : forall e, py_get data "error" (JStr "Unknown error") = inl e ->
                            e = AttributeError).
  { intros e. unfold py_get. destruct data; try (intros [= <-]; reflexivity).
    destruct (assoc "error" fields); discriminate. }
  destruct (py_get data "error" (JStr "Unknown error")) as [e|err].
  - rewrite (Hattr e eq_refl). cbn.
    rewrite <- !app_assoc. reflexivity.
  - cbn. rewrite <- !app_assoc. reflexivity.
Qed.

(** Compares two traces up to the bracketing of [++]. *)
Ltac same_trace := cbn; repeat (rewrite <- app_assoc; cbn); reflexivity.

(** The blocking client's pass when the listing's reply has no
    [result]: a warning, no status query, and the wait before the next
    pass. *)
Lemma blocking_attempt_without_result {lib : PyLib} (uds : string)
  (klipper_api_key : option string) (max_attempts : nat) (delay : Q) (attempt : nat)
  (n n1 n2 : net) (c : conn) (rest : list conn) (tr : trace) (response : string)
  (data : json) :
  pending n = c :: rest ->
  connect_error c = None ->
  write_all (frame Blocking.list_request) (connected c rest)
  = ([ESend (frame Blocking.list_request)], n1, Normal tt) ->
  Blocking.receive_response n1 = (tr, n2, Normal response) ->
  json_loads response = Some data ->
  py_in "result" data = inr false ->
  Blocking.attempt_once uds klipper_api_key max_attempts delay attempt n
  = (ELog LvlDebug (AttemptMsg uds (attempt + 1) max_attempts)
     :: EConnect uds
     :: ELog LvlDebug (Text "Connected to Unix Domain Socket")
     :: ESend (frame Blocking.list_request)
     :: ELog LvlDebug (Text "Sent JSON-RPC request for objects/list")
     :: tr ++ [ELog LvlDebug (TextStr "Received response: " response);
               ELog LvlWarning (Text "API request failed. Retrying...");
               EClose;
               ESleep delay],
     n2, Normal Blocking.Next).
Proof.
  intros Hp Hc Hw Hr Hj Hin.
  assert (Hex : Blocking.exchange klipper_api_key n1
    = (tr ++ [ELog LvlDebug (TextStr "Received response: " response);
              ELog LvlWarning (Text "API request failed. Retrying...")],
       n2, Normal Blocking.Next)).
  { unfold Blocking.exchange, logging_debug, logging_warning.
    rewrite (bind_run _ _ _ _ _ _ Hr), bind_emit. unfold loads.
    rewrite Hj, bind_ret, Hin. cbn [lift]. rewrite bind_ret, bind_emit. reflexivity. }
  unfold Blocking.attempt_once, closing, Blocking.session, logging_debug.
  unfold bind at 1. unfold try_except at 1.
  rewrite bind_emit.
  assert (Hcc : Blocking.connect_or_continue uds n
                = ([EConnect uds], connected c rest, Normal Blocking.Next)).
  { rewrite connect_or_continue_run, (connect_run uds n c rest Hp Hc). reflexivity. }
  rewrite (bind_run _ _ _ _ _ _ Hcc).
  unfold Blocking.dialogue, logging_debug.
  rewrite bind_emit, (bind_run _ _ _ _ _ _ Hw), bind_emit.
  unfold try_except. rewrite Hex. same_trace.
Qed.

(** The blocking client's pass when the listing succeeds and the reply
    to the status query has no [result]: an error is logged, nothing is
    printed as a status, and the pass ends as a failed one. *)
Lemma blocking_attempt_query_without_result {lib : PyLib} (uds : string)
  (klipper_api_key : option string) (max_attempts : nat) (delay : Q) (attempt : nat)
  (n n1 n2 n3 n4 : net) (c : conn) (rest : list conn) (tr1 tr2 : trace)
  (response1 response2 : string) (data1 result1 objects data2 : json) :
  pending n = c :: rest ->
  connect_error c = None ->
  write_all (frame Blocking.list_request) (connected c rest)
  = ([ESend (frame Blocking.list_request)], n1, Normal tt) ->
  Blocking.receive_response n1 = (tr1, n2, Normal response1) ->
  json_loads response1 = Some data1 ->
  py_in "result" data1 = inr true ->
  py_getitem data1 "result" = inr result1 ->
  py_getitem result1 "objects" = inr objects ->
  write_all (frame (Blocking.query_request klipper_api_key)) n2
  = ([ESend (frame (Blocking.query_request klipper_api_key))], n3, Normal tt) ->
  Blocking.receive_response n3 = (tr2, n4, Normal response2) ->
  json_loads response2 = Some data2 ->
  py_in "result" data2 = inr false ->
  Blocking.attempt_once uds klipper_api_key max_attempts delay attempt n
  = (ELog LvlDebug (AttemptMsg uds (attempt + 1) max_attempts)
     :: EConnect uds
     :: ELog LvlDebug (Text "Connected to Unix Domain Socket")
     :: ESend (frame Blocking.list_request)
     :: ELog LvlDebug (Text "Sent JSON-RPC request for objects/list")
     :: tr1 ++ [ELog LvlDebug (TextStr "Received response: " response1);
                ELog LvlDebug (Text "API request succeeded");
                EPrint (TextJson "Available objects: " objects);
                ESend (frame (Blocking.query_request klipper_api_key));
                ELog LvlDebug (Text "Sent JSON-RPC request for toolhead and print_stats")]
     ++ tr2 ++ [ELog LvlDebug (TextStr "Received response: " response2);
                ELog LvlError (Text "Error: Failed to retrieve printer status.");
                EClose;
                ESleep delay],
     n4, Normal Blocking.Next).
Proof.
  intros Hp Hc Hw1 Hr1 Hj1 Hin1 Hres Hobj Hw2 Hr2 Hj2 Hin2.
  assert (Hex : Blocking.exchange klipper_api_key n1
    = (tr1 ++ [ELog LvlDebug (TextStr "Received response: " response1);
               ELog LvlDebug (Text "API request succeeded");
               EPrint (TextJson "Available objects: " objects);
               ESend (frame (Blocking.query_request klipper_api_key));
               ELog LvlDebug (Text "Sent JSON-RPC request for toolhead and print_stats")]
       ++ tr2 ++ [ELog LvlDebug (TextStr "Received response: " response2);
                  ELog LvlError (Text "Error: Failed to retrieve printer status.")],
       n4, Normal Blocking.Next)).
  { unfold Blocking.exchange, logging_debug, logging_warning, logging_error, print.
    rewrite (bind_run _ _ _ _ _ _ Hr1), bind_emit. unfold loads.
    rewrite Hj1, bind_ret, Hin1. cbn [lift]. rewrite bind_ret, bind_emit.
    rewrite Hres. cbn [lift]. rewrite bind_ret, Hobj. cbn [lift].
    rewrite bind_ret, bind_emit, (bind_run _ _ _ _ _ _ Hw2), bind_emit.
    rewrite (bind_run _ _ _ _ _ _ Hr2), bind_emit.
    rewrite Hj2, bind_ret, Hin2. cbn [lift]. rewrite bind_ret, bind_emit.
    same_trace. }
  unfold Blocking.attempt_once, closing, Blocking.session, logging_debug.
  unfold bind at 1. unfold try_except at 1.
  rewrite bind_emit.
  assert (Hcc : Blocking.connect_or_continue uds n
                = ([EConnect uds], connected c rest, Normal Blocking.Next)).
  { rewrite connect_or_continue_run, (connect_run uds n c rest Hp Hc). reflexivity. }
  rewrite (bind_run _ _ _ _ _ _ Hcc).
  unfold Blocking.dialogue, logging_debug.
  rewrite bind_emit, (bind_run _ _ _ _ _ _ Hw1), bind_emit.
  unfold try_except. rewrite Hex. same_trace.
Qed.

Lemma async_read_loop_sends_nothing (rd : list read_event) :
  forall acc, sent (fst (fst (Async.read_loop rd acc))) = [].
Proof.
  induction rd as [|[chunk|e|] rd IH]; intros acc; simpl.
  - reflexivity.
  - destruct (nonempty chunk); [|reflexivity].
    destruct (contains_etx (acc ++ chunk)); [reflexivity | apply IH].
  - destruct (is_Exception e); reflexivity.
  - reflexivity.
Qed.

Lemma async_receive_sends_nothing (n n' : net) (t : trace) (r : outcome string) :
  Async.receive_response n = (t, n', r) -> sent t = [].
Proof.
  unfold Async.receive_response.
  pose proof (async_read_loop_sends_nothing (reads_left n) EmptyString) as H.
  destruct (Async.read_loop (reads_left n) EmptyString) as [[t0 rd] [data|e| |]];
    simpl in H.
  - destruct (decode (before_etx data)); intros [= <- _ _]; exact H.
  - intros [= <- _ _]. exact H.
  - intros [= <- _ _]. exact H.
  - intros [= <- _ _]. exact H.
Qed.

Lemma blocking_receive_sends_nothing (n n' : net) (t : trace) (r : outcome string) :
  Blocking.receive_response n = (t, n', r) -> sent t = [].
Proof.
  intros H. pose proof (blocking_receive_silent n) as Hs.
  rewrite H in Hs. unfold trace_of in Hs. simpl in Hs. now subst t.
Qed.

Lemma error_reply_has_no_result (fields : list (string * json)) (err : json) :
  assoc "error" fields = Some err ->
  has_key "result" fields = false ->
  py_in "result" (JObj fields) = inr false /\
  listing_error_line (JObj fields) = TextJson "Error in objects/list: " err.
Proof.
  intros He Hr. unfold py_in, listing_error_line, py_get.
  now rewrite He, Hr.
Qed.

(** The blocking client's reply is everything received before the
    stream ends, with terminators stripped at its two ends only. *)
Lemma blocking_recv_all (chunks : list string) :
  forall acc,
  Forall (fun c => nonempty c = true) chunks ->
  Blocking.recv_loop (arriving chunks) acc
  = ([], [], Normal (acc ++ bytes_of chunks)%string).
Proof.
  induction chunks as [|c cs IH]; intros acc H; simpl.
  - now rewrite append_empty_r.
  - inversion H as [|? ? Hc Hcs]; subst. rewrite Hc, (IH _ Hcs).
    now rewrite append_assoc.
Qed.

Lemma blocking_receive_all (n : net) (chunks : list string) :
  reads_left n = arriving chunks ->
  Forall (fun c => nonempty c = true) chunks ->
  utf8_valid (bytes_of chunks) = true ->
  Blocking.receive_response n
  = ([], set_reads [] n, Normal (strip_etx (bytes_of chunks))).
Proof.
  intros Hrd Hne Hutf. unfold Blocking.receive_response.
  rewrite Hrd, (blocking_recv_all chunks EmptyString Hne). simpl.
  unfold decode. now rewrite Hutf.
Qed.

(** The asyncio client's conversation when the first frame after the
    listing request has a [result] with [objects]: it subscribes and
    starts the update loop. *)
Lemma async_converse_with_result {lib : PyLib} (fuel : nat) (n0 n1 n2 n3 : net)
  (tr : trace) (response : string) (data result objects : json) (objs : list json) :
  write_all (frame Async.list_request) n0
  = ([ESend (frame Async.list_request)], n1, Normal tt) ->
  Async.receive_response n1 = (tr, n2, Normal response) ->
  nonempty response = true ->
  json_loads response = Some data ->
  py_in "result" data = inr true ->
  py_getitem data "result" = inr result ->
  py_getitem result "objects" = inr objects ->
  py_iter objects = inr objs ->
  write_all (frame Async.subscribe_request) n2
  = ([ESend (frame Async.subscribe_request)], n3, Normal tt) ->
  Async.converse fuel n0
  = let '(t', n', r) := Async.listen fuel n3 in
    (ELog LvlDebug (Text "Connected to Unix Domain Socket")
     :: ESend (frame Async.list_request)
     :: tr ++ [ELog LvlDebug (TextStr "Received response: " response);
               ELog LvlDebug (TextJson "Parsed response: " data);
               ELog LvlDebug (Text "API request succeeded");
               EPrint (Text "Available objects:")]
     ++ map (fun obj => EPrint (TextJson "  - " obj)) objs
     ++ [EPrint TimeTakenMsg;
         ESend (frame Async.subscribe_request);
         ELog LvlDebug (Text "Sent JSON-RPC request to subscribe to printer objects")]
     ++ t',
     n', r).
Proof.
  intros Hw Hr Hne Hj Hin Hres Hobj Hit Hsub.
  unfold Async.converse, Async.send_request, logging_debug, logging_error, print.
  rewrite bind_emit, (bind_run _ _ _ _ _ _ Hw), (bind_run _ _ _ _ _ _ Hr), bind_emit.
  rewrite Hne. unfold loads. rewrite Hj, bind_ret, bind_emit, Hin.
  cbn [lift]. rewrite bind_ret, bind_emit, Hres. cbn [lift].
  rewrite bind_ret, Hobj. cbn [lift]. rewrite bind_ret, bind_emit, Hit. cbn [lift].
  rewrite bind_ret.
  rewrite (bind_run _ _ _ _ _ _ (for_each_emit (fun obj => EPrint (TextJson "  - " obj))
                                   objs n2)).
  rewrite bind_emit, (bind_run _ _ _ _ _ _ Hsub), bind_emit.
  destruct (Async.listen fuel n3) as [[t' n'] r]. same_trace.
Qed.

(** ** The update loop *)

Lemma receive_at_end (n : net) :
  reads_left n = [] ->
  Async.receive_response n = ([], set_reads [] n, Normal EmptyString).
Proof. intros H. unfold Async.receive_response. now rewrite H. Qed.

(** With the stream at its end a pass of the loop reads an empty update
    and sleeps; the loop never leaves. *)
Lemma listen_idle {lib : PyLib} (fuel : nat) :
  forall n, reads_left n = [] ->
  Async.listen fuel n = (repeat (ESleep 1) fuel, set_reads [] n, OutOfFuel).
Proof.
  induction fuel as [|fuel IH]; intros n Hn.
  - cbn. unfold out_of_fuel. destruct n as [ss rd p]. simpl in Hn. now subst rd.
  - cbn [Async.listen]. unfold try_except, Async.receive_update.
    unfold bind at 1 2 3. rewrite (receive_at_end n Hn). cbn.
    rewrite (IH (set_reads [] n) eq_refl). reflexivity.
Qed.

Lemma listen_update {lib : PyLib} (fuel : nat) (n : net) (u : update)
  (later : list read_event) :
  well_framed u ->
  reads_left n = arriving (u_chunks u) ++ later ->
  Async.listen (S fuel) n
  = let '(t', n', r) := Async.listen fuel (set_reads later n) in
    (EPrint (Text (u_line u)) :: t', n', r).
Proof.
  intros [Hcuts [Hetx [Hutf [Hne [data [params [status [Hj [Hin [Hp [Hs Hprint]]]]]]]]]]] Hrd.
  pose proof (receive_frame n (u_chunks u) (u_text u) later Hrd Hcuts Hetx Hutf) as Hr.
  assert (Hup : Async.receive_update n
                = ([EPrint (Text (u_line u))], set_reads later n, Normal tt)).
  { unfold Async.receive_update. rewrite (bind_run _ _ _ _ _ _ Hr), Hne.
    unfold loads. rewrite Hj, bind_ret, Hin. cbn [lift].
    rewrite bind_ret, Hp. cbn [lift]. rewrite bind_ret, Hs. cbn [lift].
    rewrite bind_ret, Hprint. reflexivity. }
  cbn [Async.listen]. unfold try_except.
  unfold bind at 1 2. rewrite Hup. cbn.
  destruct (Async.listen fuel (set_reads later n)) as [[t' n'] r]. reflexivity.
Qed.

(** The loop prints one line per update, in order, and then polls for
    as long as it is given fuel. *)
Lemma listen_pushed {lib : PyLib} (updates : list update) :
  forall (n : net) (more : nat),
  Forall well_framed updates ->
  reads_left n = pushed updates ->
  Async.listen (length updates + more) n
  = (map (fun u => EPrint (Text (u_line u))) updates ++ repeat (ESleep 1) more,
     set_reads [] n, OutOfFuel).
Proof.
  induction updates as [|u us IH]; intros n more Hall Hrd.
  - apply listen_idle. exact Hrd.
  - inversion Hall as [|? ? Hu Hus]; subst.
    cbn [length Nat.add]. rewrite (listen_update _ n u (pushed us) Hu Hrd).
    rewrite (IH (set_reads (pushed us) n) more Hus eq_refl). reflexivity.
Qed.

Lemma listen_never_returns {lib : PyLib} (updates : list update) (n : net) (fuel : nat) :
  Forall well_framed updates ->
  reads_left n = pushed updates ->
  outcome_of (Async.listen fuel n) = OutOfFuel.
Proof.
  intros Hall Hrd.
  destruct (async_listen_extends fuel (length updates) n) as [E|E]; [|exact E].
  rewrite E, Nat.add_comm, (listen_pushed updates n fuel Hall Hrd). reflexivity.
Qed.

(** The loop ends without an exception only through one of its two
    handlers: the last thing it emits is the farewell of
    [KeyboardInterrupt] or the error line of an [Exception]. *)
Lemma listen_leaves_through_handler {lib : PyLib} (fuel : nat) :
  forall (n n' : net) (t : trace),
  Async.listen fuel n = (t, n', Normal tt) ->
  exists t0 ev,
    t = t0 ++ [ev] /\
    (ev = EPrint (Text (newline ++ "Stopped listening for updates.")%string) \/
     exists e, ev = ELog LvlError (TextExn "Error while receiving updates: " e)).
Proof.
  induction fuel as [|fuel IH]; intros n n' t H.
  - discriminate H.
  - cbn [Async.listen] in H. unfold try_except in H. unfold bind at 1 2 in H.
    destruct (Async.receive_update n) as [[t1 n1] [[]|e| |]]; cbn in H.
    + destruct (Async.listen fuel n1) as [[t2 n2] r2] eqn:Hl.
      injection H as <- <- ->.
      destruct (IH n1 n2 t2 Hl) as [t0 [ev [-> Hev]]].
      exists (t1 ++ t0), ev. split; [|exact Hev].
      rewrite app_nil_r. now rewrite app_assoc.
    + destruct e; cbn in H; try discriminate H; injection H as <- <-;
        (eexists; eexists; split;
         [ rewrite app_nil_r; reflexivity
         | first [left; reflexivity | right; eexists; reflexivity] ]).
    + discriminate H.
    + discriminate H.
Qed.

Lemma pushed_notification_well_framed : @well_framed MiniJson.lib pushed_notification.
Proof.
  split; [split; [repeat constructor | reflexivity]|].
  split; [reflexivity|]. split; [reflexivity|]. split; [reflexivity|].
  eexists. eexists. eexists.
  split; [reflexivity|]. split; [reflexivity|]. split; [reflexivity|].
  split; [reflexivity|]. intros n. reflexivity.
Qed.

(** ** Where a reply ends *)

(** The blocking client's reply is everything received before the
    read that ends it, whichever way it ends. *)
Lemma blocking_recv_until (chunks : list string) (stop later : list read_event) :
  forall acc,
  Forall (fun c => nonempty c = true) chunks ->
  ends_reply stop later ->
  Blocking.recv_loop (arriving chunks ++ stop) acc
  = ([], later, Normal (acc ++ bytes_of chunks)%string).
Proof.
  induction chunks as [|c cs IH]; intros acc Hne Hstop; simpl.
  - rewrite append_empty_r.
    destruct Hstop as [[-> ->]|[->|[->|[e [He ->]]]]]; simpl; try reflexivity.
    now rewrite He.
  - inversion Hne as [|? ? Hc Hcs]; subst.
    rewrite Hc, (IH _ Hcs Hstop), append_assoc. reflexivity.
Qed.

Lemma blocking_receive_until (n : net) (chunks : list string)
  (stop later : list read_event) :
  reads_left n = arriving chunks ++ stop ->
  ends_reply stop later ->
  Forall (fun c => nonempty c = true) chunks ->
  utf8_valid (bytes_of chunks) = true ->
  Blocking.receive_response n
  = ([], set_reads later n, Normal (strip_etx (bytes_of chunks))).
Proof.
  intros Hrd Hstop Hne Hutf. unfold Blocking.receive_response.
  rewrite Hrd, (blocking_recv_until chunks stop later EmptyString Hne Hstop). simpl.
  unfold decode. now rewrite Hutf.
Qed.

(** The asyncio client waits for ever on a peer that stalls before the
    terminator of a frame has arrived. *)
Lemma async_read_loop_stalls (chunks : list string) (later : list read_event) :
  forall acc,
  Forall (fun c => nonempty c = true) chunks ->
  contains_etx (acc ++ bytes_of chunks) = false ->
  Async.read_loop (arriving chunks ++ Stalls :: later) acc
  = ([], Stalls :: later, Hangs).
Proof.
  induction chunks as [|c cs IH]; intros acc Hne Hetx; simpl.
  - reflexivity.
  - inversion Hne as [|? ? Hc Hcs]; subst. rewrite Hc.
    simpl in Hetx. rewrite <- append_assoc in Hetx.
    assert (Hacc : contains_etx (acc ++ c) = false).
    { rewrite contains_etx_app in Hetx. now apply Bool.orb_false_iff in Hetx. }
    rewrite Hacc. exact (IH _ Hcs Hetx).
Qed.

Lemma async_receive_stalls (n : net) (chunks : list string) (later : list read_event) :
  reads_left n = arriving chunks ++ Stalls :: later ->
  Forall (fun c => nonempty c = true) chunks ->
  contains_etx (bytes_of chunks) = false ->
  Async.receive_response n = ([], set_reads (Stalls :: later) n, Hangs).
Proof.
  intros Hrd Hne Hetx. unfold Async.receive_response.
  now rewrite Hrd, (async_read_loop_stalls chunks later EmptyString Hne Hetx).
Qed.

Lemma bind_hangs {A B : Type} (m : Py A) (k : A -> Py B) (n n' : net) (t : trace) :
  m n = (t, n', Hangs) -> bind m k n = (t, n', Hangs).
Proof. intros H. unfold bind. now rewrite H. Qed.

(** ** The asyncio client against a peer that stalls *)

Lemma async_attempt_stalls {lib : PyLib} (fuel : nat) (uds : string)
  (max_attempts : nat) (delay : Q) (attempt : nat) (n n1 : net) (c : conn)
  (rest : list conn) (chunks : list string) (later : list read_event) :
  pending n = c :: rest ->
  connect_error c = None ->
  write_all (frame Async.list_request) (connected c rest)
  = ([ESend (frame Async.list_request)], n1, Normal tt) ->
  reads_left n1 = arriving chunks ++ Stalls :: later ->
  Forall (fun c => nonempty c = true) chunks ->
  contains_etx (bytes_of chunks) = false ->
  Async.attempt_once fuel uds max_attempts delay attempt n
  = ([ELog LvlDebug (AttemptMsg uds (attempt + 1) max_attempts);
      EConnect uds;
      ELog LvlDebug (Text "Connected to Unix Domain Socket");
      ESend (frame Async.list_request)],
     set_reads (Stalls :: later) n1, Hangs).
Proof.
  intros Hp Hc Hw Hrd Hne Hetx.
  pose proof (async_receive_stalls n1 chunks later Hrd Hne Hetx) as Hr.
  assert (Hconv : Async.converse fuel (connected c rest)
                  = ([ELog LvlDebug (Text "Connected to Unix Domain Socket");
                      ESend (frame Async.list_request)],
                     set_reads (Stalls :: later) n1, Hangs)).
  { unfold Async.converse, Async.send_request, logging_debug.
    rewrite bind_emit, (bind_run _ _ _ _ _ _ Hw), (bind_hangs _ _ _ _ _ Hr).
    reflexivity. }
  unfold Async.attempt_once, Async.handshake, logging_debug.
  unfold bind at 1. unfold try_except.
  rewrite bind_emit, (bind_run _ _ _ _ _ _ (connect_run uds n c rest Hp Hc)), Hconv.
  reflexivity.
Qed.

(** ** Runs of the asyncio client, however they end *)

Lemma for_each_stops {A : Type} (body : A -> Py unit) (xs : list A) :
  forall n t n' r,
  for_each xs body n = (t, n', r) ->
  r <> Normal tt ->
  exists xs1 x xs2 ts last n1,
    xs = xs1 ++ x :: xs2 /\
    t = concat ts ++ last /\
    Forall2 (fun x tx => exists n1 n2, body x n1 = (tx, n2, Normal tt)) xs1 ts /\
    body x n1 = (last, n', r).
Proof.
  induction xs as [|x xs IH]; intros n t n' r H Hr.
  - injection H as _ _ <-. now contradiction Hr.
  - simpl in H. unfold bind in H.
    destruct (body x n) as [[t1 n1] r1] eqn:Hx.
    destruct r1 as [[]|e| |].
    + destruct (for_each xs body n1) as [[t2 n2] r2] eqn:Hxs.
      injection H as <- <- <-.
      destruct (IH n1 t2 n2 r2 Hxs Hr)
        as [xs1 [y [xs2 [ts [last [m [-> [-> [Hall Hlast]]]]]]]]].
      exists (x :: xs1), y, xs2, (t1 :: ts), last, m.
      split; [reflexivity|]. split; [simpl; now rewrite app_assoc|].
      split; [|exact Hlast]. constructor; [now exists n, n1 | exact Hall].
    + injection H as <- <- <-. exists [], x, xs, [], t1, n.
      repeat split; [constructor | exact Hx].
    + injection H as <- <- <-. exists [], x, xs, [], t1, n.
      repeat split; [constructor | exact Hx].
    + injection H as <- <- <-. exists [], x, xs, [], t1, n.
      repeat split; [constructor | exact Hx].
Qed.

Lemma seq_split (len : nat) (xs1 xs2 : list nat) (x : nat) :
  seq 0 len = xs1 ++ x :: xs2 ->
  x = length xs1 /\ length xs1 < len /\ xs1 = seq 0 (length xs1).
Proof.
  intros Hxs.
  assert (Hl : len = length xs1 + S (length xs2)).
  { pose proof (f_equal (@length nat) Hxs) as Hl.
    now rewrite length_seq, length_app in Hl. }
  assert (Hsplit : seq 0 len
                   = seq 0 (length xs1) ++ seq (0 + length xs1) (S (length xs2))).
  { rewrite <- seq_app. now rewrite <- Hl. }
  rewrite Hxs in Hsplit. apply app_same_length in Hsplit; [|now rewrite length_seq].
  destruct Hsplit as [H1 H2]. simpl in H2. injection H2 as Hx _.
  split; [exact Hx|]. split; [lia | exact H1].
Qed.

(** A pass that does not end normally has announced itself and
    connected, and has not slept. *)
Lemma async_attempt_unfinished {lib : PyLib} (fuel : nat) (uds : string)
  (max_attempts : nat) (delay : Q) (attempt : nat) (n : net) :
  outcome_of (Async.attempt_once fuel uds max_attempts delay attempt n) <> Normal tt ->
  unfinished_attempt not_resolution uds max_attempts attempt
    (trace_of (Async.attempt_once fuel uds max_attempts delay attempt n)).
Proof.
  unfold Async.attempt_once.
  match goal with |- context [try_except _ ?h] =>
    destruct (async_try_spec fuel uds max_attempts attempt h n eq_refl)
      as [body [Ht [Hq Hr]]];
    pose proof (then_sleep
      (try_except (Async.handshake fuel uds attempt max_attempts) h) delay n) as Hs
  end.
  match type of Hs with match ?o with _ => _ end => destruct o as [[]|e| |] eqn:Ho end;
    destruct Hs as [Hs1 Hs2]; rewrite Hs1, Hs2; intros Hne;
    try (now contradiction Hne);
    (exists body; rewrite Ht; split; [reflexivity | exact Hq]).
Qed.

Lemma unfinished_attempt_resolutions (uds : string) (max_attempts : nat)
  (i : nat) (t : trace) :
  unfinished_attempt not_resolution uds max_attempts i t -> resolutions t = 0.
Proof.
  intros [body [-> Hq]]. cbn [resolutions]. exact (resolutions_quiet body Hq).
Qed.

Lemma async_run_stops {lib : PyLib} (max_attempts : nat) (delay : Q) (fuel : nat)
  (w : world) (uds : string) (n n' : net) (t : trace) (r : outcome exit_point) :
  klipper_uds w = Some uds ->
  Async.get_printer_status_with max_attempts delay fuel w n = (t, n', r) ->
  (forall x, r <> Normal x) ->
  (forall e, r = Raised e -> is_Exception e = false) /\
  exists ts last,
    length ts < max_attempts /\
    t = resolution_trace w ProcessPidMsg ++ concat ts ++ last /\
    (forall i ti, nth_error ts i = Some ti ->
                  failed_attempt not_resolution uds max_attempts delay i ti) /\
    unfinished_attempt not_resolution uds max_attempts (length ts) last.
Proof.
  intros Huds H Hr. unfold Async.get_printer_status_with in H.
  unfold bind at 1 in H. rewrite async_resolve_run, Huds in H.
  unfold bind at 1 in H.
  destruct (for_each (seq 0 max_attempts)
              (Async.attempt_once fuel uds max_attempts delay) n)
    as [[t1 n1] r1] eqn:Hloop.
  assert (Hr1 : r1 <> Normal tt
                /\ r = match r1 with
                       | Normal _ => Normal ReturnExhausted
                       | Raised e => Raised e
                       | OutOfFuel => OutOfFuel
                       | Hangs => Hangs
                       end
                /\ t = resolution_trace w ProcessPidMsg ++ t1).
  { destruct r1 as [[]|e| |]; cbn in H; injection H as <- _ <-.
    - now contradiction (Hr ReturnExhausted).
    - repeat split; discriminate.
    - repeat split; discriminate.
    - repeat split; discriminate. }
  destruct Hr1 as [Hne [Hrr ->]].
  destruct (for_each_stops _ _ _ _ _ _ Hloop Hne)
    as [xs1 [x [xs2 [ts [last [m [Hxs [-> [Hall Hlast]]]]]]]]].
  pose proof (Forall2_length Hall) as Hlen.
  destruct (seq_split _ _ _ _ Hxs) as [-> [Hlt Hxs1]].
  rewrite Hxs1 in Hall. apply Forall2_seq in Hall. destruct Hall as [_ Hnth].
  pose proof (async_attempt_spec fuel uds max_attempts delay (length xs1) m) as [_ Hexc].
  pose proof (async_attempt_unfinished fuel uds max_attempts delay (length xs1) m) as Hunf.
  rewrite Hlast in Hexc, Hunf. unfold outcome_of, trace_of in Hexc, Hunf. simpl in Hexc, Hunf.
  split.
  - intros e He. subst r. destruct r1 as [[]|e1| |]; try discriminate He.
    injection He as <-. now apply Hexc.
  - exists ts, last. unfold trace in *. rewrite <- Hlen.
    split; [exact Hlt|]. split; [reflexivity|]. split.
    + intros i ti Hi. destruct (Hnth i ti Hi) as [n1' [n2' Hrun]].
      pose proof (proj1 (async_attempt_spec fuel uds max_attempts delay (0 + i) n1'))
        as Hspec.
      rewrite Hrun in Hspec. exact (Hspec eq_refl).
    + exact (Hunf Hne).
Qed.

(** ** Runs of the blocking client that an exception leaves *)

Lemma for_attempts_raised (body : nat -> Py Blocking.flow) :
  (forall x n, outcome_of (body x n) <> Normal Blocking.Continue) ->
  forall xs n t n' e,
  Blocking.for_attempts xs body n = (t, n', Raised e) ->
  exists xs1 x xs2 ts last m,
    xs = xs1 ++ x :: xs2 /\
    t = concat ts ++ last /\
    Forall2 (fun x tx => exists n1 n2, body x n1 = (tx, n2, Normal Blocking.Next)) xs1 ts /\
    body x m = (last, n', Raised e).
Proof.
  intros Hnc. induction xs as [|x xs IH]; intros n t n' e H.
  - discriminate H.
  - simpl in H. unfold bind in H. specialize (Hnc x n). unfold outcome_of in Hnc.
    destruct (body x n) as [[t1 n1] r1] eqn:Hx. simpl in Hnc.
    destruct r1 as [[| |]|e1| |]; try discriminate H.
    + destruct (Blocking.for_attempts xs body n1) as [[t2 n2] r2] eqn:Hxs.
      injection H as <- <- ->.
      destruct (IH n1 t2 n2 e Hxs)
        as [xs1 [y [xs2 [ts [last [m [-> [-> [Hall Hlast]]]]]]]]].
      exists (x :: xs1), y, xs2, (t1 :: ts), last, m.
      split; [reflexivity|]. split; [simpl; now rewrite app_assoc|].
      split; [|exact Hlast]. constructor; [now exists n, n1 | exact Hall].
    + now contradiction Hnc.
    + injection H as <- <- <-. exists [], x, xs, [], t1, n.
      repeat split; [constructor | exact Hx].
Qed.

(** A pass that an exception leaves has announced itself, connected
    and closed the socket, and has not slept. *)
Lemma blocking_attempt_raised {lib : PyLib} (uds : string)
  (klipper_api_key : option string) (max_attempts : nat) (delay : Q)
  (attempt : nat) (n n' : net) (t : trace) (e : exn) :
  Blocking.attempt_once uds klipper_api_key max_attempts delay attempt n
  = (t, n', Raised e) ->
  unfinished_attempt not_resolution uds max_attempts attempt t.
Proof.
  unfold Blocking.attempt_once. unfold bind.
  match goal with |- context [closing (try_except ?s ?h) n] =>
    destruct (closing (try_except s h) n) as [[t1 n1] r1] eqn:Hw;
    destruct (blocking_with_spec uds klipper_api_key max_attempts attempt h
                n n1 t1 r1 eq_refl Hw) as [body [Ht [Hq Hr]]]
  end.
  destruct r1 as [[| |]|e1| |]; try discriminate.
  intros [= <- _ _]. exists (body ++ [EClose]). split; [exact Ht|].
  apply Forall_app. split; [exact Hq | repeat constructor].
Qed.

Lemma blocking_run_raised {lib : PyLib} (max_attempts : nat) (delay : Q)
  (w : world) (uds : string) (n n' : net) (t : trace) (e : exn) :
  klipper_uds w = Some uds ->
  Blocking.get_printer_status_with max_attempts delay w n = (t, n', Raised e) ->
  exists ts last,
    length ts < max_attempts /\
    t = blocking_prelude w ++ concat ts ++ last /\
    (forall i ti, nth_error ts i = Some ti ->
                  failed_attempt not_resolution uds max_attempts delay i ti) /\
    unfinished_attempt not_resolution uds max_attempts (length ts) last.
Proof.
  intros Huds H. unfold Blocking.get_printer_status_with in H.
  unfold bind at 1 in H. rewrite blocking_resolve_run, Huds in H.
  unfold bind at 1, logging_debug at 1, emit at 1 in H.
  unfold bind at 1 in H.
  rewrite (for_each_emit (fun p => ECheckSystemd (p_name p))) in H.
  unfold bind in H.
  destruct (Blocking.for_attempts (seq 0 max_attempts)
              (Blocking.attempt_once uds (klipper_api_key w) max_attempts delay) n)
    as [[t1 n1] r1] eqn:Hloop.
  destruct r1 as [[|]|e1| |]; try discriminate H.
  injection H as <- _ <-.
  assert (Hnc : forall x m,
            outcome_of (Blocking.attempt_once uds (klipper_api_key w) max_attempts
                          delay x m) <> Normal Blocking.Continue).
  { intros x m Hc.
    pose proof (blocking_attempt_spec uds (klipper_api_key w) max_attempts delay x m) as Hs.
    now rewrite Hc in Hs. }
  destruct (for_attempts_raised _ Hnc _ _ _ _ _ Hloop)
    as [xs1 [x [xs2 [ts [last [m [Hxs [-> [Hall Hlast]]]]]]]]].
  pose proof (Forall2_length Hall) as Hlen.
  destruct (seq_split _ _ _ _ Hxs) as [-> [Hlt Hxs1]].
  rewrite Hxs1 in Hall. apply Forall2_seq in Hall. destruct Hall as [_ Hnth].
  exists ts, last. unfold trace in *. rewrite <- Hlen.
  split; [exact Hlt|]. split.
  - unfold blocking_prelude. rewrite ?app_nil_r.
    repeat (rewrite <- app_assoc; simpl). reflexivity.
  - split.
    + intros i ti Hi. destruct (Hnth i ti Hi) as [n1' [n2' Hrun]].
      pose proof (blocking_attempt_spec uds (klipper_api_key w) max_attempts delay
                    (0 + i) n1') as Hspec.
      rewrite Hrun in Hspec. exact Hspec.
    + exact (blocking_attempt_raised _ _ _ _ _ _ _ _ _ Hlast).
Qed.

(** ** A listing reply whose [result] cannot be used *)

Lemma getitem_raises (data : json) (k : string) (e : exn) :
  py_getitem data k = inl e -> is_Exception e = true.
Proof.
  unfold py_getitem. destruct data; try (intros [= <-]; reflexivity).
  destruct (assoc k fields); [discriminate | intros [= <-]; reflexivity].
Qed.

Lemma iter_raises (data : json) (e : exn) :
  py_iter data = inl e -> e = TypeError.
Proof. unfold py_iter. destruct data; try discriminate; now intros [= <-]. Qed.

(** One pass of the asyncio client whose conversation raises an
    [Exception]: the handler logs it and the pass goes on to the
    sleep. *)
Lemma async_attempt_caught {lib : PyLib} (fuel : nat) (uds : string)
  (max_attempts : nat) (delay : Q) (attempt : nat) (n n' : net) (c : conn)
  (rest : list conn) (t : trace) (e : exn) :
  pending n = c :: rest ->
  connect_error c = None ->
  Async.converse fuel (connected c rest) = (t, n', Raised e) ->
  is_Exception e = true ->
  Async.attempt_once fuel uds max_attempts delay attempt n
  = (ELog LvlDebug (AttemptMsg uds (attempt + 1) max_attempts)
     :: EConnect uds
     :: t ++ [ELog LvlError (failure_line e); ESleep delay],
     n', Normal tt).
Proof.
  intros Hp Hc Hconv He.
  unfold Async.attempt_once, Async.handshake, logging_debug, failure_line.
  unfold bind at 1. unfold try_except.
  rewrite bind_emit, (bind_run _ _ _ _ _ _ (connect_run uds n c rest Hp Hc)), Hconv.
  cbn [app]. rewrite He.
  destruct (is_parse_error e); cbn; rewrite <- !app_assoc; reflexivity.
Qed.

(** The conversation up to the line that reports success. *)
Lemma async_converse_result_unusable {lib : PyLib} (fuel : nat) (n0 n1 n2 : net)
  (tr : trace) (response : string) (data : json) (e : exn) :
  write_all (frame Async.list_request) n0
  = ([ESend (frame Async.list_request)], n1, Normal tt) ->
  Async.receive_response n1 = (tr, n2, Normal response) ->
  nonempty response = true ->
  json_loads response = Some data ->
  py_in "result" data = inr true ->
  (py_getitem data "result" = inl e \/
   exists result, py_getitem data "result" = inr result /\
                  py_getitem result "objects" = inl e) ->
  Async.converse fuel n0
  = (ELog LvlDebug (Text "Connected to Unix Domain Socket")
     :: ESend (frame Async.list_request)
     :: tr ++ [ELog LvlDebug (TextStr "Received response: " response);
               ELog LvlDebug (TextJson "Parsed response: " data);
               ELog LvlDebug (Text "API request succeeded")],
     n2, Raised e).
Proof.
  intros Hw Hr Hne Hj Hin Hbad.
  unfold Async.converse, Async.send_request, logging_debug, logging_error, print.
  rewrite bind_emit, (bind_run _ _ _ _ _ _ Hw), (bind_run _ _ _ _ _ _ Hr), bind_emit.
  rewrite Hne. unfold loads. rewrite Hj, bind_ret, bind_emit, Hin.
  cbn [lift]. rewrite bind_ret, bind_emit.
  destruct Hbad as [Hres | [result [Hres Hobj]]]; rewrite Hres; cbn [lift].
  - rewrite bind_raise. same_trace.
  - rewrite bind_ret, Hobj. cbn [lift]. rewrite bind_raise. same_trace.
Qed.

Lemma async_converse_objects_unusable {lib : PyLib} (fuel : nat) (n0 n1 n2 : net)
  (tr : trace) (response : string) (data result objects : json) (e : exn) :
  write_all (frame Async.list_request) n0
  = ([ESend (frame Async.list_request)], n1, Normal tt) ->
  Async.receive_response n1 = (tr, n2, Normal response) ->
  nonempty response = true ->
  json_loads response = Some data ->
  py_in "result" data = inr true ->
  py_getitem data "result" = inr result ->
  py_getitem result "objects" = inr objects ->
  py_iter objects = inl e ->
  Async.converse fuel n0
  = (ELog LvlDebug (Text "Connected to Unix Domain Socket")
     :: ESend (frame Async.list_request)
     :: tr ++ [ELog LvlDebug (TextStr "Received response: " response);
               ELog LvlDebug (TextJson "Parsed response: " data);
               ELog LvlDebug (Text "API request succeeded");
               EPrint (Text "Available objects:")],
     n2, Raised e).
Proof.
  intros Hw Hr Hne Hj Hin Hres Hobj Hit.
  unfold Async.converse, Async.send_request, logging_debug, logging_error, print.
  rewrite bind_emit, (bind_run _ _ _ _ _ _ Hw), (bind_run _ _ _ _ _ _ Hr), bind_emit.
  rewrite Hne. unfold loads. rewrite Hj, bind_ret, bind_emit, Hin.
  cbn [lift]. rewrite bind_ret, bind_emit, Hres. cbn [lift].
  rewrite bind_ret, Hobj. cbn [lift]. rewrite bind_ret, bind_emit, Hit. cbn [lift].
  rewrite bind_raise. same_trace.
Qed.

(** The blocking client's pass when the reply to the listing is empty:
    [json.loads] rejects the empty text. *)
Lemma blocking_attempt_empty_reply {lib : PyLib} (uds : string)
  (klipper_api_key : option string) (max_attempts : nat) (delay : Q) (attempt : nat)
  (n n1 n2 : net) (c : conn) (rest : list conn) :
  pending n = c :: rest ->
  connect_error c = None ->
  write_all (frame Blocking.list_request) (connected c rest)
  = ([ESend (frame Blocking.list_request)], n1, Normal tt) ->
  Blocking.receive_response n1 = ([], n2, Normal EmptyString) ->
  json_loads EmptyString = None ->
  Blocking.attempt_once uds klipper_api_key max_attempts delay attempt n
  = (blocking_silent_pass uds max_attempts delay attempt, n2, Normal Blocking.Next).
Proof.
  intros Hp Hc Hw Hr Hj.
  assert (Hex : Blocking.exchange klipper_api_key n1
    = ([ELog LvlDebug (TextStr "Received response: " EmptyString)],
       n2, Raised JSONDecodeError)).
  { unfold Blocking.exchange, logging_debug.
    rewrite (bind_run _ _ _ _ _ _ Hr), bind_emit. unfold loads.
    rewrite Hj, bind_raise. reflexivity. }
  unfold Blocking.attempt_once, closing, Blocking.session, logging_debug.
  unfold bind at 1. unfold try_except at 1.
  rewrite bind_emit.
  assert (Hcc : Blocking.connect_or_continue uds n
                = ([EConnect uds], connected c rest, Normal Blocking.Next)).
  { rewrite connect_or_continue_run, (connect_run uds n c rest Hp Hc). reflexivity. }
  rewrite (bind_run _ _ _ _ _ _ Hcc).
  unfold Blocking.dialogue, logging_debug.
  rewrite bind_emit, (bind_run _ _ _ _ _ _ Hw), bind_emit.
  unfold try_except. rewrite Hex. reflexivity.
Qed.

(** ** The end-to-end scenario *)

(** A peer that answers the listing and the status query: the blocking
    client prints the position and the print state and returns from its
    first pass, without sleeping. *)
Example blocking_end_to_end :
  @Blocking.run MiniJson.lib Scenario.world_answering
  = (blocking_prelude Scenario.world_answering
     ++ [ELog LvlDebug (AttemptMsg Scenario.uds0 1 3);
         EConnect Scenario.uds0;
         ELog LvlDebug (Text "Connected to Unix Domain Socket");
         ESend (Scenario.wire Blocking.list_request);
         ELog LvlDebug (Text "Sent JSON-RPC request for objects/list");
         ELog LvlDebug
           (TextStr "Received response: " (MiniJson.dumps Scenario.list_reply));
         ELog LvlDebug (Text "API request succeeded");
         EPrint (TextJson "Available objects: "
                   (JArr [JStr "toolhead"; JStr "print_stats"]));
         ESend (Scenario.wire (Blocking.query_request None));
         ELog LvlDebug (Text "Sent JSON-RPC request for toolhead and print_stats");
         ELog LvlDebug
           (TextStr "Received response: " (MiniJson.dumps Scenario.status_reply));
         EPrint (PositionMsg (JInt 10) (JInt 20) (JInt 5));
         EPrint (TextJson "Print State: " (JStr "printing"));
         EClose],
     Normal ReturnStatus).
Proof. vm_compute. reflexivity. Qed.

(** * The claims *)

(** C1, as stated, fails: when one read returns the bytes of both
    frames, the first call returns the first document and drops the
    rest of the buffer, so the second call finds the stream at its end
    and the second document is lost. *)
Lemma C1_second_frame_lost_in_one_read :
  bytes_of TwoFrames.one_read
    = (@frame MiniJson.lib TwoFrames.v0 ++ @frame MiniJson.lib TwoFrames.w0)%string
  /\ Async.receive_response (on_stream (arriving TwoFrames.one_read))
     = ([], on_stream [], Normal (MiniJson.dumps TwoFrames.v0))
  /\ Async.receive_response (on_stream []) = ([], on_stream [], Normal EmptyString)
  /\ ~ @delivers_both MiniJson.lib TwoFrames.one_read TwoFrames.v0 TwoFrames.w0.
Proof.
  repeat split; try reflexivity.
  intros [t [n' H]]. vm_compute in H. discriminate H.
Qed.

(** C1 (amended): for documents whose serialized forms are valid UTF-8
    without the terminator byte and which [json.loads] reads back, the
    asyncio client yields [v] and then [w] from [encode(v) + encode(w)]
    for every chunking in which no read spans the boundary between the
    two frames, and leaves the later reads untouched.  Nothing is
    buffered between calls: the bytes that follow a terminator within
    the same read are discarded.  The blocking client returns the text
    of [v] when the stream holds the frame of [v] and nothing else. *)
Theorem C1_frames_in_order_when_reads_respect_frames :
  forall (lib : PyLib) (v w : json),
  json_loads (json_dumps v) = Some v ->
  json_loads (json_dumps w) = Some w ->
  contains_etx (json_dumps v) = false ->
  contains_etx (json_dumps w) = false ->
  utf8_valid (json_dumps v) = true ->
  utf8_valid (json_dumps w) = true ->
  (forall (first second : list string) (later : list read_event) (n : net),
     cuts first (json_dumps v) ->
     cuts second (json_dumps w) ->
     reads_left n = arriving first ++ arriving second ++ later ->
     Async.two_documents n = ([], set_reads later n, Normal (v, w)))
  /\
  (forall (extra : string) (later : list read_event) (n : net),
     reads_left n = Data (frame v ++ extra)%string :: later ->
     Async.next_document n = ([], set_reads later n, Normal v))
  /\
  (forall (chunks : list string) (n : net),
     cuts chunks (json_dumps v) ->
     utf8_valid (bytes_of chunks) = true ->
     reads_left n = arriving chunks ->
     Blocking.receive_response n = ([], set_reads [] n, Normal (json_dumps v))).
Proof.
  intros lib v w Lv Lw Ev Ew Uv Uw. split; [|split].
  - intros first second later n Cv Cw Hrd.
    unfold Async.two_documents, Async.next_document, bind.
    rewrite (receive_frame n first (json_dumps v) (arriving second ++ later) Hrd Cv Ev Uv).
    unfold loads. rewrite Lv. unfold ret.
    rewrite (receive_frame (set_reads (arriving second ++ later) n) second
               (json_dumps w) later (reads_left_set _ n) Cw Ew Uw).
    rewrite Lw. reflexivity.
  - intros extra later n Hrd.
    unfold Async.next_document, bind.
    unfold frame in Hrd. rewrite append_assoc in Hrd.
    rewrite (receive_drops_rest n (json_dumps v) extra later Hrd Ev Uv).
    unfold loads. rewrite Lv. reflexivity.
  - intros chunks n [Hne Hb] Hutf Hrd.
    rewrite (blocking_receive_all n chunks Hrd Hne Hutf), Hb.
    now rewrite (strip_frame (json_dumps v) Ev).
Qed.

Lemma C1_frames_in_order_witness :
  @Async.two_documents MiniJson.lib
    (on_stream (arriving TwoFrames.cut_first ++ arriving TwoFrames.cut_second ++ []))
  = ([], on_stream [], Normal (TwoFrames.v0, TwoFrames.w0)).
Proof.
  refine (proj1 (C1_frames_in_order_when_reads_respect_frames MiniJson.lib
            TwoFrames.v0 TwoFrames.w0 _ _ _ _ _ _)
            TwoFrames.cut_first TwoFrames.cut_second []
            (on_stream (arriving TwoFrames.cut_first ++ arriving TwoFrames.cut_second ++ []))
            _ _ _);
    try reflexivity.
  - split; [repeat constructor | reflexivity].
  - split; [repeat constructor | reflexivity].
Defined.

(** C2, as stated, fails: no id is ever compared.  When a notification
    precedes the reply to the listing, the asyncio client takes the
    notification as the reply, reports an API failure and leaves the
    frame with the matching id unread; the blocking client reads both
    frames as one text and fails to parse it. *)
Lemma C2_notification_is_taken_as_the_reply :
  uses_reply (trace_of (Scenario.async_first_pass 5 Scenario.world_notification_first))
    Scenario.notification
  /\ ~ uses_reply
         (trace_of (Scenario.async_first_pass 5 Scenario.world_notification_first))
         Scenario.list_reply
  /\ In (ELog LvlError (TextJson "Error in objects/list: " (JStr "Unknown error")))
        (trace_of (Scenario.async_first_pass 5 Scenario.world_notification_first))
  /\ reads_left (net_of (Scenario.async_first_pass 5 Scenario.world_notification_first))
     = [Data (Scenario.wire Scenario.list_reply)]
  /\ In (ELog LvlError (TextExn "Error: Unable to parse response: " JSONDecodeError))
        (trace_of (Scenario.blocking_first_pass Scenario.world_notification_first))
  /\ outcome_of (Scenario.blocking_first_pass Scenario.world_notification_first)
     = Normal Blocking.Next.
Proof.
  unfold uses_reply. repeat split; try reflexivity.
  - vm_compute. tauto.
  - vm_compute. intuition congruence.
  - vm_compute. tauto.
  - vm_compute. tauto.
Qed.

(** C2 (amended): neither client compares ids.  The asyncio client
    takes the first frame read after the listing request as its reply.
    A frame without [result], such as a notification, ends the pass as
    an API failure and leaves the later frames, the one with the
    request's id among them, unread.  A frame with [result] is taken
    as the reply whatever its id and reported as a success: when its
    [result] holds [objects] that can be iterated the client prints
    them and subscribes; when [result] cannot be indexed or has no
    [objects], or [objects] cannot be iterated, the pass ends as a
    failed one and nothing more is sent.  The blocking client takes
    everything received before the stream ends, a read times out or
    [recv] raises another [socket.error] as one reply, terminators
    stripped at its two ends only. *)
Theorem C2_reply_is_the_first_frame_whatever_its_id :
  forall (lib : PyLib),
  (forall fuel uds max_attempts delay attempt n n1 c rest chunks later text data,
     pending n = c :: rest ->
     connect_error c = None ->
     write_all (frame Async.list_request) (connected c rest)
     = ([ESend (frame Async.list_request)], n1, Normal tt) ->
     reads_left n1 = arriving chunks ++ later ->
     cuts chunks text ->
     contains_etx text = false ->
     utf8_valid text = true ->
     nonempty text = true ->
     json_loads text = Some data ->
     py_in "result" data = inr false ->
     Async.attempt_once fuel uds max_attempts delay attempt n
     = ([ELog LvlDebug (AttemptMsg uds (attempt + 1) max_attempts);
         EConnect uds;
         ELog LvlDebug (Text "Connected to Unix Domain Socket");
         ESend (frame Async.list_request);
         ELog LvlDebug (TextStr "Received response: " text);
         ELog LvlDebug (TextJson "Parsed response: " data);
         ELog LvlError (listing_error_line data);
         ESleep delay],
        set_reads later n1, Normal tt))
  /\
  (forall fuel n0 n1 n3 chunks later text fields result objects objs,
     write_all (frame Async.list_request) n0
     = ([ESend (frame Async.list_request)], n1, Normal tt) ->
     reads_left n1 = arriving chunks ++ later ->
     cuts chunks text ->
     contains_etx text = false ->
     utf8_valid text = true ->
     nonempty text = true ->
     json_loads text = Some (JObj fields) ->
     assoc "result" fields = Some result ->
     py_getitem result "objects" = inr objects ->
     py_iter objects = inr objs ->
     write_all (frame Async.subscribe_request) (set_reads later n1)
     = ([ESend (frame Async.subscribe_request)], n3, Normal tt) ->
     Async.converse fuel n0
     = let '(t', n', r) := Async.listen fuel n3 in
       (ELog LvlDebug (Text "Connected to Unix Domain Socket")
        :: ESend (frame Async.list_request)
        :: [ELog LvlDebug (TextStr "Received response: " text);
            ELog LvlDebug (TextJson "Parsed response: " (JObj fields));
            ELog LvlDebug (Text "API request succeeded");
            EPrint (Text "Available objects:")]
        ++ map (fun obj => EPrint (TextJson "  - " obj)) objs
        ++ [EPrint TimeTakenMsg;
            ESend (frame Async.subscribe_request);
            ELog LvlDebug
              (Text "Sent JSON-RPC request to subscribe to printer objects")]
        ++ t',
        n', r))
  /\
  (forall fuel uds max_attempts delay attempt n n1 c rest chunks later text data e,
     pending n = c :: rest ->
     connect_error c = None ->
     write_all (frame Async.list_request) (connected c rest)
     = ([ESend (frame Async.list_request)], n1, Normal tt) ->
     reads_left n1 = arriving chunks ++ later ->
     cuts chunks text ->
     contains_etx text = false ->
     utf8_valid text = true ->
     nonempty text = true ->
     json_loads text = Some data ->
     py_in "result" data = inr true ->
     (py_getitem data "result" = inl e \/
      exists result, py_getitem data "result" = inr result /\
                     py_getitem result "objects" = inl e) ->
     Async.attempt_once fuel uds max_attempts delay attempt n
     = ([ELog LvlDebug (AttemptMsg uds (attempt + 1) max_attempts);
         EConnect uds;
         ELog LvlDebug (Text "Connected to Unix Domain Socket");
         ESend (frame Async.list_request);
         ELog LvlDebug (TextStr "Received response: " text);
         ELog LvlDebug (TextJson "Parsed response: " data);
         ELog LvlDebug (Text "API request succeeded");
         ELog LvlError (failure_line e);
         ESleep delay],
        set_reads later n1, Normal tt))
  /\
  (forall fuel uds max_attempts delay attempt n n1 c rest chunks later text data
          result objects e,
     pending n = c :: rest ->
     connect_error c = None ->
     write_all (frame Async.list_request) (connected c rest)
     = ([ESend (frame Async.list_request)], n1, Normal tt) ->
     reads_left n1 = arriving chunks ++ later ->
     cuts chunks text ->
     contains_etx text = false ->
     utf8_valid text = true ->
     nonempty text = true ->
     json_loads text = Some data ->
     py_in "result" data = inr true ->
     py_getitem data "result" = inr result ->
     py_getitem result "objects" = inr objects ->
     py_iter objects = inl e ->
     Async.attempt_once fuel uds max_attempts delay attempt n
     = ([ELog LvlDebug (AttemptMsg uds (attempt + 1) max_attempts);
         EConnect uds;
         ELog LvlDebug (Text "Connected to Unix Domain Socket");
         ESend (frame Async.list_request);
         ELog LvlDebug (TextStr "Received response: " text);
         ELog LvlDebug (TextJson "Parsed response: " data);
         ELog LvlDebug (Text "API request succeeded");
         EPrint (Text "Available objects:");
         ELog LvlError (failure_line e);
         ESleep delay],
        set_reads later n1, Normal tt))
  /\
  (forall n chunks stop later,
     reads_left n = arriving chunks ++ stop ->
     ends_reply stop later ->
     Forall (fun c => nonempty c = true) chunks ->
     utf8_valid (bytes_of chunks) = true ->
     Blocking.receive_response n
     = ([], set_reads later n, Normal (strip_etx (bytes_of chunks)))).
Proof.
  intros lib. split; [|split; [|split; [|split]]].
  - intros fuel uds max_attempts delay attempt n n1 c rest chunks later text data
      Hp Hc Hw Hrd Hcuts Hetx Hutf Hne Hj Hin.
    pose proof (receive_frame n1 chunks text later Hrd Hcuts Hetx Hutf) as Hr.
    exact (async_attempt_without_result fuel uds max_attempts delay attempt
             n n1 (set_reads later n1) c rest [] text data Hp Hc Hw Hr Hne Hj Hin).
  - intros fuel n0 n1 n3 chunks later text fields result objects objs
      Hw Hrd Hcuts Hetx Hutf Hne Hj Hres Hobj Hit Hsub.
    pose proof (receive_frame n1 chunks text later Hrd Hcuts Hetx Hutf) as Hr.
    assert (Hin : py_in "result" (JObj fields) = inr true).
    { unfold py_in, has_key. now rewrite Hres. }
    assert (Hget : py_getitem (JObj fields) "result" = inr result).
    { unfold py_getitem. now rewrite Hres. }
    exact (async_converse_with_result fuel n0 n1 (set_reads later n1) n3 [] text
             (JObj fields) result objects objs Hw Hr Hne Hj Hin Hget Hobj Hit Hsub).
  - intros fuel uds max_attempts delay attempt n n1 c rest chunks later text data e
      Hp Hc Hw Hrd Hcuts Hetx Hutf Hne Hj Hin Hbad.
    pose proof (receive_frame n1 chunks text later Hrd Hcuts Hetx Hutf) as Hr.
    assert (He : is_Exception e = true).
    { destruct Hbad as [H | [result [_ H]]]; exact (getitem_raises _ _ _ H). }
    rewrite (async_attempt_caught fuel uds max_attempts delay attempt n _ c rest _ e
               Hp Hc
               (async_converse_result_unusable fuel _ _ _ _ _ _ e Hw Hr Hne Hj Hin Hbad)
               He).
    reflexivity.
  - intros fuel uds max_attempts delay attempt n n1 c rest chunks later text data
      result objects e Hp Hc Hw Hrd Hcuts Hetx Hutf Hne Hj Hin Hres Hobj Hit.
    pose proof (receive_frame n1 chunks text later Hrd Hcuts Hetx Hutf) as Hr.
    assert (He : is_Exception e = true) by now rewrite (iter_raises _ _ Hit).
    rewrite (async_attempt_caught fuel uds max_attempts delay attempt n _ c rest _ e
               Hp Hc
               (async_converse_objects_unusable fuel _ _ _ _ _ _ _ _ e
                  Hw Hr Hne Hj Hin Hres Hobj Hit)
               He).
    reflexivity.
  - intros n chunks stop later. apply blocking_receive_until.
Qed.

(** A reply that carries the id 999 is accepted as the reply to the
    listing (id 123): the client goes on to subscribe. *)
Lemma C2_witness :
  sent (trace_of (@Async.converse MiniJson.lib 0
                    (connected (Scenario.speaking [Data (Scenario.wire Scenario.foreign_reply)])
                       [])))
  = [Scenario.wire Async.list_request; Scenario.wire Async.subscribe_request].
Proof.
  destruct (C2_reply_is_the_first_frame_whatever_its_id MiniJson.lib) as [_ [Hb _]].
  assert (Hcuts : cuts [Scenario.wire Scenario.foreign_reply]
                       (MiniJson.dumps Scenario.foreign_reply))
    by (split; [repeat constructor | reflexivity]).
  rewrite (Hb 0 (connected (Scenario.speaking [Data (Scenario.wire Scenario.foreign_reply)]) [])
              _ _ [Scenario.wire Scenario.foreign_reply] []
              (MiniJson.dumps Scenario.foreign_reply) _ _ _ _
              eq_refl eq_refl
              Hcuts
              eq_refl eq_refl eq_refl eq_refl eq_refl eq_refl eq_refl eq_refl).
  reflexivity.
Defined.

(** C3: against an endpoint that refuses every connection, both clients
    make exactly [max_attempts] connection attempts (three in the
    source), sleep [delay] (two seconds) after each of them, hence
    between any two, then log the terminal failure and return; the run
    ends whatever the fuel. *)
Theorem C3_refusing_endpoint_is_tried_max_attempts_times :
  forall (lib : PyLib) (max_attempts : nat) (delay : Q) (w : world) (uds : string),
  klipper_uds w = Some uds ->
  Forall refuses (conns w) ->
  (forall fuel,
     Async.run_with max_attempts delay fuel w
     = (resolution_trace w ProcessPidMsg
        ++ flat_map (async_refused_pass uds max_attempts delay) (seq 0 max_attempts)
        ++ [Async.terminal_failure],
        Normal ReturnExhausted)
     /\ connects (fst (Async.run_with max_attempts delay fuel w)) = max_attempts
     /\ sleeps (fst (Async.run_with max_attempts delay fuel w))
        = repeat delay max_attempts)
  /\
  (Blocking.run_with max_attempts delay w
   = (blocking_prelude w
      ++ flat_map (blocking_refused_pass uds max_attempts delay) (seq 0 max_attempts)
      ++ [Blocking.terminal_failure],
      Normal ReturnExhausted)
   /\ connects (fst (Blocking.run_with max_attempts delay w)) = max_attempts
   /\ sleeps (fst (Blocking.run_with max_attempts delay w)) = repeat delay max_attempts).
Proof.
  intros lib max_attempts delay w uds Huds Href.
  assert (Hlen : length (seq 0 max_attempts) = max_attempts) by apply length_seq.
  split.
  - intros fuel.
    assert (Hrun : Async.run_with max_attempts delay fuel w
     = (resolution_trace w ProcessPidMsg
        ++ flat_map (async_refused_pass uds max_attempts delay) (seq 0 max_attempts)
        ++ [Async.terminal_failure], Normal ReturnExhausted)).
    { unfold Async.run_with, Async.get_printer_status_with.
      unfold bind at 1. rewrite async_resolve_run, Huds.
      destruct (async_refused_loop fuel uds max_attempts delay max_attempts 0
                  (initial_net w) Href) as [n' Hloop].
      unfold bind. rewrite Hloop. reflexivity. }
    rewrite Hrun. split; [reflexivity|]. cbn [fst].
    destruct (resolution_trace_counts w ProcessPidMsg) as [Hc [Hs _]].
    destruct (refused_passes_counts (async_refused_pass uds max_attempts delay) delay
                (seq 0 max_attempts)) as [Hc' Hs']; [now split|].
    rewrite !connects_app, !sleeps_app, Hc, Hs, Hc', Hs', Hlen. simpl.
    split; [apply Nat.add_0_r | apply app_nil_r].
  - assert (Hrun : Blocking.run_with max_attempts delay w
     = (blocking_prelude w
        ++ flat_map (blocking_refused_pass uds max_attempts delay) (seq 0 max_attempts)
        ++ [Blocking.terminal_failure], Normal ReturnExhausted)).
    { unfold Blocking.run_with, Blocking.get_printer_status_with.
      unfold bind at 1. rewrite blocking_resolve_run, Huds.
      unfold bind at 1, logging_debug at 1, emit at 1.
      unfold bind at 1. rewrite (for_each_emit (fun p => ECheckSystemd (p_name p))).
      destruct (blocking_refused_loop uds (klipper_api_key w) max_attempts delay
                  max_attempts 0 (initial_net w) Href) as [n' Hloop].
      unfold bind. rewrite Hloop. unfold blocking_prelude. simpl.
      now rewrite <- !app_assoc. }
    rewrite Hrun. split; [reflexivity|]. cbn [fst].
    assert (Hpre : connects (blocking_prelude w) = 0 /\ sleeps (blocking_prelude w) = []).
    { unfold blocking_prelude. rewrite connects_app, sleeps_app.
      destruct (resolution_trace_counts w ProcessMsg) as [-> [-> _]].
      cbn [connects sleeps app]. induction (processes w) as [|p ps IH]; [now split|].
      exact IH. }
    destruct Hpre as [Hc Hs].
    destruct (refused_passes_counts (blocking_refused_pass uds max_attempts delay) delay
                (seq 0 max_attempts)) as [Hc' Hs']; [now split|].
    rewrite !connects_app, !sleeps_app, Hc, Hs, Hc', Hs', Hlen. simpl.
    split; [apply Nat.add_0_r | apply app_nil_r].
Qed.

(** With the values of the source, three attempts and two seconds. *)
Lemma C3_witness :
  (forall fuel,
     @Async.run MiniJson.lib fuel Scenario.world_refusing
     = (resolution_trace Scenario.world_refusing ProcessPidMsg
        ++ flat_map (async_refused_pass Scenario.uds0 3 2) [0; 1; 2]
        ++ [Async.terminal_failure],
        Normal ReturnExhausted))
  /\ connects (fst (@Blocking.run MiniJson.lib Scenario.world_refusing)) = 3
  /\ sleeps (fst (@Blocking.run MiniJson.lib Scenario.world_refusing))
     = [2%Q; 2%Q; 2%Q].
Proof.
  destruct (C3_refusing_endpoint_is_tried_max_attempts_times MiniJson.lib
              Async.max_attempts Async.delay Scenario.world_refusing Scenario.uds0
              eq_refl ltac:(repeat constructor)) as [Ha [_ [Hc Hs]]].
  split; [|split].
  - intros fuel. exact (proj1 (Ha fuel)).
  - exact Hc.
  - exact Hs.
Defined.

(** C4, as stated, fails: after three notifications and the close of
    the socket the loop does not stop.  Each further pass reads an
    empty update and sleeps one second, so no amount of fuel brings the
    loop to an end, cleanly or otherwise. *)
Lemma C4_loop_keeps_polling_after_close :
  Scenario.three_updates
  = pushed [pushed_notification; pushed_notification; pushed_notification]
  /\ @Async.listen MiniJson.lib 5 (on_stream Scenario.three_updates)
     = ([EPrint (Text "Toolhead Position: X=1.00, Y=2.00, Z=3.00");
         EPrint (Text "Toolhead Position: X=1.00, Y=2.00, Z=3.00");
         EPrint (Text "Toolhead Position: X=1.00, Y=2.00, Z=3.00");
         ESleep 1; ESleep 1],
        on_stream [], OutOfFuel)
  /\ ~ (exists fuel,
          outcome_of (@Async.listen MiniJson.lib fuel (on_stream Scenario.three_updates))
          <> OutOfFuel).
Proof.
  split; [reflexivity|]. split; [reflexivity|].
  intros [fuel H]. apply H.
  apply (@listen_never_returns MiniJson.lib
           [pushed_notification; pushed_notification; pushed_notification]).
  - repeat constructor; apply pushed_notification_well_framed.
  - reflexivity.
Qed.

(** C4 (amended): when every pushed update arrives in reads of its own,
    the update loop prints one status line per update, in stream
    order.  When the peer then closes the socket the loop does not
    end and gives no terminal signal: every further pass reads an
    empty update and sleeps one second, for as long as the loop is
    run.  From any state, the loop ends without an exception only
    through one of its handlers, on [KeyboardInterrupt] or on an
    [Exception] such as a frame that is not JSON. *)
Theorem C4_updates_in_order_then_polling_forever :
  forall (lib : PyLib) (updates : list update) (n : net),
  Forall well_framed updates ->
  reads_left n = pushed updates ->
  (forall more,
     Async.listen (length updates + more) n
     = (map (fun u => EPrint (Text (u_line u))) updates ++ repeat (ESleep 1) more,
        set_reads [] n, OutOfFuel))
  /\ (forall fuel, outcome_of (Async.listen fuel n) = OutOfFuel)
  /\ (forall fuel (m m' : net) (t : trace),
        Async.listen fuel m = (t, m', Normal tt) ->
        exists t0 ev,
          t = t0 ++ [ev] /\
          (ev = EPrint (Text (newline ++ "Stopped listening for updates.")%string) \/
           exists e, ev = ELog LvlError (TextExn "Error while receiving updates: " e))).
Proof.
  intros lib updates n Hall Hrd. split; [|split].
  - intros more. exact (listen_pushed updates n more Hall Hrd).
  - intros fuel. exact (listen_never_returns updates n fuel Hall Hrd).
  - intros fuel. exact (listen_leaves_through_handler fuel).
Qed.

Lemma C4_witness :
  @Async.listen MiniJson.lib (3 + 2) (on_stream Scenario.three_updates)
  = (map (fun u => EPrint (Text (u_line u)))
         [pushed_notification; pushed_notification; pushed_notification]
     ++ repeat (ESleep 1) 2,
     on_stream [], OutOfFuel).
Proof.
  exact (proj1 (C4_updates_in_order_then_polling_forever MiniJson.lib
                  [pushed_notification; pushed_notification; pushed_notification]
                  (on_stream Scenario.three_updates)
                  (Forall_cons _ pushed_notification_well_framed
                     (Forall_cons _ pushed_notification_well_framed
                        (Forall_cons _ pushed_notification_well_framed (Forall_nil _))))
                  eq_refl) 2).
Defined.

(** C5, as stated, fails: no test in either client looks at [error].
    What decides is the presence of [result], so a reply that carries
    an [error] member beside a [result] is taken as a success: from
    such a reply to the status query the blocking client prints the
    position and the print state and returns, and after such a reply to
    the listing the asyncio client subscribes. *)
Lemma C5_error_beside_result_is_taken_as_success :
  py_getitem Scenario.error_with_result "error" = inr (JObj [("message", JStr "x")])
  /\ snd (@Blocking.run MiniJson.lib Scenario.world_error_with_result)
     = Normal ReturnStatus
  /\ In (EPrint (PositionMsg (JInt 10) (JInt 20) (JInt 5)))
        (fst (@Blocking.run MiniJson.lib Scenario.world_error_with_result))
  /\ In (EPrint (TextJson "Print State: " (JStr "printing")))
        (fst (@Blocking.run MiniJson.lib Scenario.world_error_with_result))
  /\ ~ In (ELog LvlError (Text "Error: Failed to retrieve printer status."))
          (fst (@Blocking.run MiniJson.lib Scenario.world_error_with_result))
  /\ py_getitem Scenario.listing_error_with_result "error"
     = inr (JObj [("message", JStr "x")])
  /\ sent (trace_of
             (@Async.converse MiniJson.lib 0
                (connected
                   (Scenario.speaking
                      [Data (Scenario.wire Scenario.listing_error_with_result)]) [])))
     = [Scenario.wire Async.list_request; Scenario.wire Async.subscribe_request].
Proof.
  split; [reflexivity|]. split; [vm_compute; reflexivity|].
  split; [vm_compute; tauto|]. split; [vm_compute; tauto|].
  split; [vm_compute; intuition discriminate|].
  split; [reflexivity | vm_compute; reflexivity].
Qed.

(** C5 (amended): a reply of the error shape of the data model, an
    object with an [error] field and no [result] field, is never taken
    as a success.  For the listing the asyncio client logs the error
    value and the blocking client a warning; for the status query
    (id 1) the blocking client logs that the status could not be
    retrieved.  In each case nothing of the body is printed as a result
    and the pass ends as a failed one, in the wait before the next
    pass. *)
Theorem C5_error_reply_fails_the_call :
  forall (lib : PyLib) (fields : list (string * json)) (err : json),
  assoc "error" fields = Some err ->
  has_key "result" fields = false ->
  (forall fuel uds max_attempts delay attempt n n1 n2 c rest tr response,
     pending n = c :: rest ->
     connect_error c = None ->
     write_all (frame Async.list_request) (connected c rest)
     = ([ESend (frame Async.list_request)], n1, Normal tt) ->
     Async.receive_response n1 = (tr, n2, Normal response) ->
     nonempty response = true ->
     json_loads response = Some (JObj fields) ->
     Async.attempt_once fuel uds max_attempts delay attempt n
     = (ELog LvlDebug (AttemptMsg uds (attempt + 1) max_attempts)
        :: EConnect uds
        :: ELog LvlDebug (Text "Connected to Unix Domain Socket")
        :: ESend (frame Async.list_request)
        :: tr ++ [ELog LvlDebug (TextStr "Received response: " response);
                  ELog LvlDebug (TextJson "Parsed response: " (JObj fields));
                  ELog LvlError (TextJson "Error in objects/list: " err);
                  ESleep delay],
        n2, Normal tt))
  /\
  (forall uds klipper_api_key max_attempts delay attempt n n1 n2 c rest tr response,
     pending n = c :: rest ->
     connect_error c = None ->
     write_all (frame Blocking.list_request) (connected c rest)
     = ([ESend (frame Blocking.list_request)], n1, Normal tt) ->
     Blocking.receive_response n1 = (tr, n2, Normal response) ->
     json_loads response = Some (JObj fields) ->
     Blocking.attempt_once uds klipper_api_key max_attempts delay attempt n
     = (ELog LvlDebug (AttemptMsg uds (attempt + 1) max_attempts)
        :: EConnect uds
        :: ELog LvlDebug (Text "Connected to Unix Domain Socket")
        :: ESend (frame Blocking.list_request)
        :: ELog LvlDebug (Text "Sent JSON-RPC request for objects/list")
        :: tr ++ [ELog LvlDebug (TextStr "Received response: " response);
                  ELog LvlWarning (Text "API request failed. Retrying...");
                  EClose;
                  ESleep delay],
        n2, Normal Blocking.Next))
  /\
  (forall uds klipper_api_key max_attempts delay attempt n n1 n2 n3 n4 c rest
          tr1 tr2 response1 response2 data1 result1 objects,
     pending n = c :: rest ->
     connect_error c = None ->
     write_all (frame Blocking.list_request) (connected c rest)
     = ([ESend (frame Blocking.list_request)], n1, Normal tt) ->
     Blocking.receive_response n1 = (tr1, n2, Normal response1) ->
     json_loads response1 = Some data1 ->
     py_in "result" data1 = inr true ->
     py_getitem data1 "result" = inr result1 ->
     py_getitem result1 "objects" = inr objects ->
     write_all (frame (Blocking.query_request klipper_api_key)) n2
     = ([ESend (frame (Blocking.query_request klipper_api_key))], n3, Normal tt) ->
     Blocking.receive_response n3 = (tr2, n4, Normal response2) ->
     json_loads response2 = Some (JObj fields) ->
     Blocking.attempt_once uds klipper_api_key max_attempts delay attempt n
     = (ELog LvlDebug (AttemptMsg uds (attempt + 1) max_attempts)
        :: EConnect uds
        :: ELog LvlDebug (Text "Connected to Unix Domain Socket")
        :: ESend (frame Blocking.list_request)
        :: ELog LvlDebug (Text "Sent JSON-RPC request for objects/list")
        :: tr1 ++ [ELog LvlDebug (TextStr "Received response: " response1);
                   ELog LvlDebug (Text "API request succeeded");
                   EPrint (TextJson "Available objects: " objects);
                   ESend (frame (Blocking.query_request klipper_api_key));
                   ELog LvlDebug
                     (Text "Sent JSON-RPC request for toolhead and print_stats")]
        ++ tr2 ++ [ELog LvlDebug (TextStr "Received response: " response2);
                   ELog LvlError (Text "Error: Failed to retrieve printer status.");
                   EClose;
                   ESleep delay],
        n4, Normal Blocking.Next)).
Proof.
  intros lib fields err He Hres.
  destruct (error_reply_has_no_result fields err He Hres) as [Hin Hline].
  split; [|split].
  - intros fuel uds max_attempts delay attempt n n1 n2 c rest tr response
      Hp Hc Hw Hr Hne Hj.
    rewrite (async_attempt_without_result fuel uds max_attempts delay attempt
               n n1 n2 c rest tr response (JObj fields) Hp Hc Hw Hr Hne Hj Hin).
    now rewrite Hline.
  - intros uds klipper_api_key max_attempts delay attempt n n1 n2 c rest tr response
      Hp Hc Hw Hr Hj.
    exact (blocking_attempt_without_result uds klipper_api_key max_attempts delay
             attempt n n1 n2 c rest tr response (JObj fields) Hp Hc Hw Hr Hj Hin).
  - intros uds klipper_api_key max_attempts delay attempt n n1 n2 n3 n4 c rest
      tr1 tr2 response1 response2 data1 result1 objects
      Hp Hc Hw1 Hr1 Hj1 Hin1 Hr Ho Hw2 Hr2 Hj2.
    exact (blocking_attempt_query_without_result uds klipper_api_key max_attempts
             delay attempt n n1 n2 n3 n4 c rest tr1 tr2 response1 response2
             data1 result1 objects (JObj fields)
             Hp Hc Hw1 Hr1 Hj1 Hin1 Hr Ho Hw2 Hr2 Hj2 Hin).
Qed.

(** The reply of the specification's example, to the status query of
    the blocking client and to the listing of the asyncio client. *)
Lemma C5_witness :
  (outcome_of (@Blocking.attempt_once MiniJson.lib Scenario.uds0 None 3 2 0
                 (initial_net Scenario.world_query_error))
   = Normal Blocking.Next
   /\ In (ELog LvlError (Text "Error: Failed to retrieve printer status."))
         (trace_of (@Blocking.attempt_once MiniJson.lib Scenario.uds0 None 3 2 0
                      (initial_net Scenario.world_query_error))))
  /\ In (ELog LvlError
           (TextJson "Error in objects/list: " (JObj [("message", JStr "x")])))
        (trace_of (@Async.attempt_once MiniJson.lib 0 Scenario.uds0 3 2 0
                     (initial_net Scenario.world_listing_error))).
Proof.
  destruct (C5_error_reply_fails_the_call MiniJson.lib
              [("id", JInt 1); ("error", JObj [("message", JStr "x")])]
              (JObj [("message", JStr "x")]) eq_refl eq_refl) as [_ [_ Hq]].
  destruct (C5_error_reply_fails_the_call MiniJson.lib
              [("id", JInt 123); ("error", JObj [("message", JStr "x")])]
              (JObj [("message", JStr "x")]) eq_refl eq_refl) as [Ha _].
  split.
  - erewrite (Hq Scenario.uds0 None 3 2%Q 0 (initial_net Scenario.world_query_error));
      [ | reflexivity ..].
    split; [reflexivity | cbn; tauto].
  - erewrite (Ha 0 Scenario.uds0 3 2%Q 0 (initial_net Scenario.world_listing_error));
      [ | reflexivity ..].
    cbn. tauto.
Defined.




(** C7: the listing request names the method [objects/list] and the id
    123; in every pass of either client it is the first frame written
    after connecting; and when the reply to it is read and has no
    [result] key, the pass logs the failure, writes no status query or
    subscribe request, and goes on to the wait before the next pass. *)
Theorem C7_listing_comes_first_and_its_failure_retries :
  forall (lib : PyLib),
  (py_getitem Async.list_request "method" = inr (JStr "objects/list") /\
   py_getitem Async.list_request "id" = inr (JInt 123) /\
   Blocking.list_request = Async.list_request)
  /\
  (forall fuel uds max_attempts delay attempt n,
     match sent (trace_of (Async.attempt_once fuel uds max_attempts delay attempt n)) with
     | [] => True
     | first :: _ => first = frame Async.list_request
     end)
  /\
  (forall uds klipper_api_key max_attempts delay attempt n,
     match sent (trace_of (Blocking.attempt_once uds klipper_api_key max_attempts
                             delay attempt n)) with
     | [] => True
     | first :: _ => first = frame Blocking.list_request
     end)
  /\
  (forall fuel uds max_attempts delay attempt n n1 n2 c rest tr response data,
     pending n = c :: rest ->
     connect_error c = None ->
     write_all (frame Async.list_request) (connected c rest)
     = ([ESend (frame Async.list_request)], n1, Normal tt) ->
     Async.receive_response n1 = (tr, n2, Normal response) ->
     nonempty response = true ->
     json_loads response = Some data ->
     py_in "result" data = inr false ->
     Async.attempt_once fuel uds max_attempts delay attempt n
     = (ELog LvlDebug (AttemptMsg uds (attempt + 1) max_attempts)
        :: EConnect uds
        :: ELog LvlDebug (Text "Connected to Unix Domain Socket")
        :: ESend (frame Async.list_request)
        :: tr ++ [ELog LvlDebug (TextStr "Received response: " response);
                  ELog LvlDebug (TextJson "Parsed response: " data);
                  ELog LvlError (listing_error_line data);
                  ESleep delay],
        n2, Normal tt)
     /\ sent (trace_of (Async.attempt_once fuel uds max_attempts delay attempt n))
        = [frame Async.list_request])
  /\
  (forall uds klipper_api_key max_attempts delay attempt n n1 n2 c rest tr response data,
     pending n = c :: rest ->
     connect_error c = None ->
     write_all (frame Blocking.list_request) (connected c rest)
     = ([ESend (frame Blocking.list_request)], n1, Normal tt) ->
     Blocking.receive_response n1 = (tr, n2, Normal response) ->
     json_loads response = Some data ->
     py_in "result" data = inr false ->
     Blocking.attempt_once uds klipper_api_key max_attempts delay attempt n
     = (ELog LvlDebug (AttemptMsg uds (attempt + 1) max_attempts)
        :: EConnect uds
        :: ELog LvlDebug (Text "Connected to Unix Domain Socket")
        :: ESend (frame Blocking.list_request)
        :: ELog LvlDebug (Text "Sent JSON-RPC request for objects/list")
        :: tr ++ [ELog LvlDebug (TextStr "Received response: " response);
                  ELog LvlWarning (Text "API request failed. Retrying...");
                  EClose;
                  ESleep delay],
        n2, Normal Blocking.Next)
     /\ sent (trace_of (Blocking.attempt_once uds klipper_api_key max_attempts delay
                          attempt n))
        = [frame Blocking.list_request]).
Proof.
  intros lib. split; [repeat split|]. split; [|split; [|split]].
  - intros. apply async_first_send.
  - intros. apply blocking_first_send.
  - intros fuel uds max_attempts delay attempt n n1 n2 c rest tr response data
      Hp Hc Hw Hr Hne Hj Hin.
    rewrite (async_attempt_without_result fuel uds max_attempts delay attempt
               n n1 n2 c rest tr response data Hp Hc Hw Hr Hne Hj Hin).
    split; [reflexivity|]. unfold trace_of. cbn [fst sent].
    now rewrite sent_app, (async_receive_sends_nothing _ _ _ _ Hr).
  - intros uds klipper_api_key max_attempts delay attempt n n1 n2 c rest tr response
      data Hp Hc Hw Hr Hj Hin.
    rewrite (blocking_attempt_without_result uds klipper_api_key max_attempts delay
               attempt n n1 n2 c rest tr response data Hp Hc Hw Hr Hj Hin).
    split; [reflexivity|]. unfold trace_of. cbn [fst sent].
    now rewrite sent_app, (blocking_receive_sends_nothing _ _ _ _ Hr).
Qed.

(** The first pass against a peer whose first frame is a notification:
    one request is written, the listing, and the pass ends in the
    wait. *)
Lemma C7_witness :
  sent (trace_of (@Async.attempt_once MiniJson.lib 0 Scenario.uds0 3 2 0
                    (initial_net Scenario.world_notification_first)))
  = [Scenario.wire Async.list_request]
  /\ sleeps (trace_of (@Async.attempt_once MiniJson.lib 0 Scenario.uds0 3 2 0
                         (initial_net Scenario.world_notification_first)))
     = [2%Q].
Proof.
  destruct (C7_listing_comes_first_and_its_failure_retries MiniJson.lib)
    as [_ [_ [_ [Ha _]]]].
  edestruct (Ha 0 Scenario.uds0 3 2%Q 0
               (initial_net Scenario.world_notification_first)) as [Hrun Hsent];
    [reflexivity | reflexivity | reflexivity | reflexivity | reflexivity
    | reflexivity | reflexivity |].
  split; [exact Hsent | rewrite Hrun; reflexivity].
Defined.

(** C8: the query carries an [api_key] field exactly when the resolved
    key passes [if klipper_api_key:].  With no key the dictionary has no
    such field at all, a field that is there holds the key itself, and
    the two bodies differ. *)
Theorem C8_api_key_embedded_only_when_present :
  forall (klipper_api_key : option string),
  exists fields,
    Blocking.query_request klipper_api_key = JObj fields /\
    has_key "api_key" fields = Blocking.api_key_present klipper_api_key /\
    (klipper_api_key = None -> assoc "api_key" fields = None) /\
    (forall v, assoc "api_key" fields = Some v ->
               exists key, klipper_api_key = Some key /\ v = JStr key) /\
    (Blocking.api_key_present klipper_api_key = true ->
     Blocking.query_request klipper_api_key <> Blocking.query_request None).
Proof.
  intros [key|]; unfold Blocking.query_request, Blocking.api_key_present.
  - destruct (nonempty key) eqn:Hk; eexists; (split; [reflexivity|]).
    + repeat split; try reflexivity; try discriminate.
      intros v Hv. cbn in Hv. injection Hv as <-. now exists key.
    + repeat split; try reflexivity; try discriminate.
  - eexists. split; [reflexivity|].
    repeat split; try reflexivity; try discriminate.
Qed.

(** C9: for a status mapping without a [toolhead] entry, or whose
    [toolhead] object has no [position] entry, [print_printer_status]
    raises nothing and prints the default position with two decimals. *)
Theorem C9_missing_toolhead_or_position_prints_default :
  forall (lib : PyLib) (status : list (string * json)) (n : net),
  (assoc "toolhead" status = None \/
   exists toolhead, assoc "toolhead" status = Some (JObj toolhead) /\
                    assoc "position" toolhead = None) ->
  Async.print_printer_status (JObj status) n
  = ([EPrint (Text "Toolhead Position: X=0.00, Y=0.00, Z=0.00")], n, Normal tt).
Proof.
  intros lib status n [Habsent | [toolhead [Hth Hpos]]];
    unfold Async.print_printer_status, Async.position_field, bind, lift, py_get.
  - rewrite Habsent. reflexivity.
  - rewrite Hth. cbn [ret]. rewrite Hpos. reflexivity.
Qed.

Lemma C9_witness :
  @Async.print_printer_status MiniJson.lib
    (JObj [("print_stats", JObj [("state", JStr "printing")]);
           ("toolhead", JObj [("homed_axes", JStr "xyz")])])
    (on_stream [])
  = ([EPrint (Text "Toolhead Position: X=0.00, Y=0.00, Z=0.00")], on_stream [], Normal tt).
Proof.
  apply (C9_missing_toolhead_or_position_prints_default MiniJson.lib).
  right. exists [("homed_axes", JStr "xyz")]. split; reflexivity.
Defined.



(** * Further properties of the two scripts *)

(** ** Dictionaries and the files of the machine *)

Lemma lookup_store {V : Type} (k k' : string) (v : V) (d : Discovery.dict V) :
  Discovery.lookup k (Discovery.store k' v d)
  = if String.eqb k k' then Some v else Discovery.lookup k d.
Proof.
  induction d as [|[k0 v0] d IH]; simpl.
  - reflexivity.
  - destruct (String.eqb k' k0) eqn:E0; simpl.
    + apply String.eqb_eq in E0. subst k0.
      destruct (String.eqb k k'); reflexivity.
    + destruct (String.eqb k k0) eqn:E1.
      * apply String.eqb_eq in E1. subst k0.
        destruct (String.eqb k k') eqn:E2; [|reflexivity].
        apply String.eqb_eq in E2. subst k'. now rewrite String.eqb_refl in E0.
      * exact IH.
Qed.

Section Pairs.
Context {os : Discovery.PyOs}.

Lemma last_of_snoc (k : string) (pairs : list (string * string)) (kv : string * string) :
  last_of k (pairs ++ [kv])
  = if String.eqb k (fst kv) then Some (snd kv) else last_of k pairs.
Proof. unfold last_of. now rewrite fold_left_app. Qed.

Lemma read_pairs_lookup (strip : bool) (k : string) (pairs : list (string * string))
  (data : Discovery.dict string) :
  Discovery.lookup k (Discovery.read_pairs strip pairs data)
  = match last_of k pairs with
    | Some v => Some (if strip then Discovery.str_strip v else v)
    | None => Discovery.lookup k data
    end.
Proof.
  induction pairs as [|kv pairs IH] using rev_ind.
  - reflexivity.
  - rewrite last_of_snoc. unfold Discovery.read_pairs in *.
    rewrite fold_left_app. simpl. rewrite lookup_store.
    destruct (String.eqb k (fst kv)); [reflexivity | exact IH].
Qed.

End Pairs.

Section Scan.
Context {os : Discovery.PyOs} (sys : Discovery.system).

Lemma scan_additional_settings (config_file : string) (data : Discovery.dict string) :
  forall st,
  settings_of (Discovery.scan_additional sys config_file data st) = settings_of st.
Proof.
  unfold Discovery.scan_additional.
  induction data as [|[key value] data IH]; intros st; simpl; [reflexivity|].
  rewrite IH.
  destruct (Discovery.endswith key "_config" && Discovery.endswith value ".conf");
    [|reflexivity].
  destruct (Discovery.os_path_exists sys value); reflexivity.
Qed.

Lemma scan_file_uds (config_file : string) (data : Discovery.dict string)
  (st : Discovery.found) :
  Discovery.klipper_uds (Discovery.scan_file sys config_file data st)
  = match socket_of data with
    | Some v => Some v
    | None => Discovery.klipper_uds st
    end.
Proof.
  unfold Discovery.scan_file.
  pose proof (scan_additional_settings config_file data
    (Discovery.scan_port config_file data
       (Discovery.scan_api_key config_file data
          (Discovery.scan_socket config_file data st)))) as H.
  unfold settings_of in H. injection H as H _ _ _. rewrite H. clear H.
  unfold Discovery.scan_port, Discovery.scan_api_key, Discovery.scan_socket, socket_of.
  destruct (Discovery.lookup "port" data);
    [|destruct (Discovery.lookup "moonraker_port" data)];
    (destruct (Discovery.lookup "api_key" data);
     [destruct (Discovery.endswith config_file "printer.cfg");
      [|destruct (Discovery.endswith config_file "moonraker.conf")]|]);
    (destruct (Discovery.lookup "unix_socket_path" data);
     [|destruct (Discovery.lookup "socket_path" data)]);
    destruct (Discovery.lookup "klippy_uds_address" data); reflexivity.
Qed.

Lemma last_some_snoc {A B : Type} (f : A -> option B) (xs : list A) (x : A) :
  last_some f (xs ++ [x])
  = match f x with Some v => Some v | None => last_some f xs end.
Proof. unfold last_some. now rewrite fold_left_app. Qed.

Lemma scan_snoc (config_data : Discovery.dict (Discovery.dict string))
  (entry : string * Discovery.dict string) (st : Discovery.found) :
  Discovery.scan sys (config_data ++ [entry]) st
  = Discovery.scan_file sys (fst entry) (snd entry) (Discovery.scan sys config_data st).
Proof. unfold Discovery.scan. now rewrite fold_left_app. Qed.

Lemma scan_uds (config_data : Discovery.dict (Discovery.dict string))
  (st : Discovery.found) :
  Discovery.klipper_uds (Discovery.scan sys config_data st)
  = match last_some (fun entry => socket_of (snd entry)) config_data with
    | Some v => Some v
    | None => Discovery.klipper_uds st
    end.
Proof.
  induction config_data as [|entry config_data IH] using rev_ind.
  - reflexivity.
  - rewrite scan_snoc, scan_file_uds, last_some_snoc.
    destruct (socket_of (snd entry)); [reflexivity | exact IH].
Qed.

End Scan.

Section Dict.
Context {V : Type}.

Lemma store_fresh (k : string) (v : V) (d : Discovery.dict V) :
  ~ In k (keys d) -> Discovery.store k v d = d ++ [(k, v)].
Proof.
  induction d as [|[k0 v0] d IH]; simpl; intros H; [reflexivity|].
  destruct (String.eqb k k0) eqn:E.
  - apply String.eqb_eq in E. subst k0. exfalso. apply H. now left.
  - rewrite IH; [reflexivity|]. intros Hin. apply H. now right.
Qed.

Lemma store_app_in (k : string) (v : V) (a b : Discovery.dict V) :
  In k (keys a) -> Discovery.store k v (a ++ b) = Discovery.store k v a ++ b.
Proof.
  induction a as [|[k0 v0] a IH]; simpl; intros H; [contradiction|].
  destruct (String.eqb k k0) eqn:E; [reflexivity|].
  destruct H as [H|H]; [subst k0; now rewrite String.eqb_refl in E|].
  now rewrite IH.
Qed.

Lemma store_app_out (k : string) (v : V) (a b : Discovery.dict V) :
  ~ In k (keys a) -> Discovery.store k v (a ++ b) = a ++ Discovery.store k v b.
Proof.
  induction a as [|[k0 v0] a IH]; simpl; intros H; [reflexivity|].
  destruct (String.eqb k k0) eqn:E.
  - apply String.eqb_eq in E. subst k0. exfalso. apply H. now left.
  - rewrite IH; [reflexivity|]. intros Hin. apply H. now right.
Qed.

Lemma keys_store (k : string) (v : V) (d : Discovery.dict V) :
  forall k', In k' (keys (Discovery.store k v d)) <-> k' = k \/ In k' (keys d).
Proof.
  induction d as [|[k0 v0] d IH]; intros k'; simpl.
  - intuition.
  - destruct (String.eqb k k0) eqn:E; simpl.
    + apply String.eqb_eq in E. subst k0. intuition.
    + rewrite IH. intuition.
Qed.

Lemma keys_store_in (k : string) (v : V) (d : Discovery.dict V) :
  In k (keys d) -> keys (Discovery.store k v d) = keys d.
Proof.
  induction d as [|[k0 v0] d IH]; simpl; intros H; [contradiction|].
  destruct (String.eqb k k0) eqn:E; simpl.
  - apply String.eqb_eq in E. now subst k0.
  - destruct H as [H|H]; [subst k0; now rewrite String.eqb_refl in E|].
    now rewrite IH.
Qed.

End Dict.

Section Load.
Context {os : Discovery.PyOs} (sys : Discovery.system).

Lemma content_of_readable (path content : string) :
  Discovery.read_text sys path = inr content -> content_of sys path = content.
Proof. unfold content_of. now intros ->. Qed.

Lemma load_readable (config_files : list string) :
  forall config_data,
  Forall (readable sys) config_files ->
  Discovery.load sys config_files config_data = inr (loaded sys config_files config_data).
Proof.
  induction config_files as [|f files IH]; intros D H; simpl; [reflexivity|].
  inversion H as [|? ? [content Hc] Hrest]; subst.
  rewrite Hc. unfold loaded. simpl. rewrite (content_of_readable f content Hc).
  exact (IH _ Hrest).
Qed.

Lemma load_unreadable (config_files : list string) (e : exn) :
  forall config_data,
  Discovery.load sys config_files config_data = inl e <->
  exists before f after,
    config_files = before ++ f :: after /\
    Forall (readable sys) before /\
    Discovery.read_text sys f = inl e.
Proof.
  induction config_files as [|f files IH]; intros D; simpl.
  - split; [discriminate|]. intros [[|? ?] [? [? [H _]]]]; discriminate H.
  - destruct (Discovery.read_text sys f) as [e'|content] eqn:Hf.
    + split.
      * intros [= ->]. exists [], f, files. repeat split; [constructor | exact Hf].
      * intros [[|g before] [f' [after [Heq [Hall Hf']]]]].
        -- injection Heq as <- _. congruence.
        -- injection Heq as <- _. inversion Hall as [|? ? [c Hc] _]; subst. congruence.
    + rewrite IH. split.
      * intros [before [f' [after [-> [Hall Hf']]]]].
        exists (f :: before), f', after. repeat split; [|exact Hf'].
        constructor; [now exists content | exact Hall].
      * intros [[|g before] [f' [after [Heq [Hall Hf']]]]].
        -- injection Heq as <- _. congruence.
        -- injection Heq as <- ->. inversion Hall; subst.
           now exists before, f', after.
Qed.

Lemma keys_loaded (config_files : list string) :
  forall config_data k,
  In k (keys (loaded sys config_files config_data)) <->
  In k (keys config_data) \/ In k config_files.
Proof.
  unfold loaded.
  induction config_files as [|f files IH]; intros D k; simpl.
  - intuition.
  - rewrite IH, keys_store. intuition.
Qed.

Lemma faithful_store (f : string) (config_data : Discovery.dict (Discovery.dict string)) :
  faithful sys config_data ->
  faithful sys (Discovery.store f (Discovery.read_config (content_of sys f)) config_data).
Proof.
  unfold faithful.
  induction config_data as [|[k0 v0] D IH]; simpl; intros H.
  - repeat constructor.
  - inversion H; subst. destruct (String.eqb f k0); constructor; auto.
Qed.

Lemma faithful_loaded (config_files : list string) :
  forall config_data,
  faithful sys config_data -> faithful sys (loaded sys config_files config_data).
Proof.
  unfold loaded.
  induction config_files as [|f files IH]; intros D H; simpl; [exact H|].
  apply IH. now apply faithful_store.
Qed.

Lemma last_some_none {A B : Type} (f : A -> option B) (xs : list A) :
  last_some f xs = None <-> Forall (fun x => f x = None) xs.
Proof.
  induction xs as [|x xs IH] using rev_ind.
  - split; [constructor | reflexivity].
  - rewrite last_some_snoc, Forall_app. destruct (f x) eqn:E.
    + split; [discriminate|]. intros [_ H]. inversion H; subst. congruence.
    + rewrite IH. split; [intros H; split; [exact H | now repeat constructor]|].
      now intros [H _].
Qed.

Lemma last_some_tail {A B : Type} (f : A -> option B) (xs ys : list A) (x : A) (v : B) :
  f x = Some v -> Forall (fun y => f y = None) ys ->
  last_some f (xs ++ x :: ys) = Some v.
Proof.
  intros Hx. induction ys as [|y ys IH] using rev_ind; intros Hys.
  - now rewrite last_some_snoc, Hx.
  - apply Forall_app in Hys. destruct Hys as [Hys Hy]. inversion Hy; subst.
    replace (xs ++ x :: ys ++ [y]) with ((xs ++ x :: ys) ++ [y])
      by now rewrite <- app_assoc.
    rewrite last_some_snoc, H1. exact (IH Hys).
Qed.

(** After the files of [before] and then [f], the files of [after]
    that bring a socket path are files seen already: the entry of [f]
    stays the last one that has a socket path. *)
Lemma loaded_tail (before after : list string) (f : string) :
  ~ In f before ->
  (forall g, In g after ->
     socket_of (Discovery.read_config (content_of sys g)) = None \/ In g before \/ g = f) ->
  exists head tail,
    loaded sys (before ++ f :: after) []
    = head ++ (f, Discovery.read_config (content_of sys f)) :: tail /\
    Forall (fun entry => socket_of (snd entry) = None) tail.
Proof.
  intros Hf Hafter.
  set (d := Discovery.read_config (content_of sys f)).
  assert (Hstart : loaded sys (before ++ [f]) [] = loaded sys before [] ++ [(f, d)]).
  { unfold loaded. rewrite fold_left_app. simpl. apply store_fresh.
    intros Hin. apply (keys_loaded before [] f) in Hin. destruct Hin as [[]|Hin].
    now apply Hf. }
  replace (before ++ f :: after) with ((before ++ [f]) ++ after)
    by now rewrite <- app_assoc.
  unfold loaded at 1. rewrite fold_left_app. fold (loaded sys (before ++ [f]) []).
  rewrite Hstart. fold (loaded sys after (loaded sys before [] ++ [(f, d)])).
  assert (Hkeys : forall g, In g (keys (loaded sys before [])) <-> In g before).
  { intros g. rewrite keys_loaded. simpl. intuition. }
  revert Hkeys. generalize (loaded sys before []) as head. intros head Hkeys.
  assert (G : forall after head tail,
    (forall g, In g (keys head) <-> In g before) ->
    Forall (fun entry => socket_of (snd entry) = None) tail ->
    (forall g, In g after ->
       socket_of (Discovery.read_config (content_of sys g)) = None
       \/ In g before \/ g = f) ->
    exists head' tail',
      loaded sys after (head ++ (f, d) :: tail) = head' ++ (f, d) :: tail' /\
      Forall (fun entry => socket_of (snd entry) = None) tail').
  { clear after Hafter head Hkeys Hstart.
    induction after as [|g after IH]; intros head tail Hkeys Htail Hafter.
    - exists head, tail. split; [reflexivity | exact Htail].
    - unfold loaded. simpl.
      fold (loaded sys after
              (Discovery.store g (Discovery.read_config (content_of sys g))
                 (head ++ (f, d) :: tail))).
      assert (Hrest : forall g', In g' after ->
                socket_of (Discovery.read_config (content_of sys g')) = None
                \/ In g' before \/ g' = f)
        by (intros g' Hg'; apply Hafter; now right).
      destruct (in_dec string_dec g (keys head)) as [Hin|Hout].
      + rewrite store_app_in by exact Hin.
        apply IH; [|exact Htail|exact Hrest].
        intros g'. rewrite keys_store_in by exact Hin. apply Hkeys.
      + rewrite store_app_out by exact Hout. simpl.
        destruct (String.eqb g f) eqn:E.
        * apply String.eqb_eq in E. subst g. fold d.
          apply IH; assumption.
        * apply IH; [exact Hkeys| |exact Hrest].
          assert (Hnone : socket_of (Discovery.read_config (content_of sys g)) = None).
          { destruct (Hafter g (or_introl eq_refl)) as [H|[H|H]]; [exact H| |].
            - exfalso. apply Hout. now apply Hkeys.
            - subst g. now rewrite String.eqb_refl in E. }
          clear - Htail Hnone.
          induction tail as [|[k0 v0] tail IHt]; simpl.
          -- repeat constructor. exact Hnone.
          -- inversion Htail; subst.
             destruct (String.eqb g k0); constructor; auto. }
  destruct (G after head [] Hkeys (Forall_nil _) Hafter) as [head' [tail' [E Ht]]].
  exists head', tail'. split; [exact E | exact Ht].
Qed.

End Load.

(** ** Finding the processes *)

Section Find.
Context {os : Discovery.PyOs} (sys : Discovery.system).

Lemma inspect_name (args : list string) :
  option_map fst (Discovery.inspect sys args) = name_of (String.concat " " args).
Proof.
  unfold Discovery.inspect, name_of, words. cbn [find fst snd].
  repeat match goal with
         | |- context [if ?b then _ else _] => destruct b; [reflexivity|]
         end.
  reflexivity.
Qed.

Lemma find_loop_spec (procs : list Discovery.proc) :
  forall processes config_files,
  match Discovery.find_loop sys procs processes config_files with
  | inr result =>
    Forall (fun p => Discovery.cmdline p <> None) procs /\
    result = (processes ++ flat_map (entry_of sys) procs,
              config_files ++ flat_map (files_of sys) procs)
  | inl e =>
    e = TypeError /\ exists p, In p procs /\ Discovery.cmdline p = None
  end.
Proof.
  induction procs as [|p procs IH]; intros processes config_files; simpl.
  - split; [constructor | now rewrite !app_nil_r].
  - unfold entry_of at 1, files_of at 1.
    destruct (Discovery.cmdline p) as [args|] eqn:Hc.
    + destruct (Discovery.inspect sys args) as [[name files]|].
      * specialize (IH (processes ++ [(name, p)]) (config_files ++ files)).
        destruct (Discovery.find_loop sys procs _ _) as [e|result].
        -- destruct IH as [-> [q [Hq Hn]]]. split; [reflexivity|].
           exists q. split; [now right | exact Hn].
        -- destruct IH as [Hall ->]. split.
           ++ constructor; [congruence | exact Hall].
           ++ now rewrite <- !app_assoc.
      * specialize (IH processes config_files).
        destruct (Discovery.find_loop sys procs _ _) as [e|result].
        -- destruct IH as [-> [q [Hq Hn]]]. split; [reflexivity|].
           exists q. split; [now right | exact Hn].
        -- destruct IH as [Hall ->]. split; [|reflexivity].
           constructor; [congruence | exact Hall].
    + split; [reflexivity|]. exists p. split; [now left | exact Hc].
Qed.

Lemma entry_of_listed (p : Discovery.proc) :
  map snd (entry_of sys p) = if listed p then [p] else [].
Proof.
  unfold entry_of, listed. destruct (Discovery.cmdline p) as [args|]; [|reflexivity].
  rewrite <- inspect_name.
  destruct (Discovery.inspect sys args) as [[name files]|]; reflexivity.
Qed.

Lemma entries_listed (procs : list Discovery.proc) :
  map snd (flat_map (entry_of sys) procs) = filter listed procs.
Proof.
  induction procs as [|p procs IH]; simpl; [reflexivity|].
  rewrite map_app, IH, entry_of_listed. now destruct (listed p).
Qed.

Lemma optional_file (path f : string) :
  In f (if Discovery.os_path_exists sys path then [path] else []) ->
  Discovery.os_path_exists sys f = true.
Proof.
  destruct (Discovery.os_path_exists sys path) eqn:Ex; [|contradiction].
  intros [<-|[]]. exact Ex.
Qed.

Lemma klipper_arg_files (arg f : string) :
  In f (Discovery.klipper_arg sys arg) ->
  (f = arg /\ Discovery.endswith f ".cfg" = true)
  \/ Discovery.os_path_exists sys f = true.
Proof.
  unfold Discovery.klipper_arg.
  destruct (Discovery.endswith arg ".cfg") eqn:E; [|contradiction].
  intros [<-|H]; [left; now split|]. right.
  cbn [app] in H. apply in_app_or in H.
  destruct H as [H|H]; exact (optional_file _ f H).
Qed.

Lemma moonraker_arg_files (arg f : string) :
  In f (Discovery.moonraker_arg sys arg) -> Discovery.os_path_exists sys f = true.
Proof.
  unfold Discovery.moonraker_arg.
  destruct (Discovery.startswith arg "-d"); [|contradiction].
  apply optional_file.
Qed.

Lemma crowsnest_arg_files (arg f : string) :
  In f (Discovery.crowsnest_arg arg) -> f = arg /\ Discovery.endswith f ".conf" = true.
Proof.
  unfold Discovery.crowsnest_arg.
  destruct (Discovery.endswith arg ".conf") eqn:E; [|contradiction].
  intros [<-|[]]. now split.
Qed.

Lemma inspect_files (args : list string) (name f : string) (files : list string) :
  Discovery.inspect sys args = Some (name, files) -> In f files ->
  (In f args /\
   (Discovery.endswith f ".cfg" = true \/ Discovery.endswith f ".conf" = true))
  \/ Discovery.os_path_exists sys f = true.
Proof.
  unfold Discovery.inspect.
  repeat match goal with
         | |- context [if ?b then _ else _] => destruct b
         end;
    intros [= <- <-] Hin; try contradiction; apply in_flat_map in Hin;
    destruct Hin as [arg [Harg Hf]].
  - destruct (klipper_arg_files arg f Hf) as [[-> E]|E]; [left|now right].
    split; [exact Harg | now left].
  - right. exact (moonraker_arg_files arg f Hf).
  - destruct (crowsnest_arg_files arg f Hf) as [-> E]. left.
    split; [exact Harg | now right].
Qed.

End Find.

(** ** Parsing the config files *)

Section MoreScan.
Context {os : Discovery.PyOs} (sys : Discovery.system).

Lemma load_inr_readable (config_files : list string) :
  forall config_data result,
  Discovery.load sys config_files config_data = inr result ->
  Forall (readable sys) config_files.
Proof.
  induction config_files as [|f files IH]; intros D result H; simpl in H.
  - constructor.
  - destruct (Discovery.read_text sys f) as [e|content] eqn:Hf; [discriminate|].
    constructor; [now exists content | exact (IH _ _ H)].
Qed.

Lemma parse_inr (config_files : list string) (st : Discovery.found) :
  Discovery.parse_config_files sys config_files = inr st ->
  Forall (readable sys) config_files /\
  st = Discovery.scan sys (loaded sys config_files [])
         (Discovery.nothing_found config_files).
Proof.
  unfold Discovery.parse_config_files. intros H.
  destruct (Discovery.load sys config_files []) as [e|D] eqn:HD; [discriminate|].
  pose proof (load_inr_readable _ _ _ HD) as Hall.
  rewrite (load_readable sys _ _ Hall) in HD. injection HD as <-.
  injection H as <-. now split.
Qed.

Lemma last_some_in {A B : Type} (f : A -> option B) (xs : list A) (v : B) :
  last_some f xs = Some v -> exists x, In x xs /\ f x = Some v.
Proof.
  induction xs as [|x xs IH] using rev_ind; [discriminate|].
  rewrite last_some_snoc. destruct (f x) as [v'|] eqn:E.
  - intros [= <-]. exists x. split; [apply in_or_app; right; now left | exact E].
  - intros H. destruct (IH H) as [y [Hy Hf]].
    exists y. split; [apply in_or_app; now left | exact Hf].
Qed.

(** The entries of the loaded dictionary are the files of the list,
    each with the dictionary of its text. *)
Lemma loaded_entries (config_files : list string) (entry : string * Discovery.dict string) :
  In entry (loaded sys config_files []) ->
  In (fst entry) config_files /\
  snd entry = Discovery.read_config (content_of sys (fst entry)).
Proof.
  intros Hin. split.
  - assert (Hk : In (fst entry) (keys (loaded sys config_files [])))
      by (unfold keys; now apply in_map).
    apply keys_loaded in Hk. destruct Hk as [[]|Hk]. exact Hk.
  - pose proof (faithful_loaded sys config_files [] (Forall_nil _)) as Hf.
    unfold faithful in Hf. rewrite Forall_forall in Hf. exact (Hf entry Hin).
Qed.

Lemma loaded_has (config_files : list string) (f : string) :
  In f config_files ->
  In (f, Discovery.read_config (content_of sys f)) (loaded sys config_files []).
Proof.
  intros Hin.
  assert (Hk : In f (keys (loaded sys config_files [])))
    by (apply keys_loaded; now right).
  unfold keys in Hk. apply in_map_iff in Hk. destruct Hk as [[g d] [Hg Hentry]].
  simpl in Hg. subst g.
  destruct (loaded_entries config_files (f, d) Hentry) as [_ Hd]. simpl in Hd.
  now rewrite <- Hd.
Qed.

(** A property of what has been found that every pass of the second
    loop keeps is kept by the loop. *)
Lemma scan_keeps (P : Discovery.found -> Prop)
  (config_data : Discovery.dict (Discovery.dict string)) :
  (forall entry st, In entry config_data -> P st ->
     P (Discovery.scan_file sys (fst entry) (snd entry) st)) ->
  forall st, P st -> P (Discovery.scan sys config_data st).
Proof.
  unfold Discovery.scan.
  induction config_data as [|entry D IH]; intros Hstep st Hst; simpl; [exact Hst|].
  apply IH.
  - intros e s He. apply Hstep. now right.
  - apply Hstep; [now left | exact Hst].
Qed.

Lemma scan_file_api_keys (config_file : string) (data : Discovery.dict string)
  (st : Discovery.found) :
  Discovery.klipper_api_key (Discovery.scan_file sys config_file data st)
  = match Discovery.lookup "api_key" data with
    | Some v =>
      if Discovery.endswith config_file "printer.cfg" then Some v
      else Discovery.klipper_api_key st
    | None => Discovery.klipper_api_key st
    end
  /\
  Discovery.moonraker_api_key (Discovery.scan_file sys config_file data st)
  = match Discovery.lookup "api_key" data with
    | Some v =>
      if Discovery.endswith config_file "printer.cfg" then Discovery.moonraker_api_key st
      else if Discovery.endswith config_file "moonraker.conf" then Some v
      else Discovery.moonraker_api_key st
    | None => Discovery.moonraker_api_key st
    end.
Proof.
  unfold Discovery.scan_file.
  pose proof (scan_additional_settings sys config_file data
    (Discovery.scan_port config_file data
       (Discovery.scan_api_key config_file data
          (Discovery.scan_socket config_file data st)))) as H.
  unfold settings_of in H. injection H as _ _ H1 H2. rewrite H1, H2. clear H1 H2.
  unfold Discovery.scan_port, Discovery.scan_api_key, Discovery.scan_socket.
  destruct (Discovery.lookup "port" data);
    [|destruct (Discovery.lookup "moonraker_port" data)];
    (destruct (Discovery.lookup "api_key" data);
     [destruct (Discovery.endswith config_file "printer.cfg");
      [|destruct (Discovery.endswith config_file "moonraker.conf")]|]);
    (destruct (Discovery.lookup "unix_socket_path" data);
     [|destruct (Discovery.lookup "socket_path" data)]);
    destruct (Discovery.lookup "klippy_uds_address" data); split; reflexivity.
Qed.

Lemma scan_api_keys (config_data : Discovery.dict (Discovery.dict string))
  (st : Discovery.found) :
  Discovery.klipper_api_key (Discovery.scan sys config_data st)
  = match last_some (fun entry => klipper_key_of (fst entry) (snd entry)) config_data with
    | Some v => Some v
    | None => Discovery.klipper_api_key st
    end
  /\
  Discovery.moonraker_api_key (Discovery.scan sys config_data st)
  = match last_some (fun entry => moonraker_key_of (fst entry) (snd entry)) config_data with
    | Some v => Some v
    | None => Discovery.moonraker_api_key st
    end.
Proof.
  induction config_data as [|entry config_data [IHk IHm]] using rev_ind.
  - split; reflexivity.
  - rewrite scan_snoc, !last_some_snoc.
    destruct (scan_file_api_keys (fst entry) (snd entry)
                (Discovery.scan sys config_data st)) as [-> ->].
    unfold klipper_key_of, moonraker_key_of. rewrite IHk, IHm.
    destruct (Discovery.lookup "api_key" (snd entry));
      destruct (Discovery.endswith (fst entry) "printer.cfg");
      destruct (Discovery.endswith (fst entry) "moonraker.conf");
      split; reflexivity.
Qed.

(** After the files of [before] and then [f], the files of [after]
    on which [pick] answers are files seen already: the entry of [f]
    stays the last one on which it answers. *)
Lemma loaded_tail_by (pick : string -> Discovery.dict string -> option string)
  (before after : list string) (f : string) :
  ~ In f before ->
  (forall g, In g after ->
     pick g (Discovery.read_config (content_of sys g)) = None \/ In g before \/ g = f) ->
  exists head tail,
    loaded sys (before ++ f :: after) []
    = head ++ (f, Discovery.read_config (content_of sys f)) :: tail /\
    Forall (fun entry => pick (fst entry) (snd entry) = None) tail.
Proof.
  intros Hf Hafter.
  set (d := Discovery.read_config (content_of sys f)).
  assert (Hstart : loaded sys (before ++ [f]) [] = loaded sys before [] ++ [(f, d)]).
  { unfold loaded. rewrite fold_left_app. simpl. apply store_fresh.
    intros Hin. apply (keys_loaded sys before [] f) in Hin. destruct Hin as [[]|Hin].
    now apply Hf. }
  replace (before ++ f :: after) with ((before ++ [f]) ++ after)
    by now rewrite <- app_assoc.
  unfold loaded at 1. rewrite fold_left_app. fold (loaded sys (before ++ [f]) []).
  rewrite Hstart. fold (loaded sys after (loaded sys before [] ++ [(f, d)])).
  assert (Hkeys : forall g, In g (keys (loaded sys before [])) <-> In g before).
  { intros g. rewrite keys_loaded. simpl. intuition. }
  revert Hkeys. generalize (loaded sys before []) as head. intros head Hkeys.
  assert (G : forall after head tail,
    (forall g, In g (keys head) <-> In g before) ->
    Forall (fun entry => pick (fst entry) (snd entry) = None) tail ->
    (forall g, In g after ->
       pick g (Discovery.read_config (content_of sys g)) = None
       \/ In g before \/ g = f) ->
    exists head' tail',
      loaded sys after (head ++ (f, d) :: tail) = head' ++ (f, d) :: tail' /\
      Forall (fun entry => pick (fst entry) (snd entry) = None) tail').
  { clear after Hafter head Hkeys Hstart.
    induction after as [|g after IH]; intros head tail Hkeys Htail Hafter.
    - exists head, tail. split; [reflexivity | exact Htail].
    - unfold loaded. simpl.
      fold (loaded sys after
              (Discovery.store g (Discovery.read_config (content_of sys g))
                 (head ++ (f, d) :: tail))).
      assert (Hrest : forall g', In g' after ->
                pick g' (Discovery.read_config (content_of sys g')) = None
                \/ In g' before \/ g' = f)
        by (intros g' Hg'; apply Hafter; now right).
      destruct (in_dec string_dec g (keys head)) as [Hin|Hout].
      + rewrite store_app_in by exact Hin.
        apply IH; [|exact Htail|exact Hrest].
        intros g'. rewrite keys_store_in by exact Hin. apply Hkeys.
      + rewrite store_app_out by exact Hout. simpl.
        destruct (String.eqb g f) eqn:E.
        * apply String.eqb_eq in E. subst g. fold d.
          apply IH; assumption.
        * apply IH; [exact Hkeys| |exact Hrest].
          assert (Hnone : pick g (Discovery.read_config (content_of sys g)) = None).
          { destruct (Hafter g (or_introl eq_refl)) as [H|[H|H]]; [exact H| |].
            - exfalso. apply Hout. now apply Hkeys.
            - subst g. now rewrite String.eqb_refl in E. }
          clear - Htail Hnone.
          induction tail as [|[k0 v0] tail IHt]; simpl.
          -- repeat constructor. exact Hnone.
          -- inversion Htail; subst.
             destruct (String.eqb g k0) eqn:Ek; constructor; auto. }
  destruct (G after head [] Hkeys (Forall_nil _) Hafter) as [head' [tail' [E Ht]]].
  exists head', tail'. split; [exact E | exact Ht].
Qed.

End MoreScan.

Section Agreement.
Context {os : Discovery.PyOs} (sys sys' : Discovery.system).

Lemma load_agrees (config_files : list string) :
  (forall f, In f config_files -> Discovery.read_text sys f = Discovery.read_text sys' f) ->
  forall config_data,
  Discovery.load sys config_files config_data
  = Discovery.load sys' config_files config_data.
Proof.
  induction config_files as [|f files IH]; intros H D; simpl; [reflexivity|].
  rewrite <- (H f (or_introl eq_refl)).
  destruct (Discovery.read_text sys f); [reflexivity|].
  apply IH. intros g Hg. apply H. now right.
Qed.

Lemma scan_file_agrees (config_file : string) (data : Discovery.dict string)
  (st st' : Discovery.found) :
  settings_of st = settings_of st' ->
  settings_of (Discovery.scan_file sys config_file data st)
  = settings_of (Discovery.scan_file sys' config_file data st').
Proof.
  intros H. unfold Discovery.scan_file. rewrite !scan_additional_settings.
  destruct st as [a b c d l fs], st' as [a' b' c' d' l' fs'].
  unfold settings_of in H. simpl in H. injection H as <- <- <- <-.
  unfold Discovery.scan_port, Discovery.scan_api_key, Discovery.scan_socket.
  destruct (Discovery.lookup "port" data);
    [|destruct (Discovery.lookup "moonraker_port" data)];
    (destruct (Discovery.lookup "api_key" data);
     [destruct (Discovery.endswith config_file "printer.cfg");
      [|destruct (Discovery.endswith config_file "moonraker.conf")]|]);
    (destruct (Discovery.lookup "unix_socket_path" data);
     [|destruct (Discovery.lookup "socket_path" data)]);
    destruct (Discovery.lookup "klippy_uds_address" data); reflexivity.
Qed.

Lemma scan_agrees (config_data : Discovery.dict (Discovery.dict string)) :
  forall st st',
  settings_of st = settings_of st' ->
  settings_of (Discovery.scan sys config_data st)
  = settings_of (Discovery.scan sys' config_data st').
Proof.
  unfold Discovery.scan.
  induction config_data as [|entry D IH]; intros st st' H; simpl; [exact H|].
  apply IH. now apply scan_file_agrees.
Qed.

End Agreement.

(** ** Endpoint discovery, property by property *)

(** X1: when [find_processes_and_config_files] returns, the processes
    it lists are those of the process table in whose command line one
    of the six words occurs, once each and in table order, and each is
    listed under the name of the first word of the [if]/[elif] chain
    that occurs: a command line with both [klippy.py] and [moonraker]
    in it is listed as klipper. *)
Theorem find_lists_named_processes_in_table_order :
  forall (os : Discovery.PyOs) (sys : Discovery.system)
         (found_processes : list (string * Discovery.proc)) (found_files : list string),
  Discovery.find_processes_and_config_files sys = inr (found_processes, found_files) ->
  map snd found_processes = filter listed (Discovery.process_iter sys) /\
  forall name p, In (name, p) found_processes ->
    exists args,
      Discovery.cmdline p = Some args /\
      name_of (String.concat " " args) = Some name.
Proof.
  intros os sys found_processes found_files H.
  unfold Discovery.find_processes_and_config_files in H.
  pose proof (find_loop_spec sys (Discovery.process_iter sys) [] []) as Hs.
  rewrite H in Hs. destruct Hs as [_ [= -> _]]. split.
  - apply entries_listed.
  - intros name p Hin. apply in_flat_map in Hin. destruct Hin as [q [_ Hq]].
    unfold entry_of in Hq. destruct (Discovery.cmdline q) as [args|] eqn:Hc; [|contradiction].
    pose proof (inspect_name sys args) as Hn.
    destruct (Discovery.inspect sys args) as [[name' files]|]; [|contradiction].
    destruct Hq as [[= <- <-]|[]]. exists args. split; [exact Hc | now rewrite <- Hn].
Qed.

Lemma find_lists_named_processes_witness :
  map snd [("klipper", MiniOs.klippy); ("moonraker", MiniOs.moonraker)]
  = filter listed (Discovery.process_iter MiniOs.printer_host) /\
  forall name p,
    In (name, p) [("klipper", MiniOs.klippy); ("moonraker", MiniOs.moonraker)] ->
    exists args,
      Discovery.cmdline p = Some args /\
      name_of (String.concat " " args) = Some name.
Proof.
  apply (find_lists_named_processes_in_table_order MiniOs.os MiniOs.printer_host
           [("klipper", MiniOs.klippy); ("moonraker", MiniOs.moonraker)]
           [MiniOs.printer_cfg; MiniOs.moonraker_conf]).
  vm_compute. reflexivity.
Defined.

(** X2: every config file [find_processes_and_config_files] returns is
    either an argument of a process, taken as written because it ends
    in [.cfg] or [.conf], or a path that [os.path.exists] confirmed.
    The arguments themselves are not checked: every argument of a
    klippy command line that ends in [.cfg] is in the list, whether the
    file exists or not. *)
Theorem find_config_files_are_arguments_or_exist :
  forall (os : Discovery.PyOs) (sys : Discovery.system)
         (found_processes : list (string * Discovery.proc)) (found_files : list string),
  Discovery.find_processes_and_config_files sys = inr (found_processes, found_files) ->
  (forall f, In f found_files ->
     (exists p args,
        In p (Discovery.process_iter sys) /\
        Discovery.cmdline p = Some args /\
        In f args /\
        (Discovery.endswith f ".cfg" = true \/ Discovery.endswith f ".conf" = true))
     \/ Discovery.os_path_exists sys f = true)
  /\
  (forall p args arg,
     In p (Discovery.process_iter sys) ->
     Discovery.cmdline p = Some args ->
     Discovery.str_in "klippy.py" (String.concat " " args) = true ->
     In arg args ->
     Discovery.endswith arg ".cfg" = true ->
     In arg found_files).
Proof.
  intros os sys found_processes found_files H.
  unfold Discovery.find_processes_and_config_files in H.
  pose proof (find_loop_spec sys (Discovery.process_iter sys) [] []) as Hs.
  rewrite H in Hs. destruct Hs as [_ [= _ ->]]. split.
  - intros f Hin. simpl in Hin.
    apply in_flat_map in Hin. destruct Hin as [p [Hp Hf]].
    unfold files_of in Hf.
    destruct (Discovery.cmdline p) as [args|] eqn:Hc; [|contradiction].
    destruct (Discovery.inspect sys args) as [[name files]|] eqn:Hi; [|contradiction].
    destruct (inspect_files sys args name f files Hi Hf) as [[Harg Hend]|Hex].
    + left. now exists p, args.
    + now right.
  - intros p args arg Hp Hc Hk Harg Hend. simpl.
    apply in_flat_map. exists p. split; [exact Hp|].
    unfold files_of, Discovery.inspect. rewrite Hc, Hk.
    apply in_flat_map. exists arg. split; [exact Harg|].
    unfold Discovery.klipper_arg. rewrite Hend. now left.
Qed.

Lemma find_config_files_witness :
  In MiniOs.printer_cfg [MiniOs.printer_cfg; MiniOs.moonraker_conf].
Proof.
  refine (proj2 (find_config_files_are_arguments_or_exist MiniOs.os MiniOs.printer_host
                   [("klipper", MiniOs.klippy); ("moonraker", MiniOs.moonraker)]
                   [MiniOs.printer_cfg; MiniOs.moonraker_conf] _)
            MiniOs.klippy
            ["python"; "/home/pi/klipper/klippy/klippy.py"; MiniOs.printer_cfg]
            MiniOs.printer_cfg _ _ _ _ _);
    first [ vm_compute; reflexivity
          | right; left; reflexivity
          | right; right; left; reflexivity ].
Defined.

(** X3: [find_processes_and_config_files] raises exactly when the
    process table holds a process whose command line is [None], and
    what it raises is the [TypeError] of [' '.join(None)]. *)
Theorem find_raises_on_missing_command_line :
  forall (os : Discovery.PyOs) (sys : Discovery.system) (e : exn),
  Discovery.find_processes_and_config_files sys = inl e <->
  e = TypeError /\
  exists p, In p (Discovery.process_iter sys) /\ Discovery.cmdline p = None.
Proof.
  intros os sys e. unfold Discovery.find_processes_and_config_files.
  pose proof (find_loop_spec sys (Discovery.process_iter sys) [] []) as Hs.
  destruct (Discovery.find_loop sys (Discovery.process_iter sys) [] []) as [e'|result].
  - destruct Hs as [-> Hp]. split.
    + intros [= <-]. now split.
    + now intros [-> _].
  - destruct Hs as [Hall _]. split; [discriminate|].
    intros [_ [p [Hp Hc]]]. rewrite Forall_forall in Hall.
    now destruct (Hall p Hp).
Qed.

(** X4: in the dictionary [parse_config_files] builds for one file, a
    key holds the value of its last [key: value] line with the value in
    double quotes, quotes removed and nothing stripped; failing that
    the stripped value of its last [key: value] line; failing that the
    stripped value of its last [key = value] line. *)
Theorem read_config_prefers_quoted_then_colon_then_equals :
  forall (os : Discovery.PyOs) (k content : string),
  Discovery.lookup k (Discovery.read_config content)
  = match last_of k (Discovery.re_findall Discovery.KeyColonQuoted content) with
    | Some v => Some v
    | None =>
      match last_of k (Discovery.re_findall Discovery.KeyColon content) with
      | Some v => Some (Discovery.str_strip v)
      | None =>
        match last_of k (Discovery.re_findall Discovery.KeyEquals content) with
        | Some v => Some (Discovery.str_strip v)
        | None => None
        end
      end
    end.
Proof.
  intros os k content. unfold Discovery.read_config.
  rewrite !read_pairs_lookup. reflexivity.
Qed.

(** X5: the socket path [parse_config_files] returns is that of the
    file whose entry comes last in [config_data] among the files that
    name one.  A file counts at its first place in the list: when [f]
    first appears after [before] and every later file either names no
    socket path or appeared already, the result is the socket path of
    [f], where [unix_socket_path] goes before [socket_path] and that
    before [klippy_uds_address]. *)
Theorem parse_takes_socket_of_last_new_file :
  forall (os : Discovery.PyOs) (sys : Discovery.system)
         (before after : list string) (f v : string),
  Forall (readable sys) (before ++ f :: after) ->
  ~ In f before ->
  socket_of (Discovery.read_config (content_of sys f)) = Some v ->
  (forall g, In g after ->
     socket_of (Discovery.read_config (content_of sys g)) = None
     \/ In g before \/ g = f) ->
  exists st,
    Discovery.parse_config_files sys (before ++ f :: after) = inr st /\
    Discovery.klipper_uds st = Some v.
Proof.
  intros os sys before after f v Hread Hnew Hv Hafter.
  unfold Discovery.parse_config_files.
  rewrite (load_readable sys _ [] Hread).
  eexists. split; [reflexivity|].
  rewrite scan_uds.
  destruct (loaded_tail sys before after f Hnew Hafter) as [head [tail [-> Htail]]].
  now rewrite (last_some_tail (fun entry => socket_of (snd entry)) head tail
                 (f, Discovery.read_config (content_of sys f)) v Hv Htail).
Qed.

Lemma parse_takes_socket_witness :
  exists st,
    @Discovery.parse_config_files MiniOs.os MiniOs.printer_host
      ([MiniOs.printer_cfg] ++ MiniOs.moonraker_conf :: [MiniOs.moonraker_conf])
    = inr st /\
    Discovery.klipper_uds st = Some "/tmp/klippy_uds".
Proof.
  apply (parse_takes_socket_of_last_new_file MiniOs.os MiniOs.printer_host
           [MiniOs.printer_cfg] [MiniOs.moonraker_conf] MiniOs.moonraker_conf
           "/tmp/klippy_uds").
  - repeat constructor; eexists; reflexivity.
  - intros [H|[]]. discriminate H.
  - reflexivity.
  - intros g [<-|[]]. right. now right.
Defined.

(** X6: [parse_config_files] returns no socket path exactly when none
    of the files it was given names one, and a socket path it returns
    is the one some file of the list gives. *)
Theorem parse_finds_socket_only_in_listed_files :
  forall (os : Discovery.PyOs) (sys : Discovery.system)
         (config_files : list string) (st : Discovery.found),
  Discovery.parse_config_files sys config_files = inr st ->
  (Discovery.klipper_uds st = None <->
   Forall (fun f => socket_of (Discovery.read_config (content_of sys f)) = None)
     config_files)
  /\
  (forall v, Discovery.klipper_uds st = Some v ->
     exists f, In f config_files /\
               socket_of (Discovery.read_config (content_of sys f)) = Some v).
Proof.
  intros os sys config_files st H.
  destruct (parse_inr sys config_files st H) as [_ ->].
  rewrite scan_uds. simpl.
  destruct (last_some (fun entry => socket_of (snd entry)) (loaded sys config_files []))
    as [v|] eqn:E.
  - apply last_some_in in E. destruct E as [entry [Hin Hv]].
    destruct (loaded_entries sys config_files entry Hin) as [Hf Hd].
    rewrite Hd in Hv. split.
    + split; [discriminate|]. intros Hall. rewrite Forall_forall in Hall.
      rewrite (Hall _ Hf) in Hv. discriminate Hv.
    + intros v' [= <-]. now exists (fst entry).
  - split; [|discriminate]. split; [|reflexivity]. intros _.
    apply last_some_none in E. rewrite Forall_forall in *. intros f Hf.
    exact (E _ (loaded_has sys config_files f Hf)).
Qed.

Lemma parse_finds_socket_witness :
  exists f,
    In f [MiniOs.printer_cfg; MiniOs.moonraker_conf] /\
    socket_of (@Discovery.read_config MiniOs.os (content_of MiniOs.printer_host f))
    = Some "/tmp/klippy_uds".
Proof.
  refine (proj2 (parse_finds_socket_only_in_listed_files MiniOs.os MiniOs.printer_host
                   [MiniOs.printer_cfg; MiniOs.moonraker_conf]
                   (Discovery.scan MiniOs.printer_host
                      (@loaded MiniOs.os MiniOs.printer_host
                         [MiniOs.printer_cfg; MiniOs.moonraker_conf] [])
                      (Discovery.nothing_found
                         [MiniOs.printer_cfg; MiniOs.moonraker_conf])) _)
            "/tmp/klippy_uds" _);
    vm_compute; reflexivity.
Defined.

(** X7: the API keys [parse_config_files] returns go by file name.
    The Klipper key is the [api_key] of the file whose entry comes
    last in [config_data] among the files that have one and whose name
    ends in [printer.cfg]; the Moonraker key likewise among the files
    whose name ends in [moonraker.conf] and not in [printer.cfg].  A
    file counts at its first place in the list.  A key is [None]
    exactly when no listed file gives one, and the [api_key] of a file
    named otherwise is not used. *)
Theorem parse_takes_api_key_by_file_name :
  forall (os : Discovery.PyOs) (sys : Discovery.system),
  (forall (config_files : list string) (st : Discovery.found),
     Discovery.parse_config_files sys config_files = inr st ->
     (Discovery.klipper_api_key st = None <->
      Forall (fun f => klipper_key_of f (Discovery.read_config (content_of sys f)) = None)
        config_files)
     /\
     (forall v, Discovery.klipper_api_key st = Some v ->
        exists f, In f config_files /\
                  Discovery.endswith f "printer.cfg" = true /\
                  Discovery.lookup "api_key" (Discovery.read_config (content_of sys f))
                  = Some v)
     /\
     (Discovery.moonraker_api_key st = None <->
      Forall (fun f => moonraker_key_of f (Discovery.read_config (content_of sys f)) = None)
        config_files)
     /\
     (forall v, Discovery.moonraker_api_key st = Some v ->
        exists f, In f config_files /\
                  Discovery.endswith f "printer.cfg" = false /\
                  Discovery.endswith f "moonraker.conf" = true /\
                  Discovery.lookup "api_key" (Discovery.read_config (content_of sys f))
                  = Some v))
  /\
  (forall (before after : list string) (f v : string),
     Forall (readable sys) (before ++ f :: after) ->
     ~ In f before ->
     klipper_key_of f (Discovery.read_config (content_of sys f)) = Some v ->
     (forall g, In g after ->
        klipper_key_of g (Discovery.read_config (content_of sys g)) = None
        \/ In g before \/ g = f) ->
     exists st,
       Discovery.parse_config_files sys (before ++ f :: after) = inr st /\
       Discovery.klipper_api_key st = Some v)
  /\
  (forall (before after : list string) (f v : string),
     Forall (readable sys) (before ++ f :: after) ->
     ~ In f before ->
     moonraker_key_of f (Discovery.read_config (content_of sys f)) = Some v ->
     (forall g, In g after ->
        moonraker_key_of g (Discovery.read_config (content_of sys g)) = None
        \/ In g before \/ g = f) ->
     exists st,
       Discovery.parse_config_files sys (before ++ f :: after) = inr st /\
       Discovery.moonraker_api_key st = Some v).
Proof.
  intros os sys. split; [|split].
  - intros config_files st H.
    destruct (parse_inr sys config_files st H) as [_ ->].
    destruct (scan_api_keys sys (loaded sys config_files [])
                (Discovery.nothing_found config_files)) as [-> ->].
    simpl.
    assert (G : forall pick : string -> Discovery.dict string -> option string,
      (match last_some (fun entry => pick (fst entry) (snd entry))
               (loaded sys config_files []) with
       | Some v => Some v
       | None => None
       end = None <->
       Forall (fun f => pick f (Discovery.read_config (content_of sys f)) = None)
         config_files)
      /\
      (forall v,
         match last_some (fun entry => pick (fst entry) (snd entry))
                 (loaded sys config_files []) with
         | Some v => Some v
         | None => None
         end = Some v ->
         exists f, In f config_files /\
                   pick f (Discovery.read_config (content_of sys f)) = Some v)).
    { intros pick.
      destruct (last_some (fun entry => pick (fst entry) (snd entry))
                  (loaded sys config_files [])) as [v|] eqn:E.
      - apply last_some_in in E. destruct E as [entry [Hin Hv]].
        destruct (loaded_entries sys config_files entry Hin) as [Hf Hd].
        rewrite Hd in Hv. split.
        + split; [discriminate|]. intros Hall. rewrite Forall_forall in Hall.
          rewrite (Hall _ Hf) in Hv. discriminate Hv.
        + intros v' [= <-]. now exists (fst entry).
      - split; [|discriminate]. split; [|reflexivity]. intros _.
        apply last_some_none in E. rewrite Forall_forall in *. intros f Hf.
        exact (E _ (loaded_has sys config_files f Hf)). }
    destruct (G klipper_key_of) as [Hk1 Hk2].
    destruct (G moonraker_key_of) as [Hm1 Hm2].
    split; [exact Hk1|]. split; [|split; [exact Hm1|]].
    + intros v Hv. destruct (Hk2 v Hv) as [f [Hf Hp]]. exists f.
      unfold klipper_key_of in Hp.
      destruct (Discovery.endswith f "printer.cfg"); [|discriminate Hp]. now repeat split.
    + intros v Hv. destruct (Hm2 v Hv) as [f [Hf Hp]]. exists f.
      unfold moonraker_key_of in Hp.
      destruct (Discovery.endswith f "printer.cfg"); [discriminate Hp|].
      destruct (Discovery.endswith f "moonraker.conf"); [|discriminate Hp].
      now repeat split.
  - intros before after f v Hread Hnew Hv Hafter.
    unfold Discovery.parse_config_files.
    rewrite (load_readable sys _ [] Hread).
    eexists. split; [reflexivity|].
    rewrite (proj1 (scan_api_keys sys _ _)).
    destruct (loaded_tail_by sys klipper_key_of before after f Hnew Hafter)
      as [head [tail [-> Htail]]].
    now rewrite (last_some_tail (fun entry => klipper_key_of (fst entry) (snd entry))
                   head tail (f, Discovery.read_config (content_of sys f)) v Hv Htail).
  - intros before after f v Hread Hnew Hv Hafter.
    unfold Discovery.parse_config_files.
    rewrite (load_readable sys _ [] Hread).
    eexists. split; [reflexivity|].
    rewrite (proj2 (scan_api_keys sys _ _)).
    destruct (loaded_tail_by sys moonraker_key_of before after f Hnew Hafter)
      as [head [tail [-> Htail]]].
    now rewrite (last_some_tail (fun entry => moonraker_key_of (fst entry) (snd entry))
                   head tail (f, Discovery.read_config (content_of sys f)) v Hv Htail).
Qed.

Lemma parse_takes_api_key_witness :
  exists st,
    @Discovery.parse_config_files MiniOs.os MiniOs.printer_host
      ([] ++ MiniOs.printer_cfg :: [MiniOs.moonraker_conf])
    = inr st /\
    Discovery.klipper_api_key st = Some "k3y".
Proof.
  apply (proj1 (proj2 (parse_takes_api_key_by_file_name MiniOs.os MiniOs.printer_host))
           [] [MiniOs.moonraker_conf] MiniOs.printer_cfg "k3y").
  - repeat constructor; eexists; reflexivity.
  - intros [].
  - vm_compute. reflexivity.
  - intros g [<-|[]]. left. vm_compute. reflexivity.
Defined.



(** X9: [parse_config_files] raises exactly when a file of the list
    cannot be opened and read, with the exception of the first such
    file. *)
Theorem parse_raises_on_first_unreadable_file :
  forall (os : Discovery.PyOs) (sys : Discovery.system)
         (config_files : list string) (e : exn),
  Discovery.parse_config_files sys config_files = inl e <->
  exists before f after,
    config_files = before ++ f :: after /\
    Forall (readable sys) before /\
    Discovery.read_text sys f = inl e.
Proof.
  intros os sys config_files e. rewrite <- (load_unreadable sys config_files e []).
  unfold Discovery.parse_config_files.
  destruct (Discovery.load sys config_files []) as [e'|config_data].
  - split; intros [= <-]; reflexivity.
  - split; discriminate.
Qed.

Lemma no_socket_runs {lib : PyLib} (w : world) :
  klipper_uds w = None ->
  (forall max_attempts delay fuel n,
     Async.get_printer_status_with max_attempts delay fuel w n
     = (resolution_trace w ProcessPidMsg ++ [no_socket_error], n, Normal ReturnNoSocket))
  /\
  (forall max_attempts delay n,
     Blocking.get_printer_status_with max_attempts delay w n
     = (resolution_trace w ProcessMsg ++ [no_socket_error], n, Normal ReturnNoSocket)).
Proof.
  intros Huds. split; intros.
  - unfold Async.get_printer_status_with. unfold bind at 1.
    rewrite async_resolve_run, Huds. reflexivity.
  - unfold Blocking.get_printer_status_with. unfold bind at 1.
    rewrite blocking_resolve_run, Huds. reflexivity.
Qed.



(** On the printer host of the example both functions run: klippy is
    listed with its [printer.cfg] and the [moonraker.conf] beside it,
    moonraker, whose [-d] and directory are two arguments, adds
    nothing, and the socket path is the one [moonraker.conf] names. *)
Example discovery_end_to_end :
  @discovered MiniOs.os MiniOs.printer_host []
  = inr {| processes :=
             [{| p_name := "klipper"; p_pid := 812;
                 p_cmdline := "python /home/pi/klipper/klippy/klippy.py "
                              ++ MiniOs.printer_cfg |};
              {| p_name := "moonraker"; p_pid := 830;
                 p_cmdline := "python /home/pi/moonraker/moonraker/moonraker.py "
                              ++ "-d /home/pi/printer_data" |}];
           config_files := [MiniOs.printer_cfg; MiniOs.moonraker_conf];
           klipper_uds := Some "/tmp/klippy_uds";
           klipper_api_key := Some "k3y";
           conns := [] |}.
Proof. vm_compute. reflexivity. Qed.

(** ** What [receive_response] returns and raises *)

Lemma before_etx_clean (s : string) : contains_etx (before_etx s) = false.
Proof.
  induction s as [|x s IH]; simpl; [reflexivity|].
  destruct (Ascii.eqb x ETX) eqn:E; simpl; [reflexivity|]. now rewrite E.
Qed.

Lemma rstrip_etx_idem (s : string) : rstrip_etx (rstrip_etx s) = rstrip_etx s.
Proof.
  induction s as [|x s IH]; simpl; [reflexivity|].
  destruct (rstrip_etx s) as [|y r] eqn:E.
  - destruct (Ascii.eqb x ETX) eqn:Hx; simpl; [reflexivity|]. now rewrite Hx.
  - change (rstrip_etx (String x (String y r)))
      with (match rstrip_etx (String y r) with
            | EmptyString => if Ascii.eqb x ETX then EmptyString else String x EmptyString
            | r' => String x r'
            end).
    now rewrite IH.
Qed.

Lemma lstrip_etx_idem (s : string) : lstrip_etx (lstrip_etx s) = lstrip_etx s.
Proof.
  induction s as [|x s IH]; simpl; [reflexivity|].
  destruct (Ascii.eqb x ETX) eqn:E; [exact IH|]. simpl. now rewrite E.
Qed.

Lemma lstrip_rstrip (s : string) :
  lstrip_etx s = s -> lstrip_etx (rstrip_etx s) = rstrip_etx s.
Proof.
  destruct s as [|x s]; [reflexivity|]. intros H.
  assert (Hx : Ascii.eqb x ETX = false).
  { simpl in H. destruct (Ascii.eqb x ETX) eqn:E; [|reflexivity]. exfalso.
    assert (L : forall r, String.length (lstrip_etx r) <= String.length r).
    { induction r as [|y r IHr]; simpl; [lia|].
      destruct (Ascii.eqb y ETX); simpl; lia. }
    pose proof (L s) as Hl. rewrite H in Hl. simpl in Hl. lia. }
  assert (Hr : exists r, rstrip_etx (String x s) = String x r).
  { cbn [rstrip_etx]. destruct (rstrip_etx s) as [|y r]; [|now eexists].
    rewrite Hx. now eexists. }
  destruct Hr as [r ->]. cbn [lstrip_etx]. now rewrite Hx.
Qed.

Lemma strip_etx_ends (s : string) :
  lstrip_etx (strip_etx s) = strip_etx s /\ rstrip_etx (strip_etx s) = strip_etx s.
Proof.
  unfold strip_etx. split.
  - apply lstrip_rstrip, lstrip_etx_idem.
  - apply rstrip_etx_idem.
Qed.

Lemma utf8_of_decode (data text : string) :
  decode data = inr text -> text = data /\ utf8_valid data = true.
Proof.
  unfold decode. destruct (utf8_valid data); [|discriminate].
  intros [= <-]. now split.
Qed.

Lemma async_read_loop_raises (rd : list read_event) :
  forall acc t rd' e,
  Async.read_loop rd acc = (t, rd', Raised e) -> is_Exception e = false.
Proof.
  induction rd as [|[chunk|e0|] rd IH]; intros acc t rd' e H; simpl in H.
  - discriminate H.
  - destruct (nonempty chunk); [|discriminate H].
    destruct (contains_etx (acc ++ chunk)); [discriminate H | exact (IH _ _ _ _ H)].
  - destruct (is_Exception e0) eqn:E; [discriminate H|].
    injection H as _ _ <-. exact E.
  - discriminate H.
Qed.

Lemma blocking_recv_loop_raises (rd : list read_event) :
  forall acc t rd' e,
  Blocking.recv_loop rd acc = (t, rd', Raised e) -> is_socket_error e = false.
Proof.
  induction rd as [|[chunk|e0|] rd IH]; intros acc t rd' e H; simpl in H.
  - discriminate H.
  - destruct (nonempty chunk); [exact (IH _ _ _ _ H) | discriminate H].
  - destruct (is_socket_error e0) eqn:E; [discriminate H|].
    injection H as _ _ <-. exact E.
  - discriminate H.
Qed.

(** X11: the text the asyncio [receive_response] returns holds no
    terminator byte and is valid UTF-8; the text the blocking
    [receive_response] returns neither starts nor ends with a
    terminator byte (inside, it can hold some). *)
Theorem receive_response_returns_text_without_framing :
  (forall (n n' : net) (t : trace) (text : string),
     Async.receive_response n = (t, n', Normal text) ->
     contains_etx text = false /\ utf8_valid text = true)
  /\
  (forall (n n' : net) (t : trace) (text : string),
     Blocking.receive_response n = (t, n', Normal text) ->
     lstrip_etx text = text /\ rstrip_etx text = text).
Proof.
  split; intros n n' t text H.
  - unfold Async.receive_response in H.
    destruct (Async.read_loop (reads_left n) EmptyString) as [[t0 rd] [data|e| |]];
      try discriminate H.
    destruct (decode (before_etx data)) as [e|s] eqn:Hd; [discriminate H|].
    injection H as _ _ <-. destruct (utf8_of_decode _ _ Hd) as [-> Hu].
    split; [apply before_etx_clean | exact Hu].
  - unfold Blocking.receive_response in H.
    destruct (Blocking.recv_loop (reads_left n) EmptyString) as [[t0 rd] [data|e| |]];
      try discriminate H.
    destruct (decode data) as [e|s] eqn:Hd; [discriminate H|].
    injection H as _ _ <-. destruct (utf8_of_decode _ _ Hd) as [-> Hu].
    apply strip_etx_ends.
Qed.


Lemma async_read_loop_error (chunks : list string) (e : exn) (later : list read_event) :
  forall acc,
  Forall (fun c => nonempty c = true) chunks ->
  contains_etx (acc ++ bytes_of chunks) = false ->
  Async.read_loop (arriving chunks ++ ReadRaises e :: later) acc
  = if is_Exception e
    then ([ELog LvlError (TextExn "Error while receiving response: " e)], later,
          Normal (acc ++ bytes_of chunks)%string)
    else ([], later, Raised e).
Proof.
  induction chunks as [|c cs IH]; intros acc Hne Hetx; simpl.
  - rewrite append_empty_r. reflexivity.
  - inversion Hne as [|? ? Hc Hcs]; subst. rewrite Hc.
    simpl in Hetx. rewrite <- append_assoc in Hetx.
    assert (Hacc : contains_etx (acc ++ c) = false).
    { rewrite contains_etx_app in Hetx. now apply Bool.orb_false_iff in Hetx. }
    rewrite Hacc, (IH _ Hcs Hetx), append_assoc. reflexivity.
Qed.

Lemma blocking_recv_loop_error (chunks : list string) (e : exn) (later : list read_event) :
  forall acc,
  Forall (fun c => nonempty c = true) chunks ->
  Blocking.recv_loop (arriving chunks ++ ReadRaises e :: later) acc
  = if is_socket_error e
    then ([], later, Normal (acc ++ bytes_of chunks)%string)
    else ([], later, Raised e).
Proof.
  induction chunks as [|c cs IH]; intros acc Hne; simpl.
  - rewrite append_empty_r. reflexivity.
  - inversion Hne as [|? ? Hc Hcs]; subst. rewrite Hc, (IH _ Hcs), append_assoc.
    reflexivity.
Qed.

(** X12: an [Exception] raised by a read does not leave the asyncio
    [receive_response]: it is logged and the call returns what had
    arrived before it, as if that were a whole message.  What the call
    can raise is the [UnicodeDecodeError] of [decode] or an exception
    that is no [Exception]. *)
Theorem async_receive_logs_read_error_and_returns_partial_text :
  (forall (n : net) (chunks : list string) (e : exn) (later : list read_event),
     reads_left n = arriving chunks ++ ReadRaises e :: later ->
     Forall (fun c => nonempty c = true) chunks ->
     contains_etx (bytes_of chunks) = false ->
     utf8_valid (bytes_of chunks) = true ->
     is_Exception e = true ->
     Async.receive_response n
     = ([ELog LvlError (TextExn "Error while receiving response: " e)],
        set_reads later n, Normal (bytes_of chunks)))
  /\
  (forall (n n' : net) (t : trace) (e : exn),
     Async.receive_response n = (t, n', Raised e) ->
     e = UnicodeDecodeError \/ is_Exception e = false).
Proof.
  split.
  - intros n chunks e later Hrd Hne Hetx Hutf He. unfold Async.receive_response.
    rewrite Hrd, (async_read_loop_error chunks e later EmptyString Hne Hetx), He.
    simpl. rewrite (before_etx_plain _ Hetx). unfold decode. now rewrite Hutf.
  - intros n n' t e H. unfold Async.receive_response in H.
    destruct (Async.read_loop (reads_left n) EmptyString) as [[t0 rd] [data|e0| |]] eqn:Hl;
      try discriminate H.
    + destruct (decode (before_etx data)) as [e1|s] eqn:Hd; [|discriminate H].
      injection H as _ _ <-. left. unfold decode in Hd.
      destruct (utf8_valid (before_etx data)); [discriminate Hd | now injection Hd].
    + injection H as _ _ <-. right. exact (async_read_loop_raises _ _ _ _ _ Hl).
Qed.

Lemma async_receive_read_error_witness :
  Async.receive_response
    (on_stream (arriving ["{"; "abc"] ++ ReadRaises (OSError 104) :: []))
  = ([ELog LvlError (TextExn "Error while receiving response: " (OSError 104))],
     set_reads []
       (on_stream (arriving ["{"; "abc"] ++ ReadRaises (OSError 104) :: [])),
     Normal (bytes_of ["{"; "abc"])).
Proof.
  apply (proj1 async_receive_logs_read_error_and_returns_partial_text
           (on_stream (arriving ["{"; "abc"] ++ ReadRaises (OSError 104) :: []))
           ["{"; "abc"] (OSError 104) []);
    try reflexivity.
  repeat constructor.
Defined.

(** X13: the blocking [receive_response] reads until the stream ends
    or a read raises [socket.error], the timeout of [settimeout(10)]
    included: the exception is swallowed and what arrived before it is
    the reply, terminators stripped at its two ends.  A socket error
    never leaves the call, so the [except socket.timeout] clause of
    [get_printer_status] is not reached from a read. *)
Theorem blocking_receive_ends_reply_at_socket_error :
  (forall (n : net) (chunks : list string) (e : exn) (later : list read_event),
     reads_left n = arriving chunks ++ ReadRaises e :: later ->
     Forall (fun c => nonempty c = true) chunks ->
     utf8_valid (bytes_of chunks) = true ->
     is_socket_error e = true ->
     Blocking.receive_response n
     = ([], set_reads later n, Normal (strip_etx (bytes_of chunks))))
  /\
  (forall (n n' : net) (t : trace) (e : exn),
     Blocking.receive_response n = (t, n', Raised e) ->
     is_socket_error e = false).
Proof.
  split.
  - intros n chunks e later Hrd Hne Hutf He. unfold Blocking.receive_response.
    rewrite Hrd, (blocking_recv_loop_error chunks e later EmptyString Hne), He.
    simpl. unfold decode. now rewrite Hutf.
  - intros n n' t e H. unfold Blocking.receive_response in H.
    destruct (Blocking.recv_loop (reads_left n) EmptyString) as [[t0 rd] [data|e0| |]] eqn:Hl;
      try discriminate H.
    + destruct (decode data) as [e1|s] eqn:Hd; [|discriminate H].
      injection H as _ _ <-. unfold decode in Hd.
      destruct (utf8_valid data); [discriminate Hd | now injection Hd as <-].
    + injection H as _ _ <-. exact (blocking_recv_loop_raises _ _ _ _ _ Hl).
Qed.

Lemma blocking_receive_timeout_witness :
  Blocking.receive_response
    (on_stream (arriving [Scenario.wire Scenario.list_reply]
                ++ ReadRaises SocketTimeout :: [Data "later"]))
  = ([], set_reads [Data "later"]
           (on_stream (arriving [Scenario.wire Scenario.list_reply]
                       ++ ReadRaises SocketTimeout :: [Data "later"])),
     Normal (strip_etx (bytes_of [Scenario.wire Scenario.list_reply]))).
Proof.
  apply (proj1 blocking_receive_ends_reply_at_socket_error
           (on_stream (arriving [Scenario.wire Scenario.list_reply]
                       ++ ReadRaises SocketTimeout :: [Data "later"]))
           [Scenario.wire Scenario.list_reply] SocketTimeout [Data "later"]);
    try reflexivity.
  repeat constructor.
Defined.

(** ** The update loop, frame by frame *)

(** X14: in the update loop a frame that parses to an object without
    a [params] key, such as the reply to the subscribe request itself,
    is dropped without a trace; a frame with an empty body is taken
    for silence and costs a sleep of one second, and what followed its
    terminator in the same read is lost. *)
Theorem update_loop_skips_frames_without_params :
  forall (lib : PyLib) (fuel : nat) (n : net) (later : list read_event),
  (forall (chunks : list string) (text : string) (fields : list (string * json)),
     reads_left n = arriving chunks ++ later ->
     cuts chunks text ->
     contains_etx text = false ->
     utf8_valid text = true ->
     nonempty text = true ->
     json_loads text = Some (JObj fields) ->
     has_key "params" fields = false ->
     Async.listen (S fuel) n = Async.listen fuel (set_reads later n))
  /\
  (forall (extra : string),
     reads_left n = Data (etx ++ extra) :: later ->
     Async.listen (S fuel) n
     = let '(t', n', r) := Async.listen fuel (set_reads later n) in
       (ESleep 1 :: t', n', r)).
Proof.
  intros lib fuel n later. split.
  - intros chunks text fields Hrd Hcuts Hetx Hutf Hne Hj Hp.
    pose proof (receive_frame n chunks text later Hrd Hcuts Hetx Hutf) as Hr.
    assert (Hup : Async.receive_update n = ([], set_reads later n, Normal tt)).
    { unfold Async.receive_update. rewrite (bind_run _ _ _ _ _ _ Hr), Hne.
      unfold loads. rewrite Hj, bind_ret. cbn [py_in lift]. rewrite Hp.
      rewrite bind_ret. reflexivity. }
    cbn [Async.listen]. unfold try_except. unfold bind at 1 2. rewrite Hup. cbn.
    now destruct (Async.listen fuel (set_reads later n)) as [[t' n'] r].
  - intros extra Hrd.
    pose proof (receive_drops_rest n EmptyString extra later Hrd eq_refl eq_refl) as Hr.
    assert (Hup : Async.receive_update n = ([ESleep 1], set_reads later n, Normal tt)).
    { unfold Async.receive_update. rewrite (bind_run _ _ _ _ _ _ Hr). reflexivity. }
    cbn [Async.listen]. unfold try_except. unfold bind at 1 2. rewrite Hup. cbn.
    now destruct (Async.listen fuel (set_reads later n)) as [[t' n'] r].
Qed.

Lemma update_loop_skips_witness :
  @Async.listen MiniJson.lib 1
    (on_stream (arriving [Scenario.wire (JObj [("id", JInt 456); ("result", JObj [])])]
                ++ []))
  = @Async.listen MiniJson.lib 0
      (set_reads []
         (on_stream
            (arriving [Scenario.wire (JObj [("id", JInt 456); ("result", JObj [])])]
             ++ []))).
Proof.
  apply (proj1 (update_loop_skips_frames_without_params MiniJson.lib 0
                  (on_stream
                     (arriving
                        [Scenario.wire (JObj [("id", JInt 456); ("result", JObj [])])]
                      ++ [])) [])
           [Scenario.wire (JObj [("id", JInt 456); ("result", JObj [])])]
           (MiniJson.dumps (JObj [("id", JInt 456); ("result", JObj [])]))
           [("id", JInt 456); ("result", JObj [])]);
    try reflexivity.
  split; [repeat constructor | reflexivity].
Defined.

(** X15: the update loop handles every [Exception] and every
    [KeyboardInterrupt] a pass of it raises, a frame that is not JSON,
    an update without [status], a position that cannot be printed: its
    two handlers end the loop.  What leaves the loop as an exception is
    neither an [Exception] nor a [KeyboardInterrupt]: the
    [CancelledError] of a cancelled task, for one, raised by a read,
    leaves the loop as it is.  The handlers of the attempt do not catch
    it either: the pass ends with it, without the sleep of [delay].  A
    [KeyboardInterrupt] raised by a read ends the loop with the
    farewell line. *)
Theorem update_loop_lets_only_base_exceptions_through :
  forall (lib : PyLib) (fuel : nat) (n : net),
  (forall e, outcome_of (Async.listen fuel n) = Raised e ->
     is_Exception e = false /\ e <> KeyboardInterrupt)
  /\
  (forall e later,
     reads_left n = ReadRaises e :: later ->
     is_Exception e = false ->
     e <> KeyboardInterrupt ->
     Async.listen (S fuel) n = ([], set_reads later n, Raised e))
  /\
  (forall later,
     reads_left n = ReadRaises KeyboardInterrupt :: later ->
     Async.listen (S fuel) n
     = ([EPrint (Text (newline ++ "Stopped listening for updates.")%string)],
        set_reads later n, Normal tt))
  /\
  (forall uds max_attempts delay attempt t n' e,
     Async.handshake fuel uds attempt max_attempts n = (t, n', Raised e) ->
     is_Exception e = false ->
     Async.attempt_once fuel uds max_attempts delay attempt n = (t, n', Raised e)).
Proof.
  intros lib fuel n. split; [|split; [|split]].
  - revert n. induction fuel as [|fuel IH]; intros n e.
    + discriminate.
    + cbn [Async.listen]. unfold try_except, outcome_of. unfold bind at 1 2.
      destruct (Async.receive_update n) as [[t1 n1] [[]|e1| |]]; cbn.
      * specialize (IH n1 e). unfold outcome_of in IH.
        now destruct (Async.listen fuel n1) as [[t2 n2] r2].
      * destruct e1; cbn; try discriminate; intros [= <-];
          (split; [reflexivity | discriminate]).
      * discriminate.
      * discriminate.
  - intros e later Hrd He Hk.
    assert (Hup : Async.receive_update n = ([], set_reads later n, Raised e)).
    { unfold Async.receive_update, Async.receive_response, bind.
      rewrite Hrd. cbn [Async.read_loop]. now rewrite He. }
    cbn [Async.listen]. unfold try_except. unfold bind at 1 2. rewrite Hup.
    destruct e; try discriminate He; try reflexivity. now contradiction Hk.
  - intros later Hrd.
    assert (Hup : Async.receive_update n
                  = ([], set_reads later n, Raised KeyboardInterrupt)).
    { unfold Async.receive_update, Async.receive_response, bind.
      rewrite Hrd. reflexivity. }
    cbn [Async.listen]. unfold try_except. unfold bind at 1 2. rewrite Hup.
    reflexivity.
  - intros uds max_attempts delay attempt t n' e Hh He.
    unfold Async.attempt_once, try_except. unfold bind at 1. rewrite Hh.
    assert (Hp : is_parse_error e = false) by (destruct e; try reflexivity; discriminate He).
    now rewrite Hp, He.
Qed.

Lemma update_loop_cancelled_witness :
  @Async.listen MiniJson.lib 1 (on_stream [ReadRaises CancelledError; Data "later"])
  = ([], set_reads [Data "later"]
           (on_stream [ReadRaises CancelledError; Data "later"]),
     Raised CancelledError).
Proof.
  apply (proj1 (proj2 (update_loop_lets_only_base_exceptions_through MiniJson.lib 0
                         (on_stream [ReadRaises CancelledError; Data "later"])))
           CancelledError [Data "later"]);
    [reflexivity | reflexivity | discriminate].
Defined.


(** ** [print_printer_status] *)

Ltac step_sum :=
  repeat match goal with
         | |- context [match ?x with inl _ => _ | inr _ => _ end] =>
           destruct x eqn:?
         end.

(** X16: from a [position] of three or more coordinates
    [print_printer_status] prints the first three, each with two
    decimals, on one line, and ignores the rest (Klipper reports the
    extruder as a fourth); an [int] of size up to 2^53 prints with
    [.00]. *)
Theorem print_printer_status_prints_first_three_coordinates :
  forall (lib : PyLib) (status toolhead : list (string * json)) (x y z : json)
         (rest : list json) (sx sy sz : string) (n : net),
  assoc "toolhead" status = Some (JObj toolhead) ->
  assoc "position" toolhead = Some (JArr (x :: y :: z :: rest)) ->
  format_2f x = inr sx ->
  format_2f y = inr sy ->
  format_2f z = inr sz ->
  Async.print_printer_status (JObj status) n
  = ([EPrint (Text ("Toolhead Position: X=" ++ sx ++ ", Y=" ++ sy ++ ", Z=" ++ sz))],
     n, Normal tt)
  /\ (forall i : Z, (Z.abs i <= 2 ^ 53)%Z ->
        format_2f (JInt i) = inr (string_of_Z i ++ ".00")%string).
Proof.
  intros lib status toolhead x y z rest sx sy sz n Ht Hp Hx Hy Hz. split.
  - unfold Async.print_printer_status, Async.position_field, bind, lift, py_get.
    rewrite Ht. cbn [ret]. rewrite Hp. cbn [ret py_index nth_error].
    rewrite Hx, Hy, Hz. reflexivity.
  - intros i Hi. unfold format_2f.
    destruct (Z.abs i <=? 2 ^ 53)%Z eqn:E; [reflexivity|].
    apply Z.leb_gt in E. lia.
Qed.

Lemma print_printer_status_first_three_witness :
  @Async.print_printer_status MiniJson.lib
    (JObj [("toolhead",
            JObj [("position", JArr [JInt 10; JInt 20; JInt 5; JInt 1234])])])
    (on_stream [])
  = ([EPrint (Text ("Toolhead Position: X=" ++ "10.00" ++ ", Y=" ++ "20.00"
                    ++ ", Z=" ++ "5.00"))],
     on_stream [], Normal tt)
  /\ (forall i : Z, (Z.abs i <= 2 ^ 53)%Z ->
        @format_2f MiniJson.lib (JInt i) = inr (string_of_Z i ++ ".00")%string).
Proof.
  apply (print_printer_status_prints_first_three_coordinates MiniJson.lib
           [("toolhead",
             JObj [("position", JArr [JInt 10; JInt 20; JInt 5; JInt 1234])])]
           [("position", JArr [JInt 10; JInt 20; JInt 5; JInt 1234])]
           (JInt 10) (JInt 20) (JInt 5) [JInt 1234]);
    reflexivity.
Defined.

(** X17: [print_printer_status] prints one line or nothing: when it
    raises, nothing has been printed.  It raises [AttributeError] when
    [status] is no object or its [toolhead] is there but is no object
    (a [null] is not replaced by the default), and [IndexError] when
    the position holds fewer than three coordinates, each of them
    printable. *)
Theorem print_printer_status_prints_nothing_when_it_raises :
  forall (lib : PyLib) (status : json) (n : net),
  (match Async.print_printer_status status n with
   | (t, n', Normal _) => (exists line, t = [EPrint (Text line)]) /\ n' = n
   | (t, n', Raised _) => t = [] /\ n' = n
   | (_, _, OutOfFuel) | (_, _, Hangs) => False
   end)
  /\
  ((forall fields, status <> JObj fields) ->
   outcome_of (Async.print_printer_status status n) = Raised AttributeError)
  /\
  (forall fields toolhead,
     status = JObj fields ->
     assoc "toolhead" fields = Some toolhead ->
     (forall inner, toolhead <> JObj inner) ->
     outcome_of (Async.print_printer_status status n) = Raised AttributeError)
  /\
  (forall fields inner items,
     status = JObj fields ->
     assoc "toolhead" fields = Some (JObj inner) ->
     assoc "position" inner = Some (JArr items) ->
     length items < 3 ->
     Forall (fun v => exists s, format_2f v = inr s) items ->
     outcome_of (Async.print_printer_status status n) = Raised IndexError).
Proof.
  intros lib status n. split; [|split; [|split]].
  - unfold Async.print_printer_status, Async.position_field, bind, lift, ret, raise,
      print, emit.
    step_sum; cbn; try (split; [|reflexivity]); try reflexivity.
    eexists. reflexivity.
  - intros Hno. unfold Async.print_printer_status, bind, lift, py_get, outcome_of.
    destruct status; try reflexivity. now destruct (Hno fields).
  - intros fields toolhead -> Ht Hno.
    unfold Async.print_printer_status, Async.position_field, bind, lift, py_get,
      outcome_of.
    rewrite Ht. cbn [ret].
    destruct toolhead; try reflexivity. now destruct (Hno fields0).
  - intros fields inner items -> Ht Hp Hlen Hfmt.
    unfold Async.print_printer_status, Async.position_field, bind, lift, py_get,
      outcome_of.
    rewrite Ht. cbn [ret]. rewrite Hp. cbn [ret py_index].
    destruct items as [|a [|b [|c items]]]; simpl in Hlen; try lia; cbn;
      repeat match goal with
             | H : Forall _ (_ :: _) |- _ =>
               let s := fresh "s" in let E := fresh "E" in
               inversion H as [|? ? [s E] ?]; subst; clear H; rewrite E
             end; reflexivity.
Qed.

Lemma print_printer_status_raises_witness :
  outcome_of (@Async.print_printer_status MiniJson.lib
                (JObj [("toolhead", JNull)]) (on_stream []))
  = Raised AttributeError.
Proof.
  refine (proj1 (proj2 (proj2 (print_printer_status_prints_nothing_when_it_raises
                                 MiniJson.lib (JObj [("toolhead", JNull)])
                                 (on_stream []))))
            [("toolhead", JNull)] JNull eq_refl eq_refl _).
  intros inner H. discriminate H.
Defined.


(** ** Walking a computation *)

Section Ensures.
Context {A : Type}.

Lemma ensures_ret (a : A) (pre : trace) (Q : trace -> outcome A -> Prop) :
  Q pre (Normal a) -> ensures (ret a) pre Q.
Proof. intros H n. unfold ret, trace_of, outcome_of. simpl. now rewrite app_nil_r. Qed.

Lemma ensures_raise (e : exn) (pre : trace) (Q : trace -> outcome A -> Prop) :
  Q pre (Raised e) -> ensures (raise e) pre Q.
Proof. intros H n. unfold raise, trace_of, outcome_of. simpl. now rewrite app_nil_r. Qed.

Lemma ensures_lift (x : exn + A) (pre : trace) (Q : trace -> outcome A -> Prop) :
  (forall a, x = inr a -> Q pre (Normal a)) ->
  (forall e, x = inl e -> Q pre (Raised e)) ->
  ensures (lift x) pre Q.
Proof.
  intros Ha He. destruct x as [e|a]; [apply ensures_raise | apply ensures_ret]; auto.
Qed.

Lemma ensures_bind {B : Type} (m : Py B) (k : B -> Py A) (pre : trace)
  (Q : trace -> outcome A -> Prop) :
  ensures m pre
    (fun t r =>
       match r with
       | Normal b => ensures (k b) t Q
       | Raised e => Q t (Raised e)
       | OutOfFuel => Q t OutOfFuel
       | Hangs => Q t Hangs
       end) ->
  ensures (bind m k) pre Q.
Proof.
  intros H n. specialize (H n). unfold bind, trace_of, outcome_of in *.
  destruct (m n) as [[t n'] [b|e| |]]; simpl in *; try exact H.
  specialize (H n'). unfold trace_of, outcome_of in H.
  destruct (k b n') as [[t' n''] r]. simpl in *. now rewrite app_assoc.
Qed.

Lemma ensures_try (m : Py A) (handler : exn -> option (Py A)) (pre : trace)
  (Q : trace -> outcome A -> Prop) :
  ensures m pre
    (fun t r =>
       match r with
       | Raised e =>
         match handler e with
         | Some h => ensures h t Q
         | None => Q t (Raised e)
         end
       | other => Q t other
       end) ->
  ensures (try_except m handler) pre Q.
Proof.
  intros H n. specialize (H n). unfold try_except, trace_of, outcome_of in *.
  destruct (m n) as [[t n'] [a|e| |]]; simpl in *; try exact H.
  destruct (handler e) as [h|]; [|exact H].
  specialize (H n'). unfold trace_of, outcome_of in H.
  destruct (h n') as [[t' n''] r]. simpl in *. now rewrite app_assoc.
Qed.

Lemma ensures_closing (m : Py A) (pre : trace) (Q : trace -> outcome A -> Prop) :
  ensures m pre
    (fun t r =>
       match r with
       | Normal _ | Raised _ => Q (t ++ [EClose]) r
       | OutOfFuel | Hangs => Q t r
       end) ->
  ensures (closing m) pre Q.
Proof.
  intros H n. specialize (H n). unfold closing, trace_of, outcome_of in *.
  destruct (m n) as [[t n'] [a|e| |]]; simpl in *; try exact H;
    now rewrite app_assoc.
Qed.

End Ensures.

Lemma ensures_loads {lib : PyLib} (text : string) (pre : trace)
  (Q : trace -> outcome json -> Prop) :
  (forall data, Q pre (Normal data)) -> Q pre (Raised JSONDecodeError) ->
  ensures (loads text) pre Q.
Proof.
  intros Hd He. unfold loads.
  destruct (json_loads text); [apply ensures_ret | apply ensures_raise]; auto.
Qed.


Lemma ensures_emit (ev : event) (pre : trace) (Q : trace -> outcome unit -> Prop) :
  Q (pre ++ [ev]) (Normal tt) -> ensures (emit ev) pre Q.
Proof. intros H n. exact H. Qed.

Lemma ensures_connect (path : string) (pre : trace)
  (Q : trace -> outcome unit -> Prop) :
  Q (pre ++ [EConnect path]) (Normal tt) ->
  (forall e, Q (pre ++ [EConnect path]) (Raised e)) ->
  ensures (connect path) pre Q.
Proof.
  intros Hok He n. unfold connect, trace_of, outcome_of.
  destruct (pending n) as [|c rest]; simpl; [apply He|].
  destruct (connect_error c); simpl; [apply He | exact Hok].
Qed.

Lemma ensures_write_all (data : string) (pre : trace)
  (Q : trace -> outcome unit -> Prop) :
  Q (pre ++ [ESend data]) (Normal tt) ->
  (forall e, Q (pre ++ [ESend data]) (Raised e)) ->
  ensures (write_all data) pre Q.
Proof.
  intros Hok He n. unfold write_all, trace_of, outcome_of.
  destruct (sends_left n) as [|[e|] rest]; simpl; auto.
Qed.

(** The blocking [receive_response] emits nothing and ends. *)
Lemma ensures_blocking_receive (pre : trace) (Q : trace -> outcome string -> Prop) :
  (forall text, Q pre (Normal text)) ->
  (forall e, Q pre (Raised e)) ->
  ensures Blocking.receive_response pre Q.
Proof.
  intros Hok He n. rewrite blocking_receive_silent, app_nil_r.
  pose proof (blocking_receive_terminates n) as Ht.
  destruct (outcome_of (Blocking.receive_response n)); auto; contradiction Ht.
Qed.


Lemma lookup_errno {A : Type} (k : unit -> Py A) :
  bind (Blocking.lookup_global "errno") k = raise NameError.
Proof. reflexivity. Qed.

(** The asyncio [receive_response] emits nothing or the line of one
    failed read; it ends, or waits on a read for ever. *)
Lemma ensures_async_receive (pre : trace) (Q : trace -> outcome string -> Prop) :
  (forall text, Q pre (Normal text)) ->
  (forall e text,
     Q (pre ++ [ELog LvlError (TextExn "Error while receiving response: " e)])
       (Normal text)) ->
  (forall e, Q pre (Raised e)) ->
  (forall e e',
     Q (pre ++ [ELog LvlError (TextExn "Error while receiving response: " e)])
       (Raised e')) ->
  Q pre Hangs ->
  ensures Async.receive_response pre Q.
Proof.
  intros H1 H2 H3 H4 H5 n. unfold Async.receive_response, trace_of, outcome_of.
  assert (G : forall rd acc,
            match Async.read_loop rd acc with
            | (t, _, r) =>
              (t = [] \/
               exists e, t = [ELog LvlError (TextExn "Error while receiving response: " e)])
              /\ r <> OutOfFuel
              /\ (forall e, r = Raised e -> t = [])
              /\ (r = Hangs -> t = [])
            end).
  { induction rd as [|[chunk|e|] rd IH]; intros acc; simpl.
    - split; [now left|]. repeat split; discriminate.
    - destruct (nonempty chunk); [|split; [now left|]; repeat split; discriminate].
      destruct (contains_etx (acc ++ chunk)); [|apply IH].
      split; [now left|]. repeat split; discriminate.
    - destruct (is_Exception e).
      + split; [right; now exists e|]. repeat split; discriminate.
      + split; [now left|]. repeat split; try discriminate; reflexivity.
    - split; [now left|]. repeat split; try discriminate; reflexivity. }
  specialize (G (reads_left n) EmptyString).
  destruct (Async.read_loop (reads_left n) EmptyString) as [[t rd] [data|e| |]];
    destruct G as [Ht [Hr [He Hh]]]; simpl.
  - destruct (decode (before_etx data)); simpl;
      destruct Ht as [->|[e0 ->]]; rewrite ?app_nil_r; auto.
  - rewrite (He e eq_refl), app_nil_r. apply H3.
  - now contradiction Hr.
  - rewrite (Hh eq_refl), app_nil_r. exact H5.
Qed.

(** A computation that emits only events of [P] ensures what every
    such continuation of the trace satisfies. *)
Lemma ensures_of_emits {A : Type} (P : event -> Prop) (m : Py A) (pre : trace)
  (Q : trace -> outcome A -> Prop) :
  emits_only P m ->
  (forall t r, Forall P t -> Q (pre ++ t) r) ->
  ensures m pre Q.
Proof. intros Hm HQ n. apply HQ, Hm. Qed.

(** Walks a computation, leaving the conditions on its traces. *)
Ltac walk_step :=
  match goal with
  | |- ensures (bind (Blocking.lookup_global "errno") _) _ _ =>
    rewrite lookup_errno
  | |- ensures (bind _ _) _ _ => apply ensures_bind
  | |- ensures (ret _) _ _ => apply ensures_ret
  | |- ensures (raise _) _ _ => apply ensures_raise
  | |- ensures (emit _) _ _ => apply ensures_emit
  | |- ensures (lift ?x) _ _ =>
    apply ensures_lift; [intros ? _ | intros ? _]
  | |- ensures (loads _) _ _ => apply ensures_loads; [intros ?|]
  | |- ensures (connect _) _ _ => apply ensures_connect; [|intros ?]
  | |- ensures (write_all _) _ _ => apply ensures_write_all; [|intros ?]
  | |- ensures Blocking.receive_response _ _ =>
    apply ensures_blocking_receive; [intros ? | intros ?]
  | |- ensures Async.receive_response _ _ =>
    apply ensures_async_receive; [intros ? | intros ? ? | intros ? | intros ? ? |]
  | |- ensures (try_except _ _) _ _ => apply ensures_try
  | |- ensures (closing _) _ _ => apply ensures_closing
  | |- ensures (if ?b then _ else _) _ _ => destruct b eqn:?
  | |- ensures (match ?x with _ => _ end) _ _ => destruct x eqn:?
  | |- match (if ?b then _ else _) with _ => _ end => destruct b eqn:?
  end.

Ltac walk := unfold_io; repeat (cbv beta iota; walk_step).

(** A handler's tests on one exception cannot disagree. *)
Ltac absurd_tests :=
  match goal with
  | H : is_socket_error ?e = _ |- _ => destruct e; discriminate
  | H : is_socket_timeout ?e = _ |- _ => destruct e; discriminate
  | H : is_parse_error ?e = _ |- _ => destruct e; discriminate
  | H : is_Exception ?e = _ |- _ => destruct e; discriminate
  end.

(** One pass of the blocking client, counted. *)
Lemma blocking_pass_counts {lib : PyLib} (uds : string)
  (klipper_api_key : option string) (max_attempts : nat) (delay : Q) (attempt : nat) :
  ensures (Blocking.attempt_once uds klipper_api_key max_attempts delay attempt) []
    (fun t r =>
       connects t = 1 /\ closes t = 1 /\
       match r with
       | Normal Blocking.Next => sleeps t = [delay]
       | Normal Blocking.Return => sleeps t = []
       | Normal Blocking.Continue => False
       | Raised e => sleeps t = [] /\ is_Exception e = false
       | OutOfFuel | Hangs => False
       end).
Proof.
  unfold Blocking.attempt_once, Blocking.session, Blocking.connect_or_continue,
    Blocking.dialogue, Blocking.exchange.
  walk.
  all: cbn [app connects closes sleeps].
  all: solve [repeat split; try reflexivity; try assumption; absurd_tests].
Qed.

Lemma closes_app (a b : trace) : closes (a ++ b) = closes a + closes b.
Proof.
  induction a as [|ev a IH]; simpl; [reflexivity|].
  destruct ev; simpl; now rewrite IH.
Qed.

(** The attempt loop of the blocking client, counted: every pass
    connects once and closes once, and every pass but one that returns
    or raises sleeps [delay]. *)
Lemma blocking_loop_counts {lib : PyLib} (uds : string)
  (klipper_api_key : option string) (max_attempts : nat) (delay : Q)
  (xs : list nat) :
  forall n,
  let t := trace_of (Blocking.for_attempts xs
                       (Blocking.attempt_once uds klipper_api_key max_attempts delay) n) in
  let r := outcome_of (Blocking.for_attempts xs
                         (Blocking.attempt_once uds klipper_api_key max_attempts delay) n) in
  closes t = connects t /\ connects t <= length xs /\
  exists k,
    sleeps t = repeat delay k /\
    match r with
    | Normal false => k = length xs /\ connects t = length xs
    | Normal true => S k = connects t
    | Raised e => S k = connects t /\ is_Exception e = false
    | OutOfFuel | Hangs => False
    end.
Proof.
  induction xs as [|x xs IH]; intros n; cbn zeta.
  - simpl. split; [reflexivity|]. split; [lia|]. exists 0. now repeat split.
  - pose proof (blocking_pass_counts uds klipper_api_key max_attempts delay x n) as Hp.
    cbn [app] in Hp. cbn [Blocking.for_attempts].
    unfold bind, trace_of, outcome_of in *.
    destruct (Blocking.attempt_once uds klipper_api_key max_attempts delay x n)
      as [[t1 n1] r1]. cbn [fst snd] in Hp. destruct Hp as [Hc [Hcl Hr]].
    destruct r1 as [[| |]|e| |]; try contradiction.
    + specialize (IH n1). cbn zeta in IH.
      destruct (Blocking.for_attempts xs _ n1) as [[t2 n2] r2]. cbn [fst snd] in *.
      destruct IH as [IHcl [IHle [k [IHs IHr]]]].
      rewrite closes_app, connects_app, sleeps_app, Hc, Hcl, Hr, IHcl, IHs.
      split; [reflexivity|]. split; [simpl; lia|].
      exists (S k). split; [reflexivity|].
      destruct r2 as [[|]|e| |]; simpl; try lia; try contradiction.
      destruct IHr as [IHr He]. split; [lia | exact He].
    + unfold ret. cbn [fst snd]. rewrite ?app_nil_r, Hc, Hcl, Hr.
      split; [reflexivity|]. split; [simpl; lia|]. exists 0. now split.
    + cbn [fst snd]. destruct Hr as [Hs He]. rewrite Hc, Hcl, Hs.
      split; [reflexivity|]. split; [simpl; lia|]. exists 0. now repeat split.
Qed.

Lemma logs_close_nothing (f : trace) :
  Forall (fun ev => exists lvl m, ev = ELog lvl m) f -> closes f = 0.
Proof. induction 1 as [|ev f [lvl [m ->]] _ IH]; simpl; [reflexivity | exact IH]. Qed.

Lemma checks_counts (ps : list process) :
  connects (map (fun p => ECheckSystemd (p_name p)) ps) = 0 /\
  closes (map (fun p => ECheckSystemd (p_name p)) ps) = 0 /\
  sleeps (map (fun p => ECheckSystemd (p_name p)) ps) = [].
Proof. induction ps as [|p ps IH]; simpl; [repeat split | exact IH]. Qed.

Lemma resolution_trace_closes (w : world) (line : process -> msg) :
  closes (resolution_trace w line) = 0.
Proof.
  unfold resolution_trace. cbn [closes]. rewrite closes_app.
  now rewrite (logs_close_nothing _ (found_lines_logs w line)).
Qed.

(** A whole run of the blocking client, counted. *)
Lemma blocking_run_counts {lib : PyLib} (max_attempts : nat) (delay : Q) (w : world)
  (t : trace) (r : outcome exit_point) :
  Blocking.run_with max_attempts delay w = (t, r) ->
  closes t = connects t /\ connects t <= max_attempts /\
  exists k,
    sleeps t = repeat delay k /\
    match r with
    | Normal ReturnNoSocket => k = 0 /\ connects t = 0
    | Normal ReturnStatus => S k = connects t
    | Normal ReturnExhausted => k = max_attempts /\ connects t = max_attempts
    | Raised e => S k = connects t /\ is_Exception e = false
    | OutOfFuel | Hangs => False
    end.
Proof.
  unfold Blocking.run_with, Blocking.get_printer_status_with. intros H.
  unfold bind at 1 in H. rewrite blocking_resolve_run in H.
  destruct (resolution_trace_counts w ProcessMsg) as [Hrc [Hrs _]].
  pose proof (resolution_trace_closes w ProcessMsg) as Hrl.
  set (found := resolution_trace w ProcessMsg) in *. clearbody found.
  set (checks := map (fun p => ECheckSystemd (p_name p)) (processes w)) in *.
  destruct (klipper_uds w) as [uds|].
  - unfold bind at 1, logging_debug at 1, emit at 1 in H.
    unfold bind at 1 in H.
    rewrite (for_each_emit (fun p => ECheckSystemd (p_name p))) in H.
    destruct (checks_counts (processes w)) as [Hcc [Hcl Hcs]].
    fold checks in H, Hcc, Hcl, Hcs. clearbody checks.
    pose proof (blocking_loop_counts uds (klipper_api_key w) max_attempts delay
                  (seq 0 max_attempts) (initial_net w)) as Hloop.
    cbn zeta in Hloop. rewrite length_seq in Hloop.
    unfold bind, trace_of, outcome_of in *.
    destruct (Blocking.for_attempts (seq 0 max_attempts) _ (initial_net w))
      as [[t1 n1] r1]. cbn [fst snd] in Hloop.
    destruct Hloop as [Hl [Hle [k [Hs Hr]]]].
    destruct r1 as [[|]|e| |]; try contradiction; cbn in H; injection H as <- <-;
      rewrite ?closes_app, ?connects_app, ?sleeps_app; cbn [closes connects sleeps];
      rewrite ?closes_app, ?connects_app, ?sleeps_app; cbn [closes connects sleeps app];
      rewrite ?Hrc, ?Hrs, ?Hrl, ?Hcc, ?Hcl, ?Hcs, ?Hl, ?Hs, ?app_nil_r;
      cbn [Nat.add app]; rewrite ?Nat.add_0_r;
      (split; [reflexivity|]; split; [lia|]; exists k; split; [reflexivity | exact Hr]).
  - cbn in H. injection H as <- <-.
    rewrite closes_app, connects_app, sleeps_app, Hrc, Hrs, Hrl. cbn.
    split; [reflexivity|]. split; [lia|]. exists 0. now repeat split.
Qed.

(** ** Passes and runs, counted *)

Lemma async_receive_emits (P : event -> Prop) :
  (forall e, P (ELog LvlError (TextExn "Error while receiving response: " e))) ->
  emits_only P Async.receive_response.
Proof.
  intros HP n.
  apply (ensures_async_receive [] (fun t _ => Forall P t)); intros;
    repeat constructor; apply HP.
Qed.

Lemma async_receive_never_sends : emits_only no_send Async.receive_response.
Proof. apply async_receive_emits. reflexivity. Qed.
#[local] Hint Resolve async_receive_never_sends : quiet.

Lemma async_listen_never_sends {lib : PyLib} (fuel : nat) :
  emits_only no_send (Async.listen fuel).
Proof.
  induction fuel as [|fuel IH]; simpl.
  - apply emits_out_of_fuel.
  - unfold Async.receive_update, Async.print_printer_status, Async.position_field.
    emits.
Qed.
#[local] Hint Resolve async_listen_never_sends : quiet.

Lemma no_send_sent (t : trace) : Forall no_send t -> sent t = [].
Proof.
  induction 1 as [|ev t Hev _ IH]; simpl; [reflexivity|].
  destruct ev; try exact IH. discriminate Hev.
Qed.

(** X19: the blocking client closes every socket it opens.  In a run
    of [get_printer_status], however it ends, as many sockets are
    closed as connections were attempted, one per pass of the attempt
    loop and at most [max_attempts]. *)
Theorem blocking_client_closes_every_socket :
  forall (lib : PyLib) (max_attempts : nat) (delay : Q) (w : world)
         (t : trace) (r : outcome exit_point),
  Blocking.run_with max_attempts delay w = (t, r) ->
  closes t = connects t /\ connects t <= max_attempts.
Proof.
  intros lib max_attempts delay w t r H.
  destruct (blocking_run_counts max_attempts delay w t r H) as [Hc [Hle _]].
  now split.
Qed.

Lemma blocking_client_closes_witness :
  closes (fst (@Blocking.run_with MiniJson.lib 3 2 Scenario.world_answering))
  = connects (fst (@Blocking.run_with MiniJson.lib 3 2 Scenario.world_answering))
  /\ connects (fst (@Blocking.run_with MiniJson.lib 3 2 Scenario.world_answering)) <= 3.
Proof.
  apply (blocking_client_closes_every_socket MiniJson.lib 3 2 Scenario.world_answering
           (fst (@Blocking.run_with MiniJson.lib 3 2 Scenario.world_answering))
           (snd (@Blocking.run_with MiniJson.lib 3 2 Scenario.world_answering))).
  apply surjective_pairing.
Defined.

(** X20: every sleep of the blocking client is the sleep of [delay]
    that follows a failed attempt: the sleep of a tenth of a second in
    the handler of a refused connection is never reached.  A run that gives up has slept
    [max_attempts] times, after the last attempt too; a run that
    returns the status has slept once per earlier attempt. *)
Theorem blocking_client_sleeps_delay_after_each_failed_attempt :
  forall (lib : PyLib) (max_attempts : nat) (delay : Q) (w : world)
         (t : trace) (r : outcome exit_point),
  Blocking.run_with max_attempts delay w = (t, r) ->
  exists k,
    sleeps t = repeat delay k /\ k <= max_attempts /\
    (r = Normal ReturnExhausted -> k = max_attempts) /\
    (r = Normal ReturnStatus -> S k = connects t) /\
    (r = Normal ReturnNoSocket -> k = 0).
Proof.
  intros lib max_attempts delay w t r H.
  destruct (blocking_run_counts max_attempts delay w t r H) as [_ [Hle [k [Hs Hr]]]].
  exists k. split; [exact Hs|].
  destruct r as [[| |]|e| |]; try contradiction;
    repeat split; try discriminate; try lia;
    try (intros _; first [assumption | lia]).
Qed.

Lemma blocking_client_sleeps_witness :
  exists k,
    sleeps (fst (@Blocking.run_with MiniJson.lib 3 2 Scenario.world_query_error))
    = repeat 2%Q k /\ k <= 3 /\
    (snd (@Blocking.run_with MiniJson.lib 3 2 Scenario.world_query_error)
     = Normal ReturnExhausted -> k = 3) /\
    (snd (@Blocking.run_with MiniJson.lib 3 2 Scenario.world_query_error)
     = Normal ReturnStatus ->
     S k = connects (fst (@Blocking.run_with MiniJson.lib 3 2
                            Scenario.world_query_error))) /\
    (snd (@Blocking.run_with MiniJson.lib 3 2 Scenario.world_query_error)
     = Normal ReturnNoSocket -> k = 0).
Proof.
  apply (blocking_client_sleeps_delay_after_each_failed_attempt MiniJson.lib 3 2
           Scenario.world_query_error).
  apply surjective_pairing.
Defined.

(** X21: in the blocking client a [connect] that fails with any
    [socket.error], refused, no such file, permission denied or timed
    out, surfaces as [NameError]: the handler reads the name [errno],
    which the module never imports.  The pass logs that [NameError] as
    an error, closes the socket and sleeps [delay]: the original error
    is not logged, and neither [continue] nor the bare [raise] is
    reached. *)
Theorem blocking_connect_error_surfaces_as_name_error :
  forall (lib : PyLib) (uds : string) (klipper_api_key : option string)
         (max_attempts : nat) (delay : Q) (attempt : nat) (n : net)
         (c : conn) (rest : list conn) (e : exn),
  pending n = c :: rest ->
  connect_error c = Some e ->
  is_socket_error e = true ->
  Blocking.attempt_once uds klipper_api_key max_attempts delay attempt n
  = ([ELog LvlDebug (AttemptMsg uds (attempt + 1) max_attempts);
      EConnect uds;
      ELog LvlError (TextExn "Error: " NameError);
      EClose;
      ESleep delay],
     {| sends_left := []; reads_left := []; pending := rest |},
     Normal Blocking.Next).
Proof.
  intros lib uds klipper_api_key max_attempts delay attempt n c rest e Hp Hc He.
  unfold Blocking.attempt_once, closing, Blocking.session, try_except, bind,
    logging_debug, logging_error, sleep, emit.
  rewrite connect_or_continue_run. unfold connect.
  rewrite Hp, Hc, He. reflexivity.
Qed.

Lemma blocking_connect_error_witness :
  @Blocking.attempt_once MiniJson.lib Scenario.uds0 None 3 2 0
    {| sends_left := []; reads_left := [];
       pending := [{| connect_error := Some (OSError 2); sends := []; reads := [] |}] |}
  = ([ELog LvlDebug (AttemptMsg Scenario.uds0 (0 + 1) 3);
      EConnect Scenario.uds0;
      ELog LvlError (TextExn "Error: " NameError);
      EClose;
      ESleep 2],
     {| sends_left := []; reads_left := []; pending := [] |},
     Normal Blocking.Next).
Proof.
  apply (blocking_connect_error_surfaces_as_name_error MiniJson.lib Scenario.uds0 None
           3 2 0 _ {| connect_error := Some (OSError 2); sends := []; reads := [] |}
           [] (OSError 2));
    reflexivity.
Defined.

(** X22: when the listing is answered with a result that has
    [objects] and the status query with a result that has the toolhead
    position and the print state, the first pass of the blocking client
    prints the objects, the first three coordinates and the state,
    closes the socket and returns: no sleep, no further attempt, no
    terminal failure line. *)
Theorem blocking_client_returns_after_printing_status :
  forall (lib : PyLib) (max_attempts : nat) (delay : Q) (w : world) (uds : string)
         (c : conn) (rest : list conn) (n1 n2 n3 n4 : net)
         (response1 response2 : string)
         (data1 result1 objects data2 result2 status toolhead position
          print_stats state x y z : json),
  klipper_uds w = Some uds ->
  conns w = c :: rest ->
  connect_error c = None ->
  write_all (frame Blocking.list_request) (connected c rest)
  = ([ESend (frame Blocking.list_request)], n1, Normal tt) ->
  Blocking.receive_response n1 = ([], n2, Normal response1) ->
  json_loads response1 = Some data1 ->
  py_in "result" data1 = inr true ->
  py_getitem data1 "result" = inr result1 ->
  py_getitem result1 "objects" = inr objects ->
  write_all (frame (Blocking.query_request (klipper_api_key w))) n2
  = ([ESend (frame (Blocking.query_request (klipper_api_key w)))], n3, Normal tt) ->
  Blocking.receive_response n3 = ([], n4, Normal response2) ->
  json_loads response2 = Some data2 ->
  py_in "result" data2 = inr true ->
  py_getitem data2 "result" = inr result2 ->
  py_getitem result2 "status" = inr status ->
  py_getitem status "toolhead" = inr toolhead ->
  py_getitem toolhead "position" = inr position ->
  py_getitem status "print_stats" = inr print_stats ->
  py_getitem print_stats "state" = inr state ->
  py_index position 0 = inr x ->
  py_index position 1 = inr y ->
  py_index position 2 = inr z ->
  Blocking.run_with (S max_attempts) delay w
  = (blocking_prelude w
     ++ blocking_status_pass uds (klipper_api_key w) (S max_attempts) 0
          response1 response2 objects x y z state,
     Normal ReturnStatus).
Proof.
  intros lib max_attempts delay w uds c rest n1 n2 n3 n4 response1 response2
    data1 result1 objects data2 result2 status toolhead position print_stats state
    x y z Huds Hcs Hc Hw1 Hr1 Hj1 Hin1 Hres1 Hobj Hw2 Hr2 Hj2 Hin2 Hres2 Hst Hth Hpos
    Hps Hstate Hx Hy Hz.
  assert (Hex : Blocking.exchange (klipper_api_key w) n1
    = ([ELog LvlDebug (TextStr "Received response: " response1);
        ELog LvlDebug (Text "API request succeeded");
        EPrint (TextJson "Available objects: " objects);
        ESend (frame (Blocking.query_request (klipper_api_key w)));
        ELog LvlDebug (Text "Sent JSON-RPC request for toolhead and print_stats");
        ELog LvlDebug (TextStr "Received response: " response2);
        EPrint (PositionMsg x y z);
        EPrint (TextJson "Print State: " state)],
       n4, Normal Blocking.Return)).
  { unfold Blocking.exchange, logging_debug, logging_warning, logging_error, print.
    rewrite (bind_run _ _ _ _ _ _ Hr1), bind_emit. unfold loads.
    rewrite Hj1, bind_ret, Hin1. cbn [lift]. rewrite bind_ret, bind_emit.
    rewrite Hres1. cbn [lift]. rewrite bind_ret, Hobj. cbn [lift].
    rewrite bind_ret, bind_emit, (bind_run _ _ _ _ _ _ Hw2), bind_emit.
    rewrite (bind_run _ _ _ _ _ _ Hr2), bind_emit.
    rewrite Hj2, bind_ret, Hin2. cbn [lift]. rewrite bind_ret. cbv beta iota.
    rewrite Hres2. cbn [lift]. rewrite bind_ret. cbv beta.
    rewrite Hst. cbn [lift]. rewrite bind_ret. cbv beta.
    rewrite Hth. cbn [lift]. rewrite bind_ret. cbv beta.
    rewrite Hpos. cbn [lift]. rewrite bind_ret. cbv beta.
    rewrite ?Hres2. cbn [lift]. rewrite bind_ret. cbv beta.
    rewrite ?Hst. cbn [lift]. rewrite bind_ret. cbv beta.
    rewrite Hps. cbn [lift]. rewrite bind_ret. cbv beta.
    rewrite Hstate. cbn [lift]. rewrite bind_ret. cbv beta.
    rewrite Hx. cbn [lift]. rewrite bind_ret. cbv beta.
    rewrite Hy. cbn [lift]. rewrite bind_ret. cbv beta.
    rewrite Hz. cbn [lift]. rewrite bind_ret. cbv beta.
    rewrite !bind_emit.
    reflexivity. }
  assert (Hpass : Blocking.attempt_once uds (klipper_api_key w) (S max_attempts) delay 0
                    (initial_net w)
    = (blocking_status_pass uds (klipper_api_key w) (S max_attempts) 0
         response1 response2 objects x y z state,
       n4, Normal Blocking.Return)).
  { unfold Blocking.attempt_once, closing, Blocking.session, logging_debug.
    unfold bind at 1. unfold try_except at 1.
    rewrite bind_emit.
    assert (Hcc : Blocking.connect_or_continue uds (initial_net w)
                  = ([EConnect uds], connected c rest, Normal Blocking.Next)).
    { rewrite connect_or_continue_run,
        (connect_run uds (initial_net w) c rest Hcs Hc). reflexivity. }
    rewrite (bind_run _ _ _ _ _ _ Hcc).
    unfold Blocking.dialogue, logging_debug.
    rewrite bind_emit, (bind_run _ _ _ _ _ _ Hw1), bind_emit.
    unfold try_except. rewrite Hex. reflexivity. }
  unfold Blocking.run_with, Blocking.get_printer_status_with.
  unfold bind at 1. rewrite blocking_resolve_run, Huds.
  unfold bind at 1, logging_debug at 1, emit at 1.
  unfold bind at 1.
  rewrite (for_each_emit (fun p => ECheckSystemd (p_name p))).
  unfold bind at 1. cbn [seq Blocking.for_attempts].
  rewrite (bind_run _ _ _ _ _ _ Hpass). cbv beta iota. unfold ret.
  unfold blocking_prelude, blocking_status_pass. cbn [app]. rewrite ?app_nil_r.
  repeat (rewrite <- app_assoc; cbn [app]). reflexivity.
Qed.

Lemma blocking_client_returns_witness :
  @Blocking.run_with MiniJson.lib 3 2 Scenario.world_answering
  = (blocking_prelude Scenario.world_answering
     ++ @blocking_status_pass MiniJson.lib Scenario.uds0 None 3 0
          (MiniJson.dumps Scenario.list_reply) (MiniJson.dumps Scenario.status_reply)
          (JArr [JStr "toolhead"; JStr "print_stats"])
          (JInt 10) (JInt 20) (JInt 5) (JStr "printing"),
     Normal ReturnStatus).
Proof.
  eapply (blocking_client_returns_after_printing_status MiniJson.lib 2 2
            Scenario.world_answering Scenario.uds0);
    reflexivity.
Defined.

(** X23: a pass of the blocking client prints the position and the
    print state together or not at all, and it ends in [return] exactly
    when it printed them: the two lines are then the last it emits
    before closing the socket, and a pass that ends any other way has
    printed neither. *)
Theorem blocking_pass_prints_both_status_lines_or_neither :
  forall (lib : PyLib) (uds : string) (klipper_api_key : option string)
         (max_attempts : nat) (delay : Q) (attempt : nat) (n n' : net)
         (t : trace) (r : outcome Blocking.flow),
  Blocking.attempt_once uds klipper_api_key max_attempts delay attempt n = (t, n', r) ->
  match r with
  | Normal Blocking.Return =>
    exists t0 x y z state,
      t = t0 ++ [EPrint (PositionMsg x y z);
                 EPrint (TextJson "Print State: " state);
                 EClose]
      /\ Forall no_status_line t0
  | _ => Forall no_status_line t
  end.
Proof.
  intros lib uds klipper_api_key max_attempts delay attempt n n' t r H.
  assert (G : ensures
    (Blocking.attempt_once uds klipper_api_key max_attempts delay attempt) []
    (fun t r =>
       match r with
       | Normal Blocking.Return =>
         exists t0 x y z state,
           t = t0 ++ [EPrint (PositionMsg x y z);
                      EPrint (TextJson "Print State: " state);
                      EClose]
           /\ Forall no_status_line t0
       | _ => Forall no_status_line t
       end)).
  { unfold Blocking.attempt_once, Blocking.session, Blocking.connect_or_continue,
      Blocking.dialogue, Blocking.exchange.
    walk.
    all: cbn [app].
    all: try solve [repeat constructor].
    all: try absurd_tests.
    eexists (_ :: _ :: _ :: _ :: _ :: _ :: _ :: _ :: _ :: _ :: _ :: []).
    do 4 eexists. split; [reflexivity | repeat constructor]. }
  specialize (G n). rewrite H in G. exact G.
Qed.

Lemma blocking_pass_status_lines_witness :
  Forall no_status_line (trace_of (Scenario.blocking_first_pass Scenario.world_query_error)).
Proof.
  apply (blocking_pass_prints_both_status_lines_or_neither MiniJson.lib Scenario.uds0
           None 3 2 0 (initial_net Scenario.world_query_error)
           (net_of (Scenario.blocking_first_pass Scenario.world_query_error))
           (trace_of (Scenario.blocking_first_pass Scenario.world_query_error))
           (Normal Blocking.Next)).
  vm_compute. reflexivity.
Defined.

(** One more step for the walk: the parts of the asyncio client that
    write nothing to the socket. *)
Ltac quiet_step :=
  match goal with
  | |- ensures (Async.listen _) _ _ =>
    apply (ensures_of_emits no_send);
    [apply async_listen_never_sends | intros ? ? ?]
  | |- ensures (for_each _ _) _ _ =>
    apply (ensures_of_emits no_send); [emits | intros ? ? ?]
  | |- match ?r with Normal _ => _ | Raised _ => _ | OutOfFuel => _ | Hangs => _ end =>
    destruct r
  end.

Ltac count_sent :=
  unfold begins; rewrite ?sent_app;
  repeat match goal with
         | H : Forall no_send ?t |- _ => rewrite (no_send_sent t H); clear H
         end;
  cbn [sent app];
  first [ exists 0; reflexivity | exists 1; reflexivity | exists 2; reflexivity ].

(** X24: on one connection either client writes at most two frames,
    each once: the listing request first and then, in the asyncio
    client, the subscribe request, in the blocking client the status
    query.  Nothing is written again after a failure, and the update
    loop writes nothing. *)
Theorem each_pass_writes_at_most_its_two_requests :
  forall (lib : PyLib) (uds : string) (max_attempts : nat) (delay : Q)
         (attempt : nat) (n : net),
  (forall fuel,
     begins [frame Async.list_request; frame Async.subscribe_request]
       (sent (trace_of (Async.attempt_once fuel uds max_attempts delay attempt n))))
  /\
  (forall klipper_api_key,
     begins [frame Blocking.list_request; frame (Blocking.query_request klipper_api_key)]
       (sent (trace_of (Blocking.attempt_once uds klipper_api_key max_attempts delay
                          attempt n)))).
Proof.
  intros lib uds max_attempts delay attempt n. split.
  - intros fuel.
    assert (G : ensures (Async.attempt_once fuel uds max_attempts delay attempt) []
                  (fun t _ =>
                     begins [frame Async.list_request; frame Async.subscribe_request]
                       (sent t))).
    { unfold Async.attempt_once, Async.handshake, Async.converse.
      unfold_io.
      repeat (cbv beta iota; first [quiet_step | walk_step]).
      all: count_sent. }
    exact (G n).
  - intros klipper_api_key.
    assert (G : ensures
                  (Blocking.attempt_once uds klipper_api_key max_attempts delay attempt) []
                  (fun t _ =>
                     begins [frame Blocking.list_request;
                             frame (Blocking.query_request klipper_api_key)]
                       (sent t))).
    { unfold Blocking.attempt_once, Blocking.session, Blocking.connect_or_continue,
        Blocking.dialogue, Blocking.exchange.
      walk.
      all: count_sent. }
    exact (G n).
Qed.

(** X25: against a peer that accepts the connection and closes it
    without a word, the asyncio client logs that no response was
    received; the blocking client hands the empty text to
    [json.loads], which rejects it, and logs that it is unable to parse
    the response.  Either pass then sleeps [delay]; nothing else is
    sent. *)
Theorem silent_peer_fails_the_pass :
  forall (lib : PyLib) (uds : string) (max_attempts : nat) (delay : Q)
         (attempt : nat) (n : net) (c : conn) (rest : list conn),
  pending n = c :: rest ->
  connect_error c = None ->
  sends c = [] ->
  reads c = [] ->
  (forall fuel,
     Async.attempt_once fuel uds max_attempts delay attempt n
     = (async_silent_pass uds max_attempts delay attempt, connected c rest, Normal tt))
  /\
  (forall klipper_api_key,
     json_loads EmptyString = None ->
     Blocking.attempt_once uds klipper_api_key max_attempts delay attempt n
     = (blocking_silent_pass uds max_attempts delay attempt, connected c rest,
        Normal Blocking.Next)).
Proof.
  intros lib uds max_attempts delay attempt n c rest Hp Hc Hs Hr.
  destruct c as [connect_error sends reads]. simpl in Hc, Hs, Hr. subst.
  split.
  - intros fuel.
    unfold Async.attempt_once, Async.handshake, Async.converse, try_except, bind,
      logging_debug, logging_error, emit, sleep, Async.send_request, write_all,
      Async.receive_response, connect.
    rewrite Hp. reflexivity.
  - intros klipper_api_key Hj.
    unfold Blocking.attempt_once, closing, Blocking.session, logging_debug.
    unfold bind at 1. unfold try_except at 1. rewrite bind_emit.
    assert (Hcc : Blocking.connect_or_continue uds n
                  = ([EConnect uds],
                     {| sends_left := []; reads_left := []; pending := rest |},
                     Normal Blocking.Next)).
    { rewrite connect_or_continue_run. unfold connect. now rewrite Hp. }
    rewrite (bind_run _ _ _ _ _ _ Hcc).
    unfold Blocking.dialogue, Blocking.exchange, try_except, bind, logging_debug,
      logging_error, emit, write_all, Blocking.receive_response, loads, sleep.
    cbn. rewrite Hj. reflexivity.
Qed.

Lemma silent_peer_witness :
  (forall fuel,
     @Async.attempt_once MiniJson.lib fuel Scenario.uds0 3 2 0
       (initial_net (Scenario.world_of [Scenario.speaking []]))
     = (@async_silent_pass MiniJson.lib Scenario.uds0 3 2 0,
        connected (Scenario.speaking []) [], Normal tt))
  /\
  (forall klipper_api_key,
     @json_loads MiniJson.lib EmptyString = None ->
     @Blocking.attempt_once MiniJson.lib Scenario.uds0 klipper_api_key 3 2 0
       (initial_net (Scenario.world_of [Scenario.speaking []]))
     = (@blocking_silent_pass MiniJson.lib Scenario.uds0 3 2 0,
        connected (Scenario.speaking []) [], Normal Blocking.Next)).
Proof.
  apply (silent_peer_fails_the_pass MiniJson.lib Scenario.uds0 3 2 0
           (initial_net (Scenario.world_of [Scenario.speaking []]))
           (Scenario.speaking []) []);
    reflexivity.
Defined.
